(** * FileZee: upload validation, metadata store and lifecycle sweeper

    A shallow embedding of the JavaScript sources

    - [src/config/config.js], [src/config/multer.js]
    - [src/middleware/security.js], [src/middleware/errorHandler.js]
    - [src/models/FileMetadata.js]
    - [src/services/lifecycleService.js]
    - [src/routes/fileRoutes.js]

    Asynchronous functions are embedded in a state-and-exception monad over
    the metadata store, the file system and a trace of the side effects that
    were attempted.  Node's [path] module is the POSIX one. *)

From Stdlib Require Import ZArith Ascii String List Lia.
From stdpp Require Import base option list strings gmap pretty sorting.

Local Open Scope string_scope.
Local Open Scope Z_scope.

(** ** JavaScript strings *)

Module Js.

Definition slash : ascii := "/"%char.
Definition backslash : ascii := "092"%char.
Definition dot : ascii := "."%char.

Definition chars (s : string) : list ascii := list_ascii_of_string s.
Definition of_chars (l : list ascii) : string := string_of_list_ascii l.

Definition is_char (c d : ascii) : bool := Ascii.eqb c d.

(** [s.includes(c)] for a one-character needle. *)
Fixpoint includes_char (c : ascii) (s : string) : bool :=
  match s with
  | EmptyString => false
  | String d r => is_char c d || includes_char c r
  end.

(** [s.includes("..")]. *)
Fixpoint includes_dotdot (s : string) : bool :=
  match s with
  | String a ((String b _) as r) =>
      (is_char dot a && is_char dot b) || includes_dotdot r
  | _ => false
  end.

(** [s.startsWith(".")]. *)
Definition startsWith_dot (s : string) : bool :=
  match s with
  | String a _ => is_char dot a
  | EmptyString => false
  end.

(** [s.replace(/\.\./g, '')]: one left-to-right pass over the
    non-overlapping matches. *)
Fixpoint replace_dotdot (s : string) : string :=
  match s with
  | EmptyString => EmptyString
  | String a r =>
      match r with
      | String b r' =>
          if is_char dot a && is_char dot b
          then replace_dotdot r'
          else String a (replace_dotdot r)
      | EmptyString => String a EmptyString
      end
  end.

(** [s.startsWith(needle)]. *)
Fixpoint startsWith (needle s : string) : bool :=
  match needle, s with
  | EmptyString, _ => true
  | String a n, String b r => is_char a b && startsWith n r
  | String _ _, EmptyString => false
  end.

(** [s.includes(needle)]. *)
Fixpoint includes_string (needle s : string) : bool :=
  startsWith needle s
  || match s with
     | EmptyString => false
     | String _ r => includes_string needle r
     end.

Definition is_separator (c : ascii) : bool :=
  is_char slash c || is_char backslash c.

(** [s.replace(/[/\\]/g, '')]. *)
Fixpoint replace_separators (s : string) : string :=
  match s with
  | EmptyString => EmptyString
  | String a r =>
      if is_separator a then replace_separators r
      else String a (replace_separators r)
  end.

Fixpoint drop_while {A} (p : A -> bool) (l : list A) : list A :=
  match l with
  | [] => []
  | x :: r => if p x then drop_while p r else l
  end.

Fixpoint take_while {A} (p : A -> bool) (l : list A) : list A :=
  match l with
  | [] => []
  | x :: r => if p x then x :: take_while p r else []
  end.

End Js.

(** ** Node's [path] module (POSIX flavour) *)

Module Path.

(** [path.basename(p)]: scanning from the end, trailing slashes are
    skipped, then the characters up to the next slash are kept. *)
Definition basename (p : string) : string :=
  let r := Js.drop_while (Js.is_char Js.slash) (rev (Js.chars p)) in
  Js.of_chars (rev (Js.take_while (fun c => negb (Js.is_char Js.slash c)) r)).

(** [path.extname(p)]: from the last dot of the last path component to its
    end; empty when the component has no dot, when its only dot is its first
    character, or when the component is [".."]. *)
Definition extname (p : string) : string :=
  let b := Js.chars (basename p) in
  let rb := rev b in
  let tail := Js.take_while (fun c => negb (Js.is_char Js.dot c)) rb in
  match Js.drop_while (fun c => negb (Js.is_char Js.dot c)) rb with
  | [] => EmptyString
  | _ :: [] => EmptyString
  | _ :: _ :: _ =>
      if String.eqb (basename p) ".." then EmptyString
      else Js.of_chars (Js.dot :: rev tail)
  end.

Fixpoint strip_prefix (pre l : list ascii) : option (list ascii) :=
  match pre, l with
  | [], _ => Some l
  | a :: pre', b :: l' => if Js.is_char a b then strip_prefix pre' l' else None
  | _ :: _, [] => None
  end.

(** [path.basename(p, ext)] for an [ext] that fits inside the last path
    component, which is how [generateUniqueFilename] calls it: the
    component without that suffix, or the whole component when the suffix
    is empty, absent, or the whole component. *)
Definition basename_ext (p ext : string) : string :=
  let b := basename p in
  match ext with
  | EmptyString => b
  | _ =>
      match strip_prefix (rev (Js.chars ext)) (rev (Js.chars b)) with
      | Some (c :: r) => Js.of_chars (rev (c :: r))
      | _ => b
      end
  end.

(** [path.join(dir, name)] for a normalized [dir] and a one-component
    [name]. *)
Definition join (dir name : string) : string := dir ++ "/" ++ name.

End Path.

(** ** Configuration ([src/config/config.js]) *)

Record Config := {
  maxFileSizeBytes : Z;
  uploadDir : string;
  maxStorageBytes : Z;
  fileRetentionMs : Z;
  allowedMimeTypes : list string;
  blockedExtensions : list string
}.

(** The values [config.js] falls back to when the environment sets none. *)
Definition default_config : Config := {|
  maxFileSizeBytes := 10 * 1024 * 1024;
  uploadDir := "uploads";
  maxStorageBytes := 1000 * 1024 * 1024;
  fileRetentionMs := 24 * 60 * 60 * 1000;
  allowedMimeTypes :=
    [ "image/jpeg"; "image/png"; "image/gif"; "image/webp"; "application/pdf";
      "text/plain"; "text/csv";
      "application/vnd.openxmlformats-officedocument.wordprocessingml.document";
      "application/vnd.openxmlformats-officedocument.spreadsheetml.sheet" ];
  blockedExtensions :=
    [ ".exe"; ".bat"; ".cmd"; ".sh"; ".ps1"; ".msi"; ".dll"; ".scr"; ".jar";
      ".vbs"; ".js"; ".app" ]
|}.

(** [list.includes(x)] on a list of strings. *)
Definition includes (x : string) (l : list string) : bool :=
  existsb (String.eqb x) l.

(** ** Data *)

Definition Blob := list Byte.byte.

Definition byteLength (b : Blob) : Z := Z.of_nat (length b).

(** A metadata record, as built by [addFile].  Dates are milliseconds since
    the epoch ([toISOString] and [new Date(iso)] are inverse to each other). *)
Record FileRecord := {
  id : string;
  originalName : string;
  filename : string;
  mimeType : string;
  size : Z;
  path : string;
  uploadedAt : Z;
  expiresAt : Z
}.

(** [req.file] as multer's disk storage fills it in. *)
Record UploadedFile := {
  f_originalname : string;
  f_mimetype : string;
  f_filename : string;
  f_path : string;
  f_size : Z
}.

(** The file part of a multipart request, with the random suffix
    ([crypto.randomBytes(8).toString('hex')]) drawn for it. *)
Record FilePart := {
  originalname : string;
  mimetype : string;
  content : Blob;
  randomString : string
}.

Inductive ErrCode := ENOENT | EACCES | EPERM | EIO.

(** The operations of [fs] the program uses. *)
Inductive FsOp := OpUnlink | OpAccess | OpReadFile | OpWriteFile | OpReaddir | OpMkdir.

(** Exceptions, one constructor per [throw] site; a system error carries
    its code, the operation that failed and the path it was given, which
    make up its message. *)
Inductive Exn :=
| FsError (code : ErrCode) (op : FsOp) (p : string)
| SyntaxError
| PersistFailed (cause : Exn)
| InitFailed (cause : Exn)
| InvalidFilename
| ExtensionNotAllowed (ext : string)
| MimeNotAllowed (mime : string)
| LimitFileSize.

(** [fs.readFile] and [fs.writeFile] open the file and then read or write
    it.  [ENOENT], [EACCES] and [EPERM] are the answers of the [open]; [EIO]
    is the failure of the transfer that follows it. *)
Definition fails_on_open (c : ErrCode) : bool :=
  match c with
  | EIO => false
  | _ => true
  end.

Definition code_name (c : ErrCode) : string :=
  match c with
  | ENOENT => "ENOENT"
  | EACCES => "EACCES"
  | EPERM => "EPERM"
  | EIO => "EIO"
  end.

Definition describe (c : ErrCode) : string :=
  match c with
  | ENOENT => "no such file or directory"
  | EACCES => "permission denied"
  | EPERM => "operation not permitted"
  | EIO => "i/o error"
  end.

(** The system call a failure is reported for, and whether the report
    quotes the path: a failed [read] or [write] is reported for the open
    descriptor, without a path. *)
Definition syscall (op : FsOp) (c : ErrCode) : string * bool :=
  match op with
  | OpUnlink => ("unlink", true)
  | OpAccess => ("access", true)
  | OpReaddir => ("scandir", true)
  | OpMkdir => ("mkdir", true)
  | OpReadFile => if fails_on_open c then ("open", true) else ("read", false)
  | OpWriteFile => if fails_on_open c then ("open", true) else ("write", false)
  end.

(** [error.message].  The message [JSON.parse] gives depends on the text
    it was given; the one for a text that ends too early stands for it. *)
Fixpoint message (e : Exn) : string :=
  match e with
  | FsError c op p =>
      code_name c ++ ": " ++ describe c ++ ", " ++ (syscall op c).1
      ++ (if (syscall op c).2 then " '" ++ p ++ "'" else EmptyString)
  | SyntaxError => "Unexpected end of JSON input"
  | PersistFailed cause => "Failed to persist metadata: " ++ message cause
  | InitFailed cause => "Failed to initialize metadata store: " ++ message cause
  | InvalidFilename => "Invalid filename"
  | ExtensionNotAllowed ext =>
      "File type " ++ ext ++ " is not allowed for security reasons"
  | MimeNotAllowed mime => "MIME type " ++ mime ++ " is not allowed"
  | LimitFileSize => "File too large"
  end.

Inductive Res (A : Type) :=
| Ok (a : A)
| Throw (e : Exn).
Arguments Ok {A} a.
Arguments Throw {A} e.

(** Effects that were attempted, oldest first. *)
Inductive Event :=
| EvUnlink (p : string)
| EvWriteFile (p : string)
| EvWriteSnapshot (records : list FileRecord)
| EvMapSet (key : string)
| EvMapDelete (key : string).

(** ** A JavaScript [Map] with string keys: insertion-ordered, unique keys *)

Module JsMap.

Definition t (V : Type) := list (string * V).

Definition empty {V} : t V := [].

Fixpoint get {V} (k : string) (m : t V) : option V :=
  match m with
  | [] => None
  | (k', v) :: m' => if String.eqb k k' then Some v else get k m'
  end.

(** [m.set(k, v)] keeps the position of an existing key. *)
Fixpoint set {V} (k : string) (v : V) (m : t V) : t V :=
  match m with
  | [] => [(k, v)]
  | (k', v') :: m' =>
      if String.eqb k k' then (k, v) :: m' else (k', v') :: set k v m'
  end.

Fixpoint delete {V} (k : string) (m : t V) : t V :=
  match m with
  | [] => []
  | (k', v') :: m' =>
      if String.eqb k k' then delete k m' else (k', v') :: delete k m'
  end.

Definition values {V} (m : t V) : list V := map snd m.

Definition has {V} (k : string) (m : t V) : bool :=
  match get k m with Some _ => true | None => false end.

End JsMap.

(** ** The store, the file system and the monad of asynchronous code *)

(** What [metadata/files.json] holds. *)
Inductive Snapshot :=
| Absent
| Records (records : list FileRecord)
| Corrupt.

(** The world outside the process: regular files by path, the snapshot
    file, the clock, and the failures the file system answers with
    ([fault op p = Some code]: [op] on [p] fails with [code]). *)
Record World := {
  disk : gmap string Blob;
  snapshot : Snapshot;
  clock : Z;
  fault : FsOp -> string -> option ErrCode
}.

(** [FileMetadataStore]: [this.metadata] and [this.initialized]. *)
Record Store := {
  metadata : JsMap.t FileRecord;
  initialized : bool
}.

Record St := {
  store : Store;
  world : World;
  trace : list Event
}.

Definition METADATA_DIR : string := "metadata".
Definition METADATA_FILE : string := Path.join METADATA_DIR "files.json".

Definition M (A : Type) : Type := St -> Res A * St.

Definition ret {A} (a : A) : M A := fun s => (Ok a, s).

Definition throw {A} (e : Exn) : M A := fun s => (Throw e, s).

Definition bind {A B} (m : M A) (k : A -> M B) : M B :=
  fun s =>
    match m s with
    | (Ok a, s') => k a s'
    | (Throw e, s') => (Throw e, s')
    end.

(** [try { m } catch (e) { h e }] *)
Definition try_catch {A} (m : M A) (h : Exn -> M A) : M A :=
  fun s =>
    match m s with
    | (Ok a, s') => (Ok a, s')
    | (Throw e, s') => h e s'
    end.

Notation "x <- m ;; k" := (bind m (fun x => k))
  (at level 100, m at next level, right associativity).
Notation "m ;; k" := (bind m (fun _ => k))
  (at level 100, right associativity).

Definition get_st : M St := fun s => (Ok s, s).

Definition st_log (e : Event) (s : St) : St :=
  {| store := store s; world := world s; trace := trace s ++ [e] |}.

Definition st_disk (d : gmap string Blob) (s : St) : St :=
  {| store := store s;
     world := {| disk := d; snapshot := snapshot (world s);
                 clock := clock (world s); fault := fault (world s) |};
     trace := trace s |}.

Definition st_snapshot (sn : Snapshot) (s : St) : St :=
  {| store := store s;
     world := {| disk := disk (world s); snapshot := sn;
                 clock := clock (world s); fault := fault (world s) |};
     trace := trace s |}.

Definition st_metadata (m : JsMap.t FileRecord) (s : St) : St :=
  {| store := {| metadata := m; initialized := initialized (store s) |};
     world := world s; trace := trace s |}.

Definition st_initialized (b : bool) (s : St) : St :=
  {| store := {| metadata := metadata (store s); initialized := b |};
     world := world s; trace := trace s |}.

Definition log (e : Event) : M unit := fun s => (Ok tt, st_log e s).

Definition set_disk (d : gmap string Blob) : M unit :=
  fun s => (Ok tt, st_disk d s).

Definition set_snapshot (sn : Snapshot) : M unit :=
  fun s => (Ok tt, st_snapshot sn s).

Definition set_metadata (m : JsMap.t FileRecord) : M unit :=
  fun s => (Ok tt, st_metadata m s).

Definition set_initialized (b : bool) : M unit :=
  fun s => (Ok tt, st_initialized b s).

(** The injected failure of [op] on [p], if any. *)
Definition check_fault (op : FsOp) (p : string) : M unit :=
  s <- get_st ;;
  match fault (world s) op p with
  | Some c => throw (FsError c op p)
  | None => ret tt
  end.

Module fs.

Definition unlink (p : string) : M unit :=
  log (EvUnlink p) ;;
  check_fault OpUnlink p ;;
  s <- get_st ;;
  match disk (world s) !! p with
  | None => throw (FsError ENOENT OpUnlink p)
  | Some _ => set_disk (delete p (disk (world s)))
  end.

Definition access (p : string) : M unit :=
  check_fault OpAccess p ;;
  s <- get_st ;;
  match disk (world s) !! p with
  | None => throw (FsError ENOENT OpAccess p)
  | Some _ => ret tt
  end.

Definition readFile (p : string) : M Blob :=
  check_fault OpReadFile p ;;
  s <- get_st ;;
  match disk (world s) !! p with
  | None => throw (FsError ENOENT OpReadFile p)
  | Some b => ret b
  end.

Definition writeFile (p : string) (b : Blob) : M unit :=
  log (EvWriteFile p) ;;
  check_fault OpWriteFile p ;;
  s <- get_st ;;
  set_disk (<[p := b]> (disk (world s))).

Definition mkdir (p : string) : M unit :=
  check_fault OpMkdir p.

(** The names of the regular files directly inside [dir]. *)
Definition entry_name (dir p : string) : option string :=
  match Path.strip_prefix (Js.chars (dir ++ "/")) (Js.chars p) with
  | Some n =>
      if Js.includes_char Js.slash (Js.of_chars n) then None
      else Some (Js.of_chars n)
  | None => None
  end.

Definition readdir (dir : string) : M (list string) :=
  check_fault OpReaddir dir ;;
  s <- get_st ;;
  ret (omap (entry_name dir) (elements (dom (disk (world s))))).

(** [fs.readFile(METADATA_FILE, 'utf8')] followed by [JSON.parse]. *)
Definition readSnapshot : M (list FileRecord) :=
  check_fault OpReadFile METADATA_FILE ;;
  s <- get_st ;;
  match snapshot (world s) with
  | Absent => throw (FsError ENOENT OpReadFile METADATA_FILE)
  | Corrupt => throw SyntaxError
  | Records l => ret l
  end.

(** [fs.writeFile(METADATA_FILE, JSON.stringify(records, null, 2), 'utf8')]:
    the file is opened with flag ['w'], which creates or empties it, and
    then written.  A write that fails once the file is open leaves it empty
    or cut short, which does not parse. *)
Definition writeSnapshot (records : list FileRecord) : M unit :=
  log (EvWriteSnapshot records) ;;
  s <- get_st ;;
  match fault (world s) OpWriteFile METADATA_FILE with
  | Some c =>
      (if fails_on_open c then ret tt else set_snapshot Corrupt) ;;
      throw (FsError c OpWriteFile METADATA_FILE)
  | None => set_snapshot (Records records)
  end.

End fs.

(** [for (const x of l) { body x }] *)
Fixpoint for_of {A} (l : list A) (body : A -> M unit) : M unit :=
  match l with
  | [] => ret tt
  | x :: r => body x ;; for_of r body
  end.

(** ** [FileMetadataStore] ([src/models/FileMetadata.js]) *)

Module metadataStore.

Definition map_set (r : FileRecord) : M unit :=
  log (EvMapSet (id r)) ;;
  s <- get_st ;;
  set_metadata (JsMap.set (id r) r (metadata (store s))).

Definition map_delete (k : string) : M unit :=
  log (EvMapDelete k) ;;
  s <- get_st ;;
  set_metadata (JsMap.delete k (metadata (store s))).

Definition initialize : M unit :=
  s <- get_st ;;
  if initialized (store s) then ret tt
  else
    try_catch
      (fs.mkdir METADATA_DIR ;;
       try_catch
         (records <- fs.readSnapshot ;;
          for_of records map_set)
         (fun error =>
            match error with
            | FsError ENOENT _ _ => ret tt
            | _ => throw error
            end) ;;
       set_initialized true)
      (fun error => throw (InitFailed error)).

Definition ensure_initialized : M unit :=
  s <- get_st ;;
  if initialized (store s) then ret tt else initialize.

Definition persist : M unit :=
  try_catch
    (s <- get_st ;;
     fs.writeSnapshot (JsMap.values (metadata (store s))))
    (fun error => throw (PersistFailed error)).

Definition addFile (cfg : Config) (fileData : UploadedFile) : M FileRecord :=
  ensure_initialized ;;
  s <- get_st ;;
  let record := {|
    id := f_filename fileData;
    originalName := f_originalname fileData;
    filename := f_filename fileData;
    mimeType := f_mimetype fileData;
    size := f_size fileData;
    path := f_path fileData;
    uploadedAt := clock (world s);
    expiresAt := clock (world s) + fileRetentionMs cfg
  |} in
  map_set record ;;
  persist ;;
  ret record.

Definition getFile (fileId : string) : M (option FileRecord) :=
  ensure_initialized ;;
  s <- get_st ;;
  ret (JsMap.get fileId (metadata (store s))).

Definition getAllFiles : M (list FileRecord) :=
  ensure_initialized ;;
  s <- get_st ;;
  ret (JsMap.values (metadata (store s))).

Definition deleteFile (fileId : string) : M (option FileRecord) :=
  ensure_initialized ;;
  s <- get_st ;;
  match JsMap.get fileId (metadata (store s)) with
  | None => ret None
  | Some record =>
      map_delete fileId ;;
      persist ;;
      ret (Some record)
  end.

Definition getExpiredFiles : M (list FileRecord) :=
  ensure_initialized ;;
  s <- get_st ;;
  let now := clock (world s) in
  ret (filter (fun record => expiresAt record <= now)
              (JsMap.values (metadata (store s)))).

(** The loop of [getTotalStorageUsed]. *)
Definition total_size (records : list FileRecord) : Z :=
  fold_left (fun total record => total + size record) records 0.

Definition getTotalStorageUsed : M Z :=
  ensure_initialized ;;
  s <- get_st ;;
  ret (total_size (JsMap.values (metadata (store s)))).

(** The first loop of [cleanOrphanedMetadata]: the ids of the records
    whose [path] cannot be accessed. *)
Fixpoint collect_orphaned (records : list FileRecord) : M (list string) :=
  match records with
  | [] => ret []
  | record :: rest =>
      missing <- try_catch (fs.access (path record) ;; ret false)
                           (fun _ => ret true) ;;
      orphaned <- collect_orphaned rest ;;
      ret (if missing : bool then id record :: orphaned else orphaned)
  end.

Definition cleanOrphanedMetadata : M Z :=
  ensure_initialized ;;
  s <- get_st ;;
  orphaned <- collect_orphaned (JsMap.values (metadata (store s))) ;;
  for_of orphaned map_delete ;;
  (if (0 <? Z.of_nat (length orphaned)) then persist else ret tt) ;;
  ret (Z.of_nat (length orphaned)).

End metadataStore.

(** ** HTTP responses *)

Inductive Response :=
| Created (record : FileRecord)                         (* 201 *)
| NoFileUploaded                                        (* 400 *)
| MimeMismatch (claimed actual : string)                (* 400 *)
| ActualTypeNotAllowed (actual : string)                (* 400 *)
| ValidateFailed (error : Exn)                          (* 500 *)
| StorageLimitExceeded (currentUsage incomingSize : Z)  (* 507 *)
| StorageCheckFailed (error : Exn)                      (* 500 *)
| InvalidFileId                                         (* 400 *)
| InvalidFileIdFormat (error : Exn)                     (* 400 *)
| FileTooLarge                                          (* 413 *)
| NotAllowed (error : Exn)                              (* 400 *)
| FileNotFound                                          (* 404 *)
| PermissionDenied                                      (* 500 *)
| InternalError (error : Exn).                          (* 500 *)

Definition status (r : Response) : Z :=
  match r with
  | Created _ => 201
  | NoFileUploaded | MimeMismatch _ _ | ActualTypeNotAllowed _
  | InvalidFileId | InvalidFileIdFormat _ | NotAllowed _ => 400
  | FileNotFound => 404
  | FileTooLarge => 413
  | StorageLimitExceeded _ _ => 507
  | ValidateFailed _ | StorageCheckFailed _ | PermissionDenied
  | InternalError _ => 500
  end.

(** What a middleware does with the request: pass it on, or answer it. *)
Inductive Flow :=
| Next
| Sent (r : Response).

(** [err.code], which only system errors and multer's errors have. *)
Definition fs_code (err : Exn) : option ErrCode :=
  match err with
  | FsError c _ _ => Some c
  | _ => None
  end.

(** [errorHandler] ([src/middleware/errorHandler.js]): multer's codes
    first, then the test of the message for ['not allowed'], then the codes
    of the file system, then the default. *)
Definition errorHandler (err : Exn) : Response :=
  match err with
  | LimitFileSize => FileTooLarge
  | _ =>
      if Js.includes_string "not allowed" (message err) then NotAllowed err
      else
        match fs_code err with
        | Some ENOENT => FileNotFound
        | Some EACCES | Some EPERM => PermissionDenied
        | _ => InternalError err
        end
  end.

(** The error taxonomy of the specification, read off a response. *)
Inductive IngestError :=
| ExtensionBlocked
| TypeNotAllowed
| TypeMismatch
| StorageExceeded
| PersistenceError
| IOError.

Definition ingest_error (r : Response) : option IngestError :=
  match r with
  | Created _ => None
  | NotAllowed (ExtensionNotAllowed _) => Some ExtensionBlocked
  | NotAllowed (MimeNotAllowed _) => Some TypeNotAllowed
  | ActualTypeNotAllowed _ => Some TypeNotAllowed
  | MimeMismatch _ _ => Some TypeMismatch
  | StorageLimitExceeded _ _ => Some StorageExceeded
  | InternalError (PersistFailed _) => Some PersistenceError
  | _ => Some IOError
  end.

(** ** [src/middleware/security.js] *)

Section Security.

Variable cfg : Config.

(** [FileType.fromBuffer(buffer)], reduced to the [mime] field of its
    answer: the type the signature of the bytes implies, if any. *)
Variable fromBuffer : Blob -> option string.

Definition validateFileMimeType (file : option UploadedFile) : M Flow :=
  match file with
  | None => ret Next
  | Some f =>
      try_catch
        (fileBuffer <- fs.readFile (f_path f) ;;
         match fromBuffer fileBuffer with
         | Some mime =>
             if negb (String.eqb mime (f_mimetype f)) then
               fs.unlink (f_path f) ;;
               ret (Sent (MimeMismatch (f_mimetype f) mime))
             else if negb (includes mime (allowedMimeTypes cfg)) then
               fs.unlink (f_path f) ;;
               ret (Sent (ActualTypeNotAllowed mime))
             else ret Next
         | None => ret Next
         end)
        (fun error =>
           try_catch (fs.unlink (f_path f)) (fun _ => ret tt) ;;
           ret (Sent (ValidateFailed error)))
  end.

Definition sanitizeFilename (filename : string) : Res string :=
  let sanitized :=
    Js.replace_separators (Js.replace_dotdot (Path.basename filename)) in
  match sanitized with
  | EmptyString => Throw InvalidFilename
  | _ => Ok sanitized
  end.

Definition checkStorageLimit (file : option UploadedFile) : M Flow :=
  try_catch
    (currentUsage <- metadataStore.getTotalStorageUsed ;;
     let incomingSize := match file with Some f => f_size f | None => 0 end in
     if currentUsage + incomingSize >? maxStorageBytes cfg then
       match file with
       | Some f => fs.unlink (f_path f)
       | None => ret tt
       end ;;
       ret (Sent (StorageLimitExceeded currentUsage incomingSize))
     else ret Next)
    (fun error => ret (Sent (StorageCheckFailed error))).

(** [validateFileId]: the answer sent, or the sanitized id that replaces
    [req.params.fileId] for the handlers behind it. *)
Definition validateFileId (fileId : string) : Response + string :=
  match fileId with
  | EmptyString => inl InvalidFileId
  | _ =>
      match sanitizeFilename fileId with
      | Ok sanitized => inr sanitized
      | Throw error => inl (InvalidFileIdFormat error)
      end
  end.

End Security.

(** ** [src/config/multer.js] *)

Module Multer.

Definition lower (c : ascii) : ascii :=
  let n := nat_of_ascii c in
  if ((65 <=? n) && (n <=? 90))%nat then ascii_of_nat (n + 32) else c.

(** [s.toLowerCase()] on ASCII. *)
Definition toLowerCase (s : string) : string :=
  Js.of_chars (map lower (Js.chars s)).

Definition is_safe (c : ascii) : bool :=
  let n := nat_of_ascii c in
  (((97 <=? n) && (n <=? 122)) || ((65 <=? n) && (n <=? 90))
   || ((48 <=? n) && (n <=? 57)) || (n =? 95) || (n =? 45))%nat.

Definition generateUniqueFilename
    (originalname : string) (timestamp : Z) (randomString : string) : string :=
  let ext := Path.extname originalname in
  let basename := Path.basename_ext originalname ext in
  let sanitizedBasename :=
    Js.of_chars
      (take 50 (map (fun c => if is_safe c then c else "_"%char)
                    (Js.chars basename))) in
  sanitizedBasename ++ "_" ++ pretty timestamp ++ "_" ++ randomString ++ ext.

Section Upload.

Variable cfg : Config.

Definition ensureUploadDir : M unit :=
  try_catch (check_fault OpAccess (uploadDir cfg))
            (fun _ => fs.mkdir (uploadDir cfg)).

Definition fileFilter (file : FilePart) : Res unit :=
  let ext := toLowerCase (Path.extname (originalname file)) in
  if includes ext (blockedExtensions cfg) then
    Throw (ExtensionNotAllowed ext)
  else if negb (includes (mimetype file) (allowedMimeTypes cfg)) then
    Throw (MimeNotAllowed (mimetype file))
  else Ok tt.

(** [upload.single('file')], after multer's disk storage: the filter
    runs before anything is stored; the part is then written under the
    generated name; a part whose length reaches [limits.fileSize] is
    removed again and reported as [LIMIT_FILE_SIZE].  The result is [req.file]. *)
Definition single (part : option FilePart) : M (option UploadedFile) :=
  match part with
  | None => ret None
  | Some file =>
      match fileFilter file with
      | Throw error => throw error
      | Ok _ =>
          ensureUploadDir ;;
          s <- get_st ;;
          let name :=
            generateUniqueFilename (originalname file) (clock (world s))
                                   (randomString file) in
          let finalPath := Path.join (uploadDir cfg) name in
          if byteLength (content file) >=? maxFileSizeBytes cfg then
            throw LimitFileSize
          else
            fs.writeFile finalPath (content file) ;;
            ret (Some {| f_originalname := originalname file;
                         f_mimetype := mimetype file;
                         f_filename := name;
                         f_path := finalPath;
                         f_size := byteLength (content file) |})
      end
  end.

End Upload.

End Multer.

(** ** [POST /api/upload] ([src/routes/fileRoutes.js]) *)

Section Routes.

Variable cfg : Config.
Variable fromBuffer : Blob -> option string.

Definition upload_handler (file : option UploadedFile) : M Response :=
  match file with
  | None => ret NoFileUploaded
  | Some f =>
      metadata <- metadataStore.addFile cfg f ;;
      ret (Created metadata)
  end.

(** The middleware chain of the route; an error handed to [next] ends in
    [errorHandler]. *)
Definition upload (part : option FilePart) : M Response :=
  try_catch
    (file <- Multer.single cfg part ;;
     flow <- checkStorageLimit cfg file ;;
     match flow with
     | Sent r => ret r
     | Next =>
         flow' <- validateFileMimeType cfg fromBuffer file ;;
         match flow' with
         | Sent r => ret r
         | Next => upload_handler file
         end
     end)
    (fun err => ret (errorHandler err)).

End Routes.

(** ** [FileLifecycleService] ([src/services/lifecycleService.js]) *)

Inductive CleanupResult :=
| CleanupSuccess (expiredFiles orphanedMetadata orphanedFiles : Z)
| CleanupFailure (error : Exn).

Module lifecycleService.

Section Service.

Variable cfg : Config.

(** The loop of [cleanupExpiredFiles]. *)
Fixpoint expire_loop (expiredFiles : list FileRecord) (deletedCount : Z) : M Z :=
  match expiredFiles with
  | [] => ret deletedCount
  | file :: rest =>
      deleted <-
        try_catch
          (try_catch (fs.unlink (path file)) (fun _ => ret tt) ;;
           metadataStore.deleteFile (id file) ;;
           ret true)
          (fun _ => ret false) ;;
      expire_loop rest (if deleted : bool then deletedCount + 1 else deletedCount)
  end.

Definition cleanupExpiredFiles : M Z :=
  expiredFiles <- metadataStore.getExpiredFiles ;;
  expire_loop expiredFiles 0.

Definition cleanupOrphanedMetadata : M Z :=
  metadataStore.cleanOrphanedMetadata.

(** The loop of [cleanupOrphanedFiles]. *)
Fixpoint orphan_loop (files : list string) (knownFileIds : gset string)
    (deletedCount : Z) : M Z :=
  match files with
  | [] => ret deletedCount
  | filename :: rest =>
      if String.eqb filename ".gitkeep" || Js.startsWith_dot filename then
        orphan_loop rest knownFileIds deletedCount
      else if negb (bool_decide (filename ∈ knownFileIds)) then
        deleted <-
          try_catch
            (fs.unlink (Path.join (uploadDir cfg) filename) ;; ret true)
            (fun _ => ret false) ;;
        orphan_loop rest knownFileIds
          (if deleted : bool then deletedCount + 1 else deletedCount)
      else orphan_loop rest knownFileIds deletedCount
  end.

Definition cleanupOrphanedFiles : M Z :=
  try_catch
    (files <- fs.readdir (uploadDir cfg) ;;
     allMetadata <- metadataStore.getAllFiles ;;
     let knownFileIds : gset string :=
       list_to_set (map filename allMetadata) in
     orphan_loop files knownFileIds 0)
    (fun _ => ret 0).

Definition runCleanup : M CleanupResult :=
  try_catch
    (metadataStore.initialize ;;
     expiredCount <- cleanupExpiredFiles ;;
     orphanedCount <- cleanupOrphanedMetadata ;;
     orphanedFilesCount <- cleanupOrphanedFiles ;;
     ret (CleanupSuccess expiredCount orphanedCount orphanedFilesCount))
    (fun error => ret (CleanupFailure error)).

End Service.

End lifecycleService.

(** ** Two requests at once

    [addFile] and [deleteFile] run without interruption up to the
    [await fs.writeFile(...)] inside [persist]: the map is changed, the
    snapshot [Array.from(this.metadata.values())] is taken and the write is
    started in one turn of the event loop.  The call then waits for its own
    write.  Nothing orders the writes that different calls have started:
    the store has no lock and no queue, and each write completes when the
    file system is done with it. *)

Module Concurrent.

Inductive Mutation :=
| Put (record : FileRecord)        (* [addFile], from [metadata.set] on *)
| Remove (fileId : string).       (* [deleteFile], from [metadata.get] on *)

Record CState := {
  memory : JsMap.t FileRecord;             (* [this.metadata] *)
  in_flight : list (list FileRecord);      (* writes started, not completed *)
  file : Snapshot;                         (* [metadata/files.json] *)
  returned : nat                           (* calls that have returned *)
}.

Inductive Action :=
| Begin (m : Mutation)    (* a call runs up to its [await] *)
| Land (i : nat).         (* the [i]-th write in flight completes, and the
                             call that waited for it returns *)

Definition begin (m : Mutation) (c : CState) : CState :=
  match m with
  | Put record =>
      let memory' := JsMap.set (id record) record (memory c) in
      {| memory := memory';
         in_flight := in_flight c ++ [JsMap.values memory'];
         file := file c; returned := returned c |}
  | Remove fileId =>
      match JsMap.get fileId (memory c) with
      | None =>
          {| memory := memory c; in_flight := in_flight c;
             file := file c; returned := S (returned c) |}
      | Some _ =>
          let memory' := JsMap.delete fileId (memory c) in
          {| memory := memory';
             in_flight := in_flight c ++ [JsMap.values memory'];
             file := file c; returned := returned c |}
      end
  end.

Definition step (a : Action) (c : CState) : option CState :=
  match a with
  | Begin m => Some (begin m c)
  | Land i =>
      match in_flight c !! i with
      | Some records =>
          Some {| memory := memory c;
                  in_flight := take i (in_flight c) ++ drop (S i) (in_flight c);
                  file := Records records;
                  returned := S (returned c) |}
      | None => None
      end
  end.

Fixpoint run (schedule : list Action) (c : CState) : option CState :=
  match schedule with
  | [] => Some c
  | a :: rest =>
      match step a c with
      | Some c' => run rest c'
      | None => None
      end
  end.

Definition idle (m : JsMap.t FileRecord) : CState :=
  {| memory := m; in_flight := []; file := Records (JsMap.values m);
     returned := 0 |}.

End Concurrent.

(** ** States and records named in the properties *)

(** The state a successful [addFile] leaves behind. *)
Definition added (record : FileRecord) (s : St) : St :=
  let m := JsMap.set (id record) record (metadata (store s)) in
  st_snapshot (Records (JsMap.values m))
    (st_log (EvWriteSnapshot (JsMap.values m))
       (st_metadata m (st_log (EvMapSet (id record)) s))).

Definition record_of (cfg : Config) (fileData : UploadedFile) (now : Z) : FileRecord :=
  {| id := f_filename fileData;
     originalName := f_originalname fileData;
     filename := f_filename fileData;
     mimeType := f_mimetype fileData;
     size := f_size fileData;
     path := f_path fileData;
     uploadedAt := now;
     expiresAt := now + fileRetentionMs cfg |}.

(** ** Concrete inputs used to run the embedding *)

Module Fixtures.

(** A content sniffer that knows three signatures: PNG, PDF and the [MZ]
    header of Windows executables. *)
Definition signature (b : Blob) : option string :=
  match b with
  | Byte.x89 :: Byte.x50 :: Byte.x4e :: Byte.x47 :: _ => Some "image/png"
  | Byte.x25 :: Byte.x50 :: Byte.x44 :: Byte.x46 :: _ => Some "application/pdf"
  | Byte.x4d :: Byte.x5a :: _ => Some "application/x-msdownload"
  | _ => None
  end.

Definition no_fault : FsOp -> string -> option ErrCode := fun _ _ => None.

(** The snapshot file cannot be written. *)
Definition snapshot_readonly : FsOp -> string -> option ErrCode :=
  fun op p =>
    match op with
    | OpWriteFile => if String.eqb p METADATA_FILE then Some EACCES else None
    | _ => None
    end.

Definition state (m : JsMap.t FileRecord) (d : gmap string Blob)
    (now : Z) (flt : FsOp -> string -> option ErrCode) : St :=
  {| store := {| metadata := m; initialized := true |};
     world := {| disk := d; snapshot := Records (JsMap.values m);
                 clock := now; fault := flt |};
     trace := [] |}.

Definition noon : Z := 1700000000000.

Definition fresh : St := state JsMap.empty ∅ noon no_fault.

Definition fresh_readonly : St := state JsMap.empty ∅ noon snapshot_readonly.

Definition notes : FilePart := {|
  originalname := "notes.txt";
  mimetype := "text/plain";
  content := list_byte_of_string "hello";
  randomString := "00ff00ff00ff00ff"
|}.

Definition notes_name : string := "notes_1700000000000_00ff00ff00ff00ff.txt".

Definition notes_file : UploadedFile := {|
  f_originalname := "notes.txt";
  f_mimetype := "text/plain";
  f_filename := notes_name;
  f_path := Path.join "uploads" notes_name;
  f_size := 5
|}.

Definition notes_record : FileRecord := {|
  id := notes_name;
  originalName := "notes.txt";
  filename := notes_name;
  mimeType := "text/plain";
  size := 5;
  path := Path.join "uploads" notes_name;
  uploadedAt := noon;
  expiresAt := noon + 86400000
|}.

Definition memo_name : string := "memo_1700000000000_ffffffffffffffff.txt".

Definition memo_record : FileRecord := {|
  id := memo_name;
  originalName := "memo.txt";
  filename := memo_name;
  mimeType := "text/plain";
  size := 7;
  path := Path.join "uploads" memo_name;
  uploadedAt := noon;
  expiresAt := noon + 86400000
|}.

(** A Windows executable renamed to [.txt] and declared as plain text. *)
Definition disguised : FilePart := {|
  originalname := "setup.txt";
  mimetype := "text/plain";
  content := [Byte.x4d; Byte.x5a; Byte.x90; Byte.x00];
  randomString := "0123456789abcdef"
|}.

(** The default configuration with an aggregate quota of five bytes. *)
Definition five_bytes : Config := {|
  maxFileSizeBytes := maxFileSizeBytes default_config;
  uploadDir := uploadDir default_config;
  maxStorageBytes := 5;
  fileRetentionMs := fileRetentionMs default_config;
  allowedMimeTypes := allowedMimeTypes default_config;
  blockedExtensions := blockedExtensions default_config
|}.

Definition one_byte : FilePart := {|
  originalname := "x.txt";
  mimetype := "text/plain";
  content := list_byte_of_string "x";
  randomString := "1111111111111111"
|}.

Definition stray_path : string := Path.join "uploads" "stray.bin".

(** The store holds the record of [notes], whose file is gone from the
    disk, and the upload directory holds a file no record knows. *)
Definition diverged (flt : FsOp -> string -> option ErrCode) : St :=
  state [(notes_name, notes_record)] {[ stray_path := [Byte.x00] ]} noon flt.

(** An upload directory that holds nothing but a [.gitkeep]. *)
Definition gitkeep_path : string := Path.join "uploads" ".gitkeep".

Definition kept : St := state JsMap.empty {[ gitkeep_path := [] ]} noon no_fault.

(** The record of [notes] has expired; its file is gone already. *)
Definition overdue : St :=
  state [(notes_name, notes_record)] ∅ (noon + 2 * 86400000) no_fault.

(** The record of an upload whose original name was [a.not allowed]. *)
Definition oddly_named : FileRecord := {|
  id := "a_1700000000000_00ff00ff00ff00ff.not allowed";
  originalName := "a.not allowed";
  filename := "a_1700000000000_00ff00ff00ff00ff.not allowed";
  mimeType := "text/plain";
  size := 5;
  path := Path.join "uploads" "a_1700000000000_00ff00ff00ff00ff.not allowed";
  uploadedAt := noon;
  expiresAt := noon + 86400000
|}.

(** The three characters dot, backslash, dot. *)
Definition dot_backslash_dot : string :=
  String Js.dot (String Js.backslash (String Js.dot EmptyString)).

End Fixtures.

(** No operation of the file system is made to fail. *)
Definition no_faults (s : St) : Prop :=
  forall op p, fault (world s) op p = None.

(** [req.file] for a part stored at time [now]. *)
Definition stored_file (cfg : Config) (part : FilePart) (now : Z) : UploadedFile :=
  let name :=
    Multer.generateUniqueFilename (originalname part) now (randomString part) in
  {| f_originalname := originalname part;
     f_mimetype := mimetype part;
     f_filename := name;
     f_path := Path.join (uploadDir cfg) name;
     f_size := byteLength (content part) |}.

(** The state after multer has written the part to the upload directory. *)
Definition stored (cfg : Config) (part : FilePart) (s : St) : St :=
  let p := f_path (stored_file cfg part (clock (world s))) in
  st_disk (<[p := content part]> (disk (world s))) (st_log (EvWriteFile p) s).

(** The bytes currently accounted for by the store. *)
Definition currentUsage (s : St) : Z :=
  metadataStore.total_size (JsMap.values (metadata (store s))).


(** In the trace [t], every removal of a key from the in-memory map comes
    after an [unlink] of the path of a record of [records] with that id. *)
Definition unlink_precedes_delete (records : list FileRecord) (t : list Event) : Prop :=
  forall (pre : list Event) k post,
    t = (pre ++ EvMapDelete k :: post)%list ->
    exists r, r ∈ records /\ id r = k /\ EvUnlink (path r) ∈ pre.


(** The entries [fs.readdir dir] lists in state [s]. *)
Definition listing (dir : string) (s : St) : list string :=
  omap (fs.entry_name dir) (elements (dom (disk (world s)))).

(** The number of regular files on the disk. *)
Definition file_count (s : St) : Z := Z.of_nat (base.size (disk (world s))).


(** What [orphan_loop] removes: a name that is not hidden, that no record
    knows, and whose [unlink] is not made to fail. *)
Definition removable (cfg : Config) (known : gset string) (s : St) (name : string) : Prop :=
  Js.startsWith_dot name = false
  /\ (name ∉ known)
  /\ fault (world s) OpUnlink (Path.join (uploadDir cfg) name) = None.

(** ** The other routes of [src/routes/fileRoutes.js] *)

(** What the routes show of a record: every field but [path].  The
    formatted size ([toFixed]) is left out. *)
Record FileView := {
  v_fileId : string;
  v_originalName : string;
  v_filename : string;
  v_size : Z;
  v_mimeType : string;
  v_uploadedAt : Z;
  v_expiresAt : Z
}.

Definition view (file : FileRecord) : FileView :=
  {| v_fileId := id file;
     v_originalName := originalName file;
     v_filename := filename file;
     v_size := size file;
     v_mimeType := mimeType file;
     v_uploadedAt := uploadedAt file;
     v_expiresAt := expiresAt file |}.

Inductive Reply :=
| Answer (r : Response)                       (* an answer the upload route has too *)
| FileNotOnDisk (cleaned : bool)              (* 404; [cleaned]: with the details line *)
| FileInfo (data : FileView)                  (* 200 *)
| FileDeleted (fileId originalName : string)  (* 200 *)
| Download (contentType name : string) (contentLength : Z) (body : Blob)  (* 200 *)
| FileList (files : list FileView) (totalFiles totalStorage : Z).          (* 200 *)

(** [files.sort((a, b) => new Date(b.uploadedAt) - new Date(a.uploadedAt))]:
    the stable sort, newest first. *)
Fixpoint insert_newest_first (x : FileRecord) (l : list FileRecord) : list FileRecord :=
  match l with
  | [] => [x]
  | y :: r =>
      if uploadedAt y <=? uploadedAt x then x :: y :: r
      else y :: insert_newest_first x r
  end.

Fixpoint sort_newest_first (l : list FileRecord) : list FileRecord :=
  match l with
  | [] => []
  | x :: r => insert_newest_first x (sort_newest_first r)
  end.

Module routes.

(** [GET /api/files] *)
Definition list_files : M Reply :=
  try_catch
    (files <- metadataStore.getAllFiles ;;
     totalStorage <- metadataStore.getTotalStorageUsed ;;
     let sorted := sort_newest_first files in
     ret (FileList (map view sorted) (Z.of_nat (length sorted)) totalStorage))
    (fun error => ret (Answer (errorHandler error))).

(** [GET /api/files/:fileId] *)
Definition get_file (fileId : string) : M Reply :=
  match validateFileId fileId with
  | inl r => ret (Answer r)
  | inr fileId =>
      try_catch
        (file <- metadataStore.getFile fileId ;;
         match file with
         | None => ret (Answer FileNotFound)
         | Some file =>
             present <- try_catch (fs.access (path file) ;; ret true)
                                  (fun _ => ret false) ;;
             if present : bool then ret (FileInfo (view file))
             else
               metadataStore.deleteFile fileId ;;
               ret (FileNotOnDisk true)
         end)
        (fun error => ret (Answer (errorHandler error)))
  end.

(** [GET /api/download/:fileId]; the stream piped into the response is the
    content of the file, a stream error goes to [errorHandler]. *)
Definition download (fileId : string) : M Reply :=
  match validateFileId fileId with
  | inl r => ret (Answer r)
  | inr fileId =>
      try_catch
        (file <- metadataStore.getFile fileId ;;
         match file with
         | None => ret (Answer FileNotFound)
         | Some file =>
             present <- try_catch (fs.access (path file) ;; ret true)
                                  (fun _ => ret false) ;;
             if present : bool then
               body <- fs.readFile (path file) ;;
               ret (Download (mimeType file) (originalName file) (size file) body)
             else
               metadataStore.deleteFile fileId ;;
               ret (FileNotOnDisk false)
         end)
        (fun error => ret (Answer (errorHandler error)))
  end.

(** [DELETE /api/files/:fileId] *)
Definition delete_file (fileId : string) : M Reply :=
  match validateFileId fileId with
  | inl r => ret (Answer r)
  | inr fileId =>
      try_catch
        (file <- metadataStore.getFile fileId ;;
         match file with
         | None => ret (Answer FileNotFound)
         | Some file =>
             try_catch (fs.unlink (path file))
                       (fun error =>
                          match error with
                          | FsError ENOENT _ _ => ret tt
                          | _ => throw error
                          end) ;;
             metadataStore.deleteFile fileId ;;
             ret (FileDeleted (id file) (originalName file))
         end)
        (fun error => ret (Answer (errorHandler error)))
  end.

End routes.

(** ** The invariant of the store *)

(** Every key of the map is the id of its record, and no key occurs twice. *)
Definition well_keyed (m : JsMap.t FileRecord) : Prop :=
  NoDup (map fst m) /\ forall k r, (k, r) ∈ m -> k = id r.

(** A process that has just started: nothing loaded yet. *)
Definition restarted (w : World) : St :=
  {| store := {| metadata := JsMap.empty; initialized := false |};
     world := w; trace := [] |}.

(** [access] on [p] succeeds in [s]. *)
Definition accessible (s : St) (p : string) : bool :=
  match fault (world s) OpAccess p, disk (world s) !! p with
  | None, Some _ => true
  | _, _ => false
  end.


(** The same state at another time. *)
Definition at_time (t : Z) (s : St) : St :=
  {| store := store s;
     world := {| disk := disk (world s); snapshot := snapshot (world s);
                 clock := t; fault := fault (world s) |};
     trace := trace s |}.


(** Every character of [s] satisfies [p]. *)
Definition all_chars (p : ascii -> bool) (s : string) : bool :=
  forallb p (Js.chars s).

(** A lower-case hexadecimal digit, as [toString('hex')] produces them. *)
Definition is_hex (c : ascii) : bool :=
  let n := nat_of_ascii c in
  (((48 <=? n) && (n <=? 57)) || ((97 <=? n) && (n <=? 102)))%nat.

(** A decimal digit or the minus sign. *)
Definition is_digit_or_dash (c : ascii) : bool :=
  let n := nat_of_ascii c in (((48 <=? n) && (n <=? 57)) || (n =? 45))%nat.

(** Neither a slash, nor a backslash, nor a dot. *)
Definition is_plain (c : ascii) : bool :=
  negb (Js.is_char Js.slash c) && negb (Js.is_char Js.backslash c)
  && negb (Js.is_char Js.dot c).


(** * Properties *)

(** ** The monad *)

Lemma bind_ok {A B} (m : M A) (k : A -> M B) s a s' :
  m s = (Ok a, s') -> bind m k s = k a s'.
Proof. intros H. unfold bind. by rewrite H. Qed.

Lemma bind_throw {A B} (m : M A) (k : A -> M B) s e s' :
  m s = (Throw e, s') -> bind m k s = (Throw e, s').
Proof. intros H. unfold bind. by rewrite H. Qed.

Lemma try_catch_ok {A} (m : M A) h s a s' :
  m s = (Ok a, s') -> try_catch m h s = (Ok a, s').
Proof. intros H. unfold try_catch. by rewrite H. Qed.

Lemma try_catch_throw {A} (m : M A) h s e s' :
  m s = (Throw e, s') -> try_catch m h s = h e s'.
Proof. intros H. unfold try_catch. by rewrite H. Qed.

(** ** [JsMap] *)

Lemma JsMap_get_set_eq {V} k (v : V) m : JsMap.get k (JsMap.set k v m) = Some v.
Proof.
  induction m as [|[k' v'] m IH]; simpl.
  - by rewrite String.eqb_refl.
  - destruct (String.eqb k k') eqn:E; simpl; rewrite ?String.eqb_refl, ?E; done.
Qed.

Lemma JsMap_get_set_ne {V} k k' (v : V) m :
  k <> k' -> JsMap.get k' (JsMap.set k v m) = JsMap.get k' m.
Proof.
  intros Hne. induction m as [|[k0 v0] m IH]; simpl.
  - destruct (String.eqb_spec k' k); congruence.
  - destruct (String.eqb_spec k k0) as [->|]; simpl.
    + destruct (String.eqb_spec k' k0); congruence.
    + by rewrite IH.
Qed.

Lemma JsMap_get_delete_eq {V} k (m : JsMap.t V) : JsMap.get k (JsMap.delete k m) = None.
Proof.
  induction m as [|[k' v'] m IH]; simpl; [done|].
  destruct (String.eqb k k') eqn:E; simpl; rewrite ?E; done.
Qed.

(** ** Sanitizing file names *)

Lemma replace_separators_clean s c :
  Js.is_separator c = true -> Js.includes_char c (Js.replace_separators s) = false.
Proof.
  intros Hc. induction s as [|a s IH]; simpl; [done|].
  destruct (Js.is_separator a) eqn:Ea; simpl; [done|].
  rewrite IH, orb_false_r. unfold Js.is_char.
  destruct (Ascii.eqb_spec c a) as [->|]; congruence.
Qed.

(** What [sanitizeFilename] does guarantee: a non-empty result without any
    slash or backslash. *)
Lemma sanitizeFilename_no_separator filename sanitized :
  sanitizeFilename filename = Ok sanitized ->
  sanitized <> EmptyString
  /\ Js.includes_char Js.slash sanitized = false
  /\ Js.includes_char Js.backslash sanitized = false.
Proof.
  unfold sanitizeFilename.
  destruct (Js.replace_separators _) eqn:E; [done|].
  intros [= <-]. rewrite <- E. split; [by rewrite E|].
  split; apply replace_separators_clean; reflexivity.
Qed.

(** C10. [sanitizeFilename] does not keep its promise on the parent-directory
    reference: for the input dot-backslash-dot the POSIX [basename] keeps all
    three characters, the first replacement finds no two adjacent dots, and
    the second one removes the backslash between them, so the function
    returns [".."], and [validateFileId] hands [".."] to the route handlers. *)
Theorem sanitizeFilename_returns_dotdot :
  sanitizeFilename Fixtures.dot_backslash_dot = Ok ".."
  /\ Js.includes_dotdot ".." = true
  /\ validateFileId Fixtures.dot_backslash_dot = inr "..".
Proof. repeat split. Qed.

(** ** The metadata store *)

(** C2, counterexample. With an empty initialized store and a snapshot file
    that cannot be written, [addFile] fails with the persistence error and
    the in-memory map is not what it was before the call. *)
Lemma addFile_not_rolled_back :
  let s := Fixtures.fresh_readonly in
  let out := metadataStore.addFile default_config Fixtures.notes_file s in
  out.1 = Throw (PersistFailed (FsError EACCES OpWriteFile METADATA_FILE))
  /\ metadata (store out.2) <> metadata (store s).
Proof. split; [reflexivity | discriminate]. Qed.

(** C2, amended. When the snapshot write fails, [addFile] fails with the
    persistence error and the in-memory map keeps the new record: nothing is
    rolled back. *)
Theorem addFile_persist_failure cfg fileData s c :
  initialized (store s) = true ->
  fault (world s) OpWriteFile METADATA_FILE = Some c ->
  let out := metadataStore.addFile cfg fileData s in
  let record := {|
    id := f_filename fileData;
    originalName := f_originalname fileData;
    filename := f_filename fileData;
    mimeType := f_mimetype fileData;
    size := f_size fileData;
    path := f_path fileData;
    uploadedAt := clock (world s);
    expiresAt := clock (world s) + fileRetentionMs cfg |} in
  out.1 = Throw (PersistFailed (FsError c OpWriteFile METADATA_FILE))
  /\ metadata (store out.2) = JsMap.set (f_filename fileData) record (metadata (store s))
  /\ JsMap.get (f_filename fileData) (metadata (store out.2)) = Some record.
Proof.
  intros Hinit Hfault.
  unfold metadataStore.addFile, metadataStore.ensure_initialized,
    metadataStore.map_set, metadataStore.persist, fs.writeSnapshot,
    bind, try_catch, get_st, log, set_metadata, set_snapshot, ret, throw.
  simpl. rewrite Hinit. simpl. rewrite Hfault.
  destruct (fails_on_open c); simpl; repeat split; apply JsMap_get_set_eq.
Qed.

Lemma addFile_persist_failure_witness :
  let out := metadataStore.addFile default_config Fixtures.notes_file
               Fixtures.fresh_readonly in
  out.1 = Throw (PersistFailed (FsError EACCES OpWriteFile METADATA_FILE))
  /\ JsMap.get Fixtures.notes_name (metadata (store out.2)) = Some Fixtures.notes_record.
Proof.
  pose proof (addFile_persist_failure default_config Fixtures.notes_file
                Fixtures.fresh_readonly EACCES eq_refl eq_refl) as H.
  simpl in H. destruct H as (H1 & _ & H3). split; [exact H1 | exact H3].
Defined.

(** ** File-system primitives *)

Ltac unfold_m :=
  unfold bind, try_catch, ret, throw, get_st, log, set_disk, set_snapshot,
    set_metadata, set_initialized.

Tactic Notation "simpl_st" :=
  cbn [st_log st_disk st_snapshot st_metadata st_initialized
       world store trace disk snapshot clock fault metadata initialized
       fst snd].

Tactic Notation "simpl_st" "in" hyp(H) :=
  cbn [st_log st_disk st_snapshot st_metadata st_initialized
       world store trace disk snapshot clock fault metadata initialized
       fst snd] in H.

Lemma check_fault_none op p s :
  fault (world s) op p = None -> check_fault op p s = (Ok tt, s).
Proof. intros H. unfold check_fault. unfold_m. by rewrite H. Qed.

Lemma check_fault_some op p s c :
  fault (world s) op p = Some c -> check_fault op p s = (Throw (FsError c op p), s).
Proof. intros H. unfold check_fault. unfold_m. by rewrite H. Qed.

Lemma unlink_ok p s b :
  fault (world s) OpUnlink p = None ->
  disk (world s) !! p = Some b ->
  fs.unlink p s =
    (Ok tt, st_disk (delete p (disk (world s))) (st_log (EvUnlink p) s)).
Proof.
  intros Hf Hd. unfold fs.unlink, check_fault. unfold_m. simpl_st.
  rewrite Hf. simpl_st. by rewrite Hd.
Qed.

Lemma unlink_enoent p s :
  fault (world s) OpUnlink p = None ->
  disk (world s) !! p = None ->
  fs.unlink p s = (Throw (FsError ENOENT OpUnlink p), st_log (EvUnlink p) s).
Proof.
  intros Hf Hd. unfold fs.unlink, check_fault. unfold_m. simpl_st.
  rewrite Hf. simpl_st. by rewrite Hd.
Qed.

Lemma unlink_fault p s c :
  fault (world s) OpUnlink p = Some c ->
  fs.unlink p s = (Throw (FsError c OpUnlink p), st_log (EvUnlink p) s).
Proof.
  intros Hf. unfold fs.unlink, check_fault. unfold_m. simpl. by rewrite Hf.
Qed.

Lemma readFile_ok p s b :
  fault (world s) OpReadFile p = None ->
  disk (world s) !! p = Some b ->
  fs.readFile p s = (Ok b, s).
Proof.
  intros Hf Hd. unfold fs.readFile, check_fault. unfold_m. rewrite Hf. simpl_st. by rewrite Hd.
Qed.

Lemma writeFile_ok p b s :
  fault (world s) OpWriteFile p = None ->
  fs.writeFile p b s =
    (Ok tt, st_disk (<[p := b]> (disk (world s))) (st_log (EvWriteFile p) s)).
Proof.
  intros Hf. unfold fs.writeFile, check_fault. unfold_m. simpl. by rewrite Hf.
Qed.

Lemma ensure_initialized_done s :
  initialized (store s) = true -> metadataStore.ensure_initialized s = (Ok tt, s).
Proof.
  intros H. unfold metadataStore.ensure_initialized. unfold_m. by rewrite H.
Qed.

Lemma getTotalStorageUsed_ok s :
  initialized (store s) = true ->
  metadataStore.getTotalStorageUsed s =
    (Ok (metadataStore.total_size (JsMap.values (metadata (store s)))), s).
Proof.
  intros H. unfold metadataStore.getTotalStorageUsed.
  rewrite (bind_ok _ _ _ _ _ (ensure_initialized_done s H)). reflexivity.
Qed.

Lemma addFile_ok cfg fileData s :
  initialized (store s) = true ->
  fault (world s) OpWriteFile METADATA_FILE = None ->
  metadataStore.addFile cfg fileData s =
    (Ok (record_of cfg fileData (clock (world s))),
     added (record_of cfg fileData (clock (world s))) s).
Proof.
  intros Hinit Hfault.
  unfold metadataStore.addFile, metadataStore.ensure_initialized,
    metadataStore.map_set, metadataStore.persist, fs.writeSnapshot,
    check_fault. unfold_m.
  simpl_st. rewrite Hinit. simpl_st. rewrite Hfault. reflexivity.
Qed.

(** ** The content-sniffing gate *)

(** C3, counterexample. An executable declared as [text/plain], which is on
    the allow-list: its sniffed type is determinable and not on the
    allow-list, and the upload is answered with the mismatch error, which is
    not [TypeNotAllowed]. *)
Lemma unlisted_content_reports_mismatch :
  let part := Fixtures.disguised in
  let out := upload default_config Fixtures.signature (Some part) Fixtures.fresh in
  Fixtures.signature (content part) = Some "application/x-msdownload"
  /\ includes "application/x-msdownload" (allowedMimeTypes default_config) = false
  /\ includes (mimetype part) (allowedMimeTypes default_config) = true
  /\ out.1 = Ok (MimeMismatch "text/plain" "application/x-msdownload")
  /\ ingest_error (MimeMismatch "text/plain" "application/x-msdownload")
     <> Some TypeNotAllowed.
Proof. repeat split; try reflexivity. discriminate. Qed.

(** C3, amended. A stored upload whose sniffed type is determinable and not
    on the allow-list is rejected by [validateFileMimeType] and its file is
    removed; the error is the mismatch error whenever the declared type
    differs from the sniffed one, hence whenever the declared type is on the
    allow-list, and the not-allowed error only when the two are equal. *)
Theorem validateFileMimeType_unlisted_content cfg fromBuffer f s b mime :
  disk (world s) !! f_path f = Some b ->
  fault (world s) OpReadFile (f_path f) = None ->
  fault (world s) OpUnlink (f_path f) = None ->
  fromBuffer b = Some mime ->
  includes mime (allowedMimeTypes cfg) = false ->
  let out := validateFileMimeType cfg fromBuffer (Some f) s in
  out.1 = Ok (Sent (if String.eqb mime (f_mimetype f)
                    then ActualTypeNotAllowed mime
                    else MimeMismatch (f_mimetype f) mime))
  /\ disk (world out.2) !! f_path f = None
  /\ (includes (f_mimetype f) (allowedMimeTypes cfg) = true ->
      out.1 = Ok (Sent (MimeMismatch (f_mimetype f) mime))
      /\ ingest_error (MimeMismatch (f_mimetype f) mime) = Some TypeMismatch).
Proof.
  intros Hd Hr Hu Hsniff Hnot. cbv zeta.
  unfold validateFileMimeType, try_catch.
  rewrite (bind_ok _ _ _ _ _ (readFile_ok _ _ _ Hr Hd)), Hsniff.
  destruct (String.eqb_spec mime (f_mimetype f)) as [Heq|Hne]; cbn [negb].
  - rewrite Hnot. cbn [negb].
    rewrite (bind_ok _ _ _ _ _ (unlink_ok _ _ _ Hu Hd)).
    unfold ret. simpl_st. split; [done|]. split; [apply lookup_delete_eq|].
    intros Hallowed. rewrite <- Heq in Hallowed. congruence.
  - rewrite (bind_ok _ _ _ _ _ (unlink_ok _ _ _ Hu Hd)).
    unfold ret. simpl_st. split; [done|]. split; [apply lookup_delete_eq|].
    done.
Qed.

Lemma validateFileMimeType_unlisted_content_witness :
  let f := Fixtures.notes_file in
  let s := Fixtures.state JsMap.empty
             {[ f_path f := content Fixtures.disguised ]}
             Fixtures.noon Fixtures.no_fault in
  (validateFileMimeType default_config Fixtures.signature (Some f) s).1
  = Ok (Sent (MimeMismatch "text/plain" "application/x-msdownload")).
Proof.
  exact (proj1 (validateFileMimeType_unlisted_content default_config
                  Fixtures.signature Fixtures.notes_file
                  (Fixtures.state JsMap.empty
                     {[ f_path Fixtures.notes_file := content Fixtures.disguised ]}
                     Fixtures.noon Fixtures.no_fault)
                  (content Fixtures.disguised) "application/x-msdownload"
                  eq_refl eq_refl eq_refl eq_refl eq_refl)).
Defined.

(** ** The upload route, gate by gate *)

Lemma single_stored cfg part s :
  no_faults s ->
  Multer.fileFilter cfg part = Ok tt ->
  byteLength (content part) < maxFileSizeBytes cfg ->
  Multer.single cfg (Some part) s =
    (Ok (Some (stored_file cfg part (clock (world s)))), stored cfg part s).
Proof.
  intros Hnf Hfilter Hsize. unfold Multer.single. rewrite Hfilter.
  unfold Multer.ensureUploadDir, try_catch at 1.
  rewrite (bind_ok _ _ s tt s) by (by rewrite check_fault_none).
  unfold bind at 1, get_st at 1.
  destruct (Z.geb_spec (byteLength (content part)) (maxFileSizeBytes cfg)); [lia|].
  rewrite (bind_ok _ _ _ _ _ (writeFile_ok _ _ _ (Hnf _ _))). reflexivity.
Qed.

Lemma checkStorageLimit_within cfg file s :
  initialized (store s) = true ->
  currentUsage s + match file with Some f => f_size f | None => 0 end
    <= maxStorageBytes cfg ->
  checkStorageLimit cfg file s = (Ok Next, s).
Proof.
  intros Hinit Hle. unfold checkStorageLimit, try_catch.
  rewrite (bind_ok _ _ _ _ _ (getTotalStorageUsed_ok s Hinit)).
  fold (currentUsage s).
  destruct (Z.gtb_spec (currentUsage s
              + match file with Some f => f_size f | None => 0 end)
              (maxStorageBytes cfg)); [lia|reflexivity].
Qed.

Lemma checkStorageLimit_exceeded cfg f s b :
  initialized (store s) = true ->
  fault (world s) OpUnlink (f_path f) = None ->
  disk (world s) !! f_path f = Some b ->
  currentUsage s + f_size f > maxStorageBytes cfg ->
  checkStorageLimit cfg (Some f) s =
    (Ok (Sent (StorageLimitExceeded (currentUsage s) (f_size f))),
     st_disk (delete (f_path f) (disk (world s))) (st_log (EvUnlink (f_path f)) s)).
Proof.
  intros Hinit Hu Hd Hgt. unfold checkStorageLimit, try_catch.
  rewrite (bind_ok _ _ _ _ _ (getTotalStorageUsed_ok s Hinit)).
  fold (currentUsage s).
  destruct (Z.gtb_spec (currentUsage s + f_size f) (maxStorageBytes cfg)); [|lia].
  rewrite (bind_ok _ _ _ _ _ (unlink_ok _ _ _ Hu Hd)). reflexivity.
Qed.

Lemma validateFileMimeType_passes cfg fromBuffer f s b :
  fault (world s) OpReadFile (f_path f) = None ->
  disk (world s) !! f_path f = Some b ->
  fromBuffer b = None
  \/ (fromBuffer b = Some (f_mimetype f)
      /\ includes (f_mimetype f) (allowedMimeTypes cfg) = true) ->
  validateFileMimeType cfg fromBuffer (Some f) s = (Ok Next, s).
Proof.
  intros Hr Hd Hsniff. unfold validateFileMimeType, try_catch.
  rewrite (bind_ok _ _ _ _ _ (readFile_ok _ _ _ Hr Hd)).
  destruct Hsniff as [->|[-> Hallowed]]; [reflexivity|].
  by rewrite String.eqb_refl, Hallowed.
Qed.

Lemma fileFilter_allowed cfg part :
  Multer.fileFilter cfg part = Ok tt ->
  includes (mimetype part) (allowedMimeTypes cfg) = true.
Proof.
  unfold Multer.fileFilter.
  destruct (includes (Multer.toLowerCase _) _); [done|].
  by destruct (includes (mimetype part) _).
Qed.

(** An upload that passes every gate. *)
Lemma upload_admitted cfg fromBuffer part s :
  initialized (store s) = true ->
  no_faults s ->
  Multer.fileFilter cfg part = Ok tt ->
  byteLength (content part) < maxFileSizeBytes cfg ->
  fromBuffer (content part) = None
    \/ fromBuffer (content part) = Some (mimetype part) ->
  currentUsage s + byteLength (content part) <= maxStorageBytes cfg ->
  let f := stored_file cfg part (clock (world s)) in
  let record := record_of cfg f (clock (world s)) in
  upload cfg fromBuffer (Some part) s =
    (Ok (Created record), added record (stored cfg part s)).
Proof.
  intros Hinit Hnf Hfilter Hsize Hsniff Hquota. cbv zeta.
  unfold upload, try_catch.
  rewrite (bind_ok _ _ _ _ _ (single_stored _ _ _ Hnf Hfilter Hsize)).
  rewrite (bind_ok _ _ _ Next (stored cfg part s)).
  2:{ apply checkStorageLimit_within; [exact Hinit | exact Hquota]. }
  rewrite (bind_ok _ _ _ Next (stored cfg part s)).
  2:{ apply validateFileMimeType_passes with (b := content part).
      - apply Hnf.
      - unfold stored. simpl_st. apply lookup_insert_eq.
      - destruct Hsniff as [H|H]; [by left|right]. split; [exact H|].
        by apply fileFilter_allowed. }
  unfold upload_handler.
  rewrite (bind_ok _ _ _ _ _ (addFile_ok cfg _ (stored cfg part s) Hinit (Hnf _ _))).
  reflexivity.
Qed.

(** An upload that passes the filter and is stopped by the quota. *)
Lemma upload_over_quota cfg fromBuffer part s :
  initialized (store s) = true ->
  no_faults s ->
  Multer.fileFilter cfg part = Ok tt ->
  byteLength (content part) < maxFileSizeBytes cfg ->
  currentUsage s + byteLength (content part) > maxStorageBytes cfg ->
  let out := upload cfg fromBuffer (Some part) s in
  out.1 = Ok (StorageLimitExceeded (currentUsage s) (byteLength (content part)))
  /\ disk (world out.2) !! f_path (stored_file cfg part (clock (world s))) = None
  /\ store out.2 = store s.
Proof.
  intros Hinit Hnf Hfilter Hsize Hquota. cbv zeta.
  unfold upload, try_catch.
  rewrite (bind_ok _ _ _ _ _ (single_stored _ _ _ Hnf Hfilter Hsize)).
  erewrite bind_ok.
  2:{ apply checkStorageLimit_exceeded with (b := content part).
      - exact Hinit.
      - apply Hnf.
      - unfold stored. simpl_st. apply lookup_insert_eq.
      - exact Hquota. }
  unfold ret. cbn [fst snd]. split; [reflexivity|]. split; [|reflexivity].
  simpl_st. apply lookup_delete_eq.
Qed.

(** Inversion of a monadic step in a hypothesis. *)
Ltac bind_inv H a s E :=
  unfold bind at 1 in H;
  match type of H with
  | context [match ?m ?s0 with _ => _ end] =>
      destruct (m s0) as [[a|?] s] eqn:E; [|discriminate H]
  end.

Lemma errorHandler_not_created err record : errorHandler err <> Created record.
Proof.
  unfold errorHandler.
  destruct err; try discriminate;
    destruct (Js.includes_string _ _); try discriminate;
    cbn [fs_code]; try discriminate.
  by destruct code.
Qed.

Lemma ensureUploadDir_state cfg s r s' :
  Multer.ensureUploadDir cfg s = (r, s') -> s' = s.
Proof.
  unfold Multer.ensureUploadDir, try_catch, fs.mkdir, check_fault. unfold_m.
  destruct (fault (world s) OpAccess _); [|by intros [= _ <-]].
  destruct (fault (world s) OpMkdir _); by intros [= _ <-].
Qed.

Lemma single_inv cfg part s file s' :
  Multer.single cfg (Some part) s = (Ok file, s') ->
  Multer.fileFilter cfg part = Ok tt
  /\ file = Some (stored_file cfg part (clock (world s))).
Proof.
  unfold Multer.single.
  destruct (Multer.fileFilter cfg part) as [[]|e]; [|discriminate].
  intros H. bind_inv H u s1 E1.
  apply ensureUploadDir_state in E1 as ->.
  unfold bind at 1, get_st at 1 in H.
  destruct (_ >=? _); [discriminate|].
  bind_inv H u' s2 E2. injection H as <- <-. done.
Qed.

Lemma checkStorageLimit_not_created cfg file s r s' record :
  checkStorageLimit cfg file s = (Ok (Sent r), s') -> r <> Created record.
Proof.
  unfold checkStorageLimit, try_catch.
  destruct (bind metadataStore.getTotalStorageUsed _ s) as [[fl|e] s1] eqn:E.
  - intros [= -> ->]. bind_inv E t s2 E2.
    destruct (_ >? _); [|discriminate].
    bind_inv E u s3 E3. injection E as <- _. discriminate.
  - intros [= <- _]. discriminate.
Qed.

Lemma validateFileMimeType_not_created cfg fromBuffer file s r s' record :
  validateFileMimeType cfg fromBuffer file s = (Ok (Sent r), s') ->
  r <> Created record.
Proof.
  unfold validateFileMimeType. destruct file as [f|]; [|discriminate].
  unfold try_catch.
  destruct (bind (fs.readFile (f_path f)) _ s) as [[fl|e] s1] eqn:E.
  - intros [= -> ->]. bind_inv E buf s2 E2.
    destruct (fromBuffer buf) as [mime|]; [|discriminate].
    destruct (negb (String.eqb mime (f_mimetype f))).
    + bind_inv E u s3 E3. injection E as <- _. discriminate.
    + destruct (negb (includes mime _)); [|discriminate].
      bind_inv E u s3 E3. injection E as <- _. discriminate.
  - unfold bind, ret. cbn beta.
    destruct (fs.unlink (f_path f) s1) as [[[]|?] ?]; intros [= <- _]; discriminate.
Qed.

Lemma addFile_inv cfg fileData s record s' :
  metadataStore.addFile cfg fileData s = (Ok record, s') ->
  mimeType record = f_mimetype fileData /\ size record = f_size fileData.
Proof.
  unfold metadataStore.addFile. intros H.
  bind_inv H u s1 E1. unfold bind at 1, get_st at 1 in H.
  bind_inv H u2 s2 E2. bind_inv H u3 s3 E3.
  injection H as <- _. done.
Qed.

(** Whatever else happens, a created record comes from a part that passed
    [fileFilter], and carries the declared type of that part. *)
Lemma upload_created_inv cfg fromBuffer part s record s' :
  upload cfg fromBuffer (Some part) s = (Ok (Created record), s') ->
  Multer.fileFilter cfg part = Ok tt /\ mimeType record = mimetype part.
Proof.
  unfold upload, try_catch.
  destruct (bind (Multer.single cfg (Some part)) _ s) as [[r|e] s1] eqn:E.
  2:{ intros [= H _]. by apply errorHandler_not_created in H. }
  intros [= -> ->].
  bind_inv E file s2 Es. apply single_inv in Es as [Hfilter ->].
  split; [exact Hfilter|].
  bind_inv E flow s3 Ec. destruct flow as [|r].
  2:{ injection E as -> _. by eapply checkStorageLimit_not_created in Ec. }
  bind_inv E flow s4 Ev. destruct flow as [|r].
  2:{ injection E as -> _. by eapply validateFileMimeType_not_created in Ev. }
  unfold upload_handler in E. bind_inv E rec s5 Ea.
  injection E as -> _. by apply addFile_inv in Ea as [-> _].
Qed.

(** C4. An upload whose bytes carry no known signature is admitted only if
    its declared type is on the allow-list, and the record then carries the
    declared type as it was sent; and when no other gate stands in the way
    (extension, sizes, quota, file system), being on the allow-list is all it
    takes: the content is not looked at any further. *)
Theorem upload_unknown_signature cfg fromBuffer part s :
  fromBuffer (content part) = None ->
  let out := upload cfg fromBuffer (Some part) s in
  (forall record, out.1 = Ok (Created record) ->
     includes (mimetype part) (allowedMimeTypes cfg) = true
     /\ mimeType record = mimetype part)
  /\ (initialized (store s) = true ->
      no_faults s ->
      includes (Multer.toLowerCase (Path.extname (originalname part)))
               (blockedExtensions cfg) = false ->
      byteLength (content part) < maxFileSizeBytes cfg ->
      currentUsage s + byteLength (content part) <= maxStorageBytes cfg ->
      includes (mimetype part) (allowedMimeTypes cfg) = true ->
      exists record,
        out.1 = Ok (Created record) /\ mimeType record = mimetype part).
Proof.
  intros Hsniff. cbv zeta. split.
  - intros record Hout.
    destruct (upload cfg fromBuffer (Some part) s) as [r s'] eqn:E.
    cbn [fst] in Hout. subst r.
    apply upload_created_inv in E as [Hfilter Hmime].
    split; [by apply fileFilter_allowed | exact Hmime].
  - intros Hinit Hnf Hext Hsize Hquota Hallowed.
    assert (Multer.fileFilter cfg part = Ok tt) as Hfilter.
    { unfold Multer.fileFilter. by rewrite Hext, Hallowed. }
    rewrite (upload_admitted cfg fromBuffer part s Hinit Hnf Hfilter Hsize
               (or_introl Hsniff) Hquota).
    eexists. split; reflexivity.
Qed.

Lemma upload_unknown_signature_witness :
  exists record,
    (upload default_config Fixtures.signature (Some Fixtures.notes)
            Fixtures.fresh).1 = Ok (Created record)
    /\ mimeType record = "text/plain".
Proof.
  apply (proj2 (upload_unknown_signature default_config Fixtures.signature
                  Fixtures.notes Fixtures.fresh eq_refl)).
  - reflexivity.
  - intros op p. reflexivity.
  - reflexivity.
  - reflexivity.
  - vm_compute. discriminate.
  - reflexivity.
Defined.

(** ** The quota gate *)

Lemma currentUsage_empty s :
  metadata (store s) = JsMap.empty -> currentUsage s = 0.
Proof. unfold currentUsage. by intros ->. Qed.

(** C5. The quota check answers [Storage limit exceeded] exactly when the
    bytes accounted for plus the incoming bytes are strictly more than the
    configured maximum, and lets the upload through otherwise; so does the
    route as a whole.  In particular, with a quota equal to the size of one
    file and an empty store, that file is admitted, and a following upload of
    one byte is refused with [Storage limit exceeded]. *)
Theorem quota_guard_strict cfg fromBuffer part s :
  initialized (store s) = true ->
  no_faults s ->
  Multer.fileFilter cfg part = Ok tt ->
  byteLength (content part) < maxFileSizeBytes cfg ->
  fromBuffer (content part) = None
    \/ fromBuffer (content part) = Some (mimetype part) ->
  let incoming := byteLength (content part) in
  let f := stored_file cfg part (clock (world s)) in
  let out := upload cfg fromBuffer (Some part) s in
  (checkStorageLimit cfg (Some f) (stored cfg part s)).1 =
    Ok (if currentUsage s + incoming >? maxStorageBytes cfg
        then Sent (StorageLimitExceeded (currentUsage s) incoming)
        else Next)
  /\ (currentUsage s + incoming > maxStorageBytes cfg <->
      out.1 = Ok (StorageLimitExceeded (currentUsage s) incoming))
  /\ (currentUsage s + incoming <= maxStorageBytes cfg <->
      exists record, out.1 = Ok (Created record))
  /\ (metadata (store s) = JsMap.empty ->
      maxStorageBytes cfg = incoming ->
      forall second,
        Multer.fileFilter cfg second = Ok tt ->
        byteLength (content second) = 1 ->
        1 < maxFileSizeBytes cfg ->
        exists record,
          out.1 = Ok (Created record)
          /\ (upload cfg fromBuffer (Some second) out.2).1
             = Ok (StorageLimitExceeded incoming 1)).
Proof.
  intros Hinit Hnf Hfilter Hsize Hsniff. cbv zeta.
  assert (Hstored : disk (world (stored cfg part s))
                    !! f_path (stored_file cfg part (clock (world s)))
                    = Some (content part)).
  { unfold stored. simpl_st. apply lookup_insert_eq. }
  split; [|split; [|split]].
  - destruct (Z.gtb_spec (currentUsage s + byteLength (content part))
                         (maxStorageBytes cfg)) as [Hgt|Hle].
    + rewrite (checkStorageLimit_exceeded cfg _ (stored cfg part s) (content part));
        [reflexivity | exact Hinit | apply Hnf | exact Hstored |].
      change (currentUsage s + byteLength (content part) > maxStorageBytes cfg).
      lia.
    + by rewrite checkStorageLimit_within.
  - split.
    + intros Hgt. by apply upload_over_quota.
    + intros Hout.
      destruct (Z.gtb_spec (currentUsage s + byteLength (content part))
                           (maxStorageBytes cfg)) as [Hgt|Hle]; [lia|].
      rewrite (upload_admitted cfg fromBuffer part s) in Hout by done.
      discriminate Hout.
  - split.
    + intros Hle. rewrite (upload_admitted cfg fromBuffer part s) by done.
      by eexists.
    + intros [record Hout].
      destruct (Z.gtb_spec (currentUsage s + byteLength (content part))
                           (maxStorageBytes cfg)) as [Hgt|Hle]; [|done].
      destruct (upload_over_quota cfg fromBuffer part s) as [H _]; try done; [lia|].
      rewrite H in Hout. discriminate Hout.
  - intros Hempty Hmax second Hfilter2 Hone Hlimit.
    pose proof (currentUsage_empty s Hempty) as Hzero.
    rewrite (upload_admitted cfg fromBuffer part s) by (try done; lia).
    eexists. split; [reflexivity|]. cbn [snd].
    set (record := record_of cfg _ _).
    set (s1 := added record (stored cfg part s)).
    assert (currentUsage s1 = byteLength (content part)) as Husage.
    { unfold s1, currentUsage, added, stored. simpl_st. rewrite Hempty.
      unfold metadataStore.total_size. cbn. unfold record, record_of. cbn. lia. }
    destruct (upload_over_quota cfg fromBuffer second s1) as [H _]; try done.
    + rewrite Hone. exact Hlimit.
    + rewrite Husage, Hone, Hmax. lia.
    + by rewrite H, Husage, Hone.
Qed.

Lemma quota_guard_strict_witness :
  exists record,
    (upload Fixtures.five_bytes Fixtures.signature (Some Fixtures.notes)
            Fixtures.fresh).1 = Ok (Created record)
    /\ (upload Fixtures.five_bytes Fixtures.signature (Some Fixtures.one_byte)
          (upload Fixtures.five_bytes Fixtures.signature (Some Fixtures.notes)
                  Fixtures.fresh).2).1
       = Ok (StorageLimitExceeded 5 1).
Proof.
  refine (proj2 (proj2 (proj2
           (quota_guard_strict Fixtures.five_bytes Fixtures.signature
              Fixtures.notes Fixtures.fresh eq_refl (fun _ _ => eq_refl) eq_refl
              _ (or_introl eq_refl))))
           eq_refl eq_refl Fixtures.one_byte eq_refl eq_refl _).
  - reflexivity.
  - reflexivity.
Defined.

(** ** Failure paths of the upload route and of the sweep *)

(** C1. An upload that passes every gate while the snapshot file cannot be
    written is answered with the persistence failure, and the file multer
    stored for it is still in the upload directory afterwards: the handler
    passes the error on without the [unlink] that the quota gate and the
    sniffing gate perform when they reject. *)
Theorem upload_persist_failure_leaves_file :
  let s := Fixtures.fresh_readonly in
  let out := upload default_config Fixtures.signature (Some Fixtures.notes) s in
  out.1 = Ok (InternalError (PersistFailed (FsError EACCES OpWriteFile METADATA_FILE)))
  /\ ingest_error (InternalError (PersistFailed (FsError EACCES OpWriteFile METADATA_FILE)))
     = Some PersistenceError
  /\ disk (world s) !! f_path Fixtures.notes_file = None
  /\ disk (world out.2) !! f_path Fixtures.notes_file
     = Some (content Fixtures.notes)
  /\ snapshot (world out.2) = Records []
  /\ trace out.2 = [ EvWriteFile (f_path Fixtures.notes_file);
                     EvMapSet Fixtures.notes_name;
                     EvWriteSnapshot [Fixtures.notes_record] ].
Proof. vm_compute. repeat split. Qed.

(** The sibling gates do remove the stored file when they reject. *)
Lemma upload_mismatch_removes_file :
  let out := upload default_config Fixtures.signature (Some Fixtures.disguised)
               Fixtures.fresh in
  out.1 = Ok (MimeMismatch "text/plain" "application/x-msdownload")
  /\ disk (world out.2) = ∅.
Proof. vm_compute. repeat split. Qed.

(** C7. A store with one record whose file is gone, an unknown file in the
    upload directory, and a snapshot file that cannot be written: the
    reconciliation of orphaned metadata throws, [runCleanup] reports a failure
    without any count, and the removal of orphaned files is not attempted (no
    [unlink] in the trace, the unknown file is still there).  With a writable
    snapshot file the same run reports the three counts and removes it. *)
Theorem runCleanup_stops_at_failed_reconciliation :
  let out := lifecycleService.runCleanup default_config
               (Fixtures.diverged Fixtures.snapshot_readonly) in
  let good := lifecycleService.runCleanup default_config
                (Fixtures.diverged Fixtures.no_fault) in
  out.1 = Ok (CleanupFailure (PersistFailed (FsError EACCES OpWriteFile METADATA_FILE)))
  /\ disk (world out.2) !! Fixtures.stray_path = Some [Byte.x00]
  /\ trace out.2 = [ EvMapDelete Fixtures.notes_name; EvWriteSnapshot [] ]
  /\ good.1 = Ok (CleanupSuccess 0 1 1)
  /\ disk (world good.2) !! Fixtures.stray_path = None.
Proof. vm_compute. repeat split. Qed.

(** ** The expiry sweep *)

Lemma JsMap_delete_absent {V} k (m : JsMap.t V) :
  JsMap.get k m = None -> JsMap.delete k m = m.
Proof.
  induction m as [|[k' v'] m IH]; simpl; [done|].
  destruct (String.eqb k k'); [done|]. intros H. by rewrite IH.
Qed.

Lemma JsMap_get_delete_none {V} k k' (m : JsMap.t V) :
  JsMap.get k m = None -> JsMap.get k (JsMap.delete k' m) = None.
Proof.
  induction m as [|[k0 v0] m IH]; simpl; [done|].
  destruct (String.eqb k k0) eqn:E; [done|]. intros H.
  destruct (String.eqb k' k0); simpl; rewrite ?E; auto.
Qed.

Lemma unlink_attempt p s :
  exists r s',
    fs.unlink p s = (r, s')
    /\ store s' = store s
    /\ fault (world s') = fault (world s)
    /\ trace s' = (trace s ++ [EvUnlink p])%list.
Proof.
  destruct (fault (world s) OpUnlink p) as [c|] eqn:Hf.
  - rewrite (unlink_fault _ _ _ Hf). by eexists _, _.
  - destruct (disk (world s) !! p) as [b|] eqn:Hd.
    + rewrite (unlink_ok _ _ _ Hf Hd). by eexists _, _.
    + rewrite (unlink_enoent _ _ Hf Hd). by eexists _, _.
Qed.

Lemma deleteFile_spec fileId s :
  initialized (store s) = true ->
  exists r s',
    metadataStore.deleteFile fileId s = (r, s')
    /\ initialized (store s') = true
    /\ fault (world s') = fault (world s)
    /\ metadata (store s') = JsMap.delete fileId (metadata (store s))
    /\ (fault (world s) OpWriteFile METADATA_FILE = None -> exists o, r = Ok o)
    /\ (trace s' = trace s
        \/ exists l, trace s' = (trace s ++ [EvMapDelete fileId; EvWriteSnapshot l])%list).
Proof.
  intros Hinit. unfold metadataStore.deleteFile.
  rewrite (bind_ok _ _ _ _ _ (ensure_initialized_done s Hinit)).
  unfold bind at 1, get_st at 1.
  destruct (JsMap.get fileId (metadata (store s))) as [record|] eqn:Hget.
  - unfold metadataStore.map_delete, metadataStore.persist, fs.writeSnapshot,
      check_fault. unfold_m. simpl_st.
    destruct (fault (world s) OpWriteFile METADATA_FILE) as [e|];
      [destruct (fails_on_open e)|];
      eexists _, _; (split; [reflexivity|]); simpl_st;
      (split; [done|]); (split; [done|]); (split; [done|]);
      (split; [intros; by eauto|]); right; eexists;
      by rewrite <- app_assoc.
  - eexists _, _. split; [reflexivity|]. split; [done|]. split; [done|].
    split; [by rewrite JsMap_delete_absent|]. split; [by eauto | by left].
Qed.

Lemma unlink_precedes_delete_app records t1 t2 :
  unlink_precedes_delete records t1 ->
  unlink_precedes_delete records t2 ->
  unlink_precedes_delete records (t1 ++ t2).
Proof.
  intros H1 H2 pre k post Heq.
  apply app_eq_app in Heq as [l [[-> Hl]|[-> Hl]]].
  - destruct l as [|e l]; simpl in Hl.
    + destruct (H2 [] k post) as (r & _ & _ & Hin); [by rewrite <- Hl|].
      by apply elem_of_nil in Hin.
    + injection Hl as <- ->.
      destruct (H1 pre k l eq_refl) as (r & ? & ? & ?). by exists r.
  - destruct (H2 l k post Hl) as (r & ? & ? & Hin).
    exists r. split; [done|]. split; [done|].
    apply elem_of_app. by right.
Qed.

Lemma unlink_precedes_delete_mono records records' t :
  (forall r, r ∈ records -> r ∈ records') ->
  unlink_precedes_delete records t ->
  unlink_precedes_delete records' t.
Proof.
  intros Hsub H pre k post Heq.
  destruct (H pre k post Heq) as (r & ? & ? & ?). exists r. auto.
Qed.

(** One turn of the loop: the [unlink] is attempted, and only then is the
    record taken out of the map. *)
Lemma expire_turn file s :
  initialized (store s) = true ->
  exists deleted s',
    try_catch
      (try_catch (fs.unlink (path file)) (fun _ => ret tt) ;;
       metadataStore.deleteFile (id file) ;;
       ret true)
      (fun _ => ret false) s = (Ok deleted, s')
    /\ initialized (store s') = true
    /\ fault (world s') = fault (world s)
    /\ metadata (store s') = JsMap.delete (id file) (metadata (store s))
    /\ (fault (world s) OpWriteFile METADATA_FILE = None -> deleted = true)
    /\ exists t, trace s' = (trace s ++ EvUnlink (path file) :: t)%list
         /\ unlink_precedes_delete [file] (EvUnlink (path file) :: t).
Proof.
  intros Hinit.
  destruct (unlink_attempt (path file) s) as (r1 & s1 & E1 & Hst1 & Hf1 & Htr1).
  assert (E1' : try_catch (fs.unlink (path file)) (fun _ => ret tt) s = (Ok tt, s1)).
  { unfold try_catch. rewrite E1. by destruct r1 as [[]|e]. }
  destruct (deleteFile_spec (id file) s1)
    as (r2 & s2 & E2 & Hi2 & Hf2 & Hm2 & Hok2 & Htr2).
  { by rewrite Hst1. }
  exists (match r2 with Ok _ => true | Throw _ => false end), s2.
  split.
  { unfold try_catch at 1. rewrite (bind_ok _ _ _ _ _ E1').
    unfold bind. rewrite E2. by destruct r2. }
  split; [done|]. split; [by rewrite Hf2|]. split; [by rewrite Hm2, Hst1|].
  split.
  { intros Hw. rewrite <- Hf1 in Hw. by destruct (Hok2 Hw) as [o ->]. }
  destruct Htr2 as [Htr2|[l Htr2]].
  - exists []. split; [by rewrite Htr2, Htr1|].
    intros pre k post Heq. destruct pre as [|? [|]]; discriminate.
  - exists [EvMapDelete (id file); EvWriteSnapshot l].
    split; [by rewrite Htr2, Htr1, <- app_assoc|].
    intros pre k post Heq.
    destruct pre as [|e1 [|e2 [|e3 pre]]]; try discriminate.
    + injection Heq as <- <- _. exists file.
      split; [apply list_elem_of_here|]. split; [done|]. apply list_elem_of_here.
    + injection Heq as _ _ _ Heq. by destruct pre.
Qed.

Lemma expire_loop_spec expiredFiles : forall deletedCount s,
  initialized (store s) = true ->
  exists n s',
    lifecycleService.expire_loop expiredFiles deletedCount s = (Ok n, s')
    /\ initialized (store s') = true
    /\ (forall k, JsMap.get k (metadata (store s)) = None ->
                  JsMap.get k (metadata (store s')) = None)
    /\ (forall r, r ∈ expiredFiles -> JsMap.get (id r) (metadata (store s')) = None)
    /\ (fault (world s) OpWriteFile METADATA_FILE = None ->
        n = deletedCount + Z.of_nat (length expiredFiles))
    /\ exists t, trace s' = (trace s ++ t)%list
         /\ unlink_precedes_delete expiredFiles t
         /\ (forall r, r ∈ expiredFiles -> EvUnlink (path r) ∈ t).
Proof.
  induction expiredFiles as [|file rest IH]; intros deletedCount s Hinit.
  - exists deletedCount, s. split; [reflexivity|]. split; [done|].
    split; [done|]. split; [by intros r ?%elem_of_nil|].
    split; [intros _; simpl; lia|].
    exists []. split; [by rewrite app_nil_r|].
    split; [|by intros r ?%elem_of_nil].
    intros pre k post Heq. by destruct pre.
  - destruct (expire_turn file s Hinit)
      as (deleted & s1 & E1 & Hi1 & Hf1 & Hm1 & Hd1 & t1 & Htr1 & Hord1).
    destruct (IH (if deleted then deletedCount + 1 else deletedCount) s1 Hi1)
      as (n & s2 & E2 & Hi2 & Hnone & Hgone & Hcount & t2 & Htr2 & Hord2 & Hun2).
    exists n, s2. split.
    { cbn [lifecycleService.expire_loop]. by rewrite (bind_ok _ _ _ _ _ E1). }
    split; [done|]. split.
    { intros k Hk. apply Hnone. rewrite Hm1. by apply JsMap_get_delete_none. }
    split.
    { intros r [->|Hr]%elem_of_cons; [|by apply Hgone].
      apply Hnone. rewrite Hm1. apply JsMap_get_delete_eq. }
    split.
    { intros Hw. rewrite Hcount by (by rewrite Hf1).
      rewrite (Hd1 Hw). cbn [length]. lia. }
    exists ((EvUnlink (path file) :: t1) ++ t2)%list.
    split; [by rewrite Htr2, Htr1, <- app_assoc|]. split.
    { apply unlink_precedes_delete_app.
      - eapply unlink_precedes_delete_mono; [|exact Hord1].
        intros r ->%list_elem_of_singleton. apply list_elem_of_here.
      - eapply unlink_precedes_delete_mono; [|exact Hord2].
        intros r Hr. by apply list_elem_of_further. }
    intros r [->|Hr]%elem_of_cons.
    + apply elem_of_app. left. apply list_elem_of_here.
    + apply elem_of_app. right. by apply Hun2.
Qed.

(** C6. In an expiry sweep the [unlink] of a record's file is attempted
    before that record is taken out of the metadata: every removal from the
    map that the sweep performs comes, in the trace of the sweep, after the
    [unlink] of the path of an expired record with that id.  The removal does
    not depend on how the [unlink] ended, so a file that is gone already
    counts as deleted: every expired record has had its [unlink] attempted
    and is out of the map when the sweep returns, and when the snapshot can
    be written the count is the number of expired records. *)
Theorem cleanupExpiredFiles_unlinks_first s :
  initialized (store s) = true ->
  let expired :=
    filter (fun record => expiresAt record <= clock (world s))
           (JsMap.values (metadata (store s))) in
  let out := lifecycleService.cleanupExpiredFiles s in
  exists n t,
    out.1 = Ok n
    /\ trace out.2 = (trace s ++ t)%list
    /\ unlink_precedes_delete expired t
    /\ (forall r, r ∈ expired ->
          EvUnlink (path r) ∈ t
          /\ JsMap.get (id r) (metadata (store out.2)) = None)
    /\ (fault (world s) OpWriteFile METADATA_FILE = None ->
        n = Z.of_nat (length expired)).
Proof.
  intros Hinit. cbv zeta. unfold lifecycleService.cleanupExpiredFiles.
  assert (Hexp : metadataStore.getExpiredFiles s =
    (Ok (filter (fun record => expiresAt record <= clock (world s))
                (JsMap.values (metadata (store s)))), s)).
  { unfold metadataStore.getExpiredFiles.
    by rewrite (bind_ok _ _ _ _ _ (ensure_initialized_done s Hinit)). }
  rewrite (bind_ok _ _ _ _ _ Hexp).
  destruct (expire_loop_spec
              (filter (fun record => expiresAt record <= clock (world s))
                      (JsMap.values (metadata (store s)))) 0 s Hinit)
    as (n & s' & E & _ & _ & Hgone & Hcount & t & Htr & Hord & Hun).
  rewrite E. exists n, t. cbn [fst snd]. repeat split; auto.
Qed.

Lemma cleanupExpiredFiles_unlinks_first_witness :
  exists n t,
    (lifecycleService.cleanupExpiredFiles Fixtures.overdue).1 = Ok n
    /\ trace (lifecycleService.cleanupExpiredFiles Fixtures.overdue).2 = t
    /\ unlink_precedes_delete [Fixtures.notes_record] t
    /\ EvUnlink (path Fixtures.notes_record) ∈ t
    /\ JsMap.get Fixtures.notes_name
         (metadata (store (lifecycleService.cleanupExpiredFiles Fixtures.overdue).2))
       = None.
Proof.
  destruct (cleanupExpiredFiles_unlinks_first Fixtures.overdue eq_refl)
    as (n & t & H1 & H2 & H3 & H4 & _).
  exists n, t. split; [exact H1|]. split; [exact H2|]. split; [exact H3|].
  apply (H4 Fixtures.notes_record). apply list_elem_of_here.
Defined.

(** ** The sweep of orphaned files *)

Lemma chars_append a b : Js.chars (a ++ b) = (Js.chars a ++ Js.chars b)%list.
Proof. induction a as [|c a IH]; simpl; [done|]. by rewrite <- IH. Qed.

Lemma strip_prefix_app pre l : Path.strip_prefix pre (pre ++ l) = Some l.
Proof.
  induction pre as [|c pre IH]; simpl; [done|].
  unfold Js.is_char. by rewrite Ascii.eqb_refl.
Qed.

Lemma entry_name_join dir name :
  Js.includes_char Js.slash name = false ->
  fs.entry_name dir (Path.join dir name) = Some name.
Proof.
  intros Hname. unfold fs.entry_name, Path.join.
  replace (dir ++ "/" ++ name) with ((dir ++ "/") ++ name).
  2:{ induction dir as [|c dir IH]; [done|].
      change (String c ((dir ++ "/") ++ name) = String c (dir ++ "/" ++ name)).
      by rewrite IH. }
  rewrite (chars_append (dir ++ "/") name), strip_prefix_app.
  unfold Js.of_chars, Js.chars. rewrite string_of_list_ascii_of_string.
  by rewrite Hname.
Qed.

Lemma listing_elem dir s name b :
  disk (world s) !! Path.join dir name = Some b ->
  Js.includes_char Js.slash name = false ->
  name ∈ listing dir s.
Proof.
  intros Hd Hname. unfold listing. apply list_elem_of_omap.
  exists (Path.join dir name). split; [|by apply entry_name_join].
  apply elem_of_elements, elem_of_dom. by eexists.
Qed.

Lemma orphan_loop_spec cfg known files : forall deletedCount s,
  exists n s',
    lifecycleService.orphan_loop cfg files known deletedCount s = (Ok n, s')
    /\ store s' = store s
    /\ fault (world s') = fault (world s)
    /\ (forall p b, disk (world s') !! p = Some b -> disk (world s) !! p = Some b)
    /\ (forall name, name ∈ files -> removable cfg known s name ->
          disk (world s') !! Path.join (uploadDir cfg) name = None)
    /\ n - deletedCount = file_count s - file_count s'.
Proof.
  induction files as [|name rest IH]; intros deletedCount s.
  - exists deletedCount, s. repeat split; auto; [by intros ? ?%elem_of_nil | lia].
  - cbn [lifecycleService.orphan_loop].
    destruct (String.eqb name ".gitkeep" || Js.startsWith_dot name) eqn:Hhidden.
    { destruct (IH deletedCount s) as (n & s' & E & Hst & Hf & Hmono & Hgone & Hn).
      exists n, s'. repeat split; auto.
      intros name' [->|Hin]%elem_of_cons Hrem; [|by apply Hgone].
      destruct Hrem as (Hdot & _). rewrite Hdot, orb_false_r in Hhidden.
      apply String.eqb_eq in Hhidden. by subst. }
    destruct (bool_decide (name ∈ known)) eqn:Hknown; cbn [negb].
    { destruct (IH deletedCount s) as (n & s' & E & Hst & Hf & Hmono & Hgone & Hn).
      exists n, s'. repeat split; auto.
      intros name' [->|Hin]%elem_of_cons Hrem; [|by apply Hgone].
      destruct Hrem as (_ & Hnot & _). by apply bool_decide_eq_true in Hknown. }
    set (p := Path.join (uploadDir cfg) name).
    destruct (fault (world s) OpUnlink p) as [c|] eqn:Hflt;
      [|destruct (disk (world s) !! p) as [b|] eqn:Hd].
    + (* the unlink is made to fail *)
      destruct (IH deletedCount (st_log (EvUnlink p) s))
        as (n & s' & E & Hst & Hf & Hmono & Hgone & Hn).
      exists n, s'. split.
      { rewrite (bind_ok _ _ s false (st_log (EvUnlink p) s)); [exact E|].
        unfold try_catch.
        by rewrite (bind_throw _ _ _ _ _ (unlink_fault _ _ _ Hflt)). }
      repeat split; auto.
      intros name' [->|Hin]%elem_of_cons Hrem; [|by apply Hgone].
      destruct Hrem as (_ & _ & Hnone). fold p in Hnone. congruence.
    + (* the file is removed *)
      destruct (IH (deletedCount + 1)
                  (st_disk (delete p (disk (world s))) (st_log (EvUnlink p) s)))
        as (n & s' & E & Hst & Hf & Hmono & Hgone & Hn).
      exists n, s'. split.
      { rewrite (bind_ok _ _ s true
                   (st_disk (delete p (disk (world s))) (st_log (EvUnlink p) s)));
          [exact E|].
        unfold try_catch.
        by rewrite (bind_ok _ _ _ _ _ (unlink_ok _ _ _ Hflt Hd)). }
      split; [done|]. split; [done|]. split.
      { intros q bq Hq. apply Hmono in Hq. simpl_st in Hq.
        apply lookup_delete_Some in Hq. by destruct Hq. }
      split.
      { intros name' [->|Hin]%elem_of_cons Hrem; [|by apply Hgone].
        fold p. destruct (disk (world s') !! p) as [b'|] eqn:Hp; [|done].
        apply Hmono in Hp. simpl_st in Hp. by rewrite lookup_delete_eq in Hp. }
      unfold file_count in *. simpl_st in Hn.
      rewrite map_size_delete_Some in Hn by eauto.
      assert (base.size (disk (world s)) <> 0%nat).
      { intros Hz%map_size_empty_inv. rewrite Hz in Hd.
        by rewrite lookup_empty in Hd. }
      lia.
    + (* the file is gone already *)
      destruct (IH deletedCount (st_log (EvUnlink p) s))
        as (n & s' & E & Hst & Hf & Hmono & Hgone & Hn).
      exists n, s'. split.
      { rewrite (bind_ok _ _ s false (st_log (EvUnlink p) s)); [exact E|].
        unfold try_catch.
        by rewrite (bind_throw _ _ _ _ _ (unlink_enoent _ _ Hflt Hd)). }
      repeat split; auto.
      intros name' [->|Hin]%elem_of_cons Hrem; [|by apply Hgone].
      fold p. destruct (disk (world s') !! p) as [b'|] eqn:Hp; [|done].
      apply Hmono in Hp. simpl_st in Hp. congruence.
Qed.

Lemma readdir_ok dir s :
  fault (world s) OpReaddir dir = None ->
  fs.readdir dir s = (Ok (listing dir s), s).
Proof.
  intros Hf. unfold fs.readdir.
  by rewrite (bind_ok _ _ _ _ _ (check_fault_none _ _ _ Hf)).
Qed.

Lemma getAllFiles_ok s :
  initialized (store s) = true ->
  metadataStore.getAllFiles s = (Ok (JsMap.values (metadata (store s))), s).
Proof.
  intros H. unfold metadataStore.getAllFiles.
  by rewrite (bind_ok _ _ _ _ _ (ensure_initialized_done s H)).
Qed.

(** C8, counterexample. The upload directory holds a [.gitkeep] and the
    store holds no record at all; after the phase the file is still there
    and the count is zero. *)
Lemma gitkeep_survives_orphan_sweep :
  let s := Fixtures.kept in
  let out := lifecycleService.cleanupOrphanedFiles default_config s in
  JsMap.values (metadata (store s)) = []
  /\ listing (uploadDir default_config) s = [".gitkeep"]
  /\ out.1 = Ok 0
  /\ disk (world out.2) !! Fixtures.gitkeep_path = Some [].
Proof. vm_compute. repeat split. Qed.

(** C8, amended. When the directory can be listed, the phase removes every
    file of the upload directory whose name does not start with a dot, that
    no record names, and whose [unlink] does not fail; the count it returns
    is the number of files that left the disk, and no file that stays is
    changed. *)
Theorem cleanupOrphanedFiles_removes_orphans cfg s :
  initialized (store s) = true ->
  fault (world s) OpReaddir (uploadDir cfg) = None ->
  let out := lifecycleService.cleanupOrphanedFiles cfg s in
  (forall name b,
     disk (world s) !! Path.join (uploadDir cfg) name = Some b ->
     Js.includes_char Js.slash name = false ->
     Js.startsWith_dot name = false ->
     (forall r, r ∈ JsMap.values (metadata (store s)) -> filename r <> name) ->
     fault (world s) OpUnlink (Path.join (uploadDir cfg) name) = None ->
     disk (world out.2) !! Path.join (uploadDir cfg) name = None)
  /\ out.1 = Ok (file_count s - file_count out.2)
  /\ (forall p b, disk (world out.2) !! p = Some b -> disk (world s) !! p = Some b).
Proof.
  intros Hinit Hlist. cbv zeta.
  unfold lifecycleService.cleanupOrphanedFiles, try_catch.
  rewrite (bind_ok _ _ _ _ _ (readdir_ok _ _ Hlist)).
  rewrite (bind_ok _ _ _ _ _ (getAllFiles_ok _ Hinit)).
  destruct (orphan_loop_spec cfg
              (list_to_set (map filename (JsMap.values (metadata (store s)))))
              (listing (uploadDir cfg) s) 0 s)
    as (n & s' & E & _ & _ & Hmono & Hgone & Hn).
  rewrite E. cbn [fst snd]. split; [|split].
  - intros name b Hd Hslash Hdot Hunknown Hflt. apply Hgone.
    + by eapply listing_elem.
    + split; [done|]. split; [|done].
      intros Hin%elem_of_list_to_set.
      apply list_elem_of_fmap in Hin as (r & Hname & Hr).
      by apply (Hunknown r).
  - f_equal. lia.
  - exact Hmono.
Qed.

Lemma cleanupOrphanedFiles_removes_orphans_witness :
  let s := Fixtures.diverged Fixtures.no_fault in
  let out := lifecycleService.cleanupOrphanedFiles default_config s in
  disk (world out.2) !! Fixtures.stray_path = None
  /\ out.1 = Ok (file_count s - file_count out.2).
Proof.
  destruct (cleanupOrphanedFiles_removes_orphans default_config
              (Fixtures.diverged Fixtures.no_fault) eq_refl eq_refl)
    as (Hgone & Hcount & _).
  split; [|exact Hcount].
  apply (Hgone "stray.bin" [Byte.x00]); try reflexivity.
  intros r Hr. vm_compute in Hr.
  apply list_elem_of_singleton in Hr. by subst.
Defined.

(** ** Two requests at once *)

(** A call that is left alone until its write has completed does what
    [addFile] does: same map, same snapshot file. *)
Lemma begin_land_is_addFile cfg fileData s :
  initialized (store s) = true ->
  fault (world s) OpWriteFile METADATA_FILE = None ->
  let record := record_of cfg fileData (clock (world s)) in
  let out := metadataStore.addFile cfg fileData s in
  exists c,
    Concurrent.run [Concurrent.Begin (Concurrent.Put record); Concurrent.Land 0]
      {| Concurrent.memory := metadata (store s); Concurrent.in_flight := [];
         Concurrent.file := snapshot (world s); Concurrent.returned := 0 |}
    = Some c
    /\ Concurrent.memory c = metadata (store out.2)
    /\ Concurrent.file c = snapshot (world out.2)
    /\ Concurrent.in_flight c = [].
Proof.
  intros Hinit Hfault. cbv zeta. rewrite (addFile_ok _ _ _ Hinit Hfault).
  eexists. split; [reflexivity|]. by repeat split.
Qed.

(** C9. Nothing serializes the sequence "change the map, then write the
    snapshot" of one call against that of another.  Two [addFile] calls, for
    [notes] and then for [memo], both run up to their [await]; the write of
    the second completes first, the write of the first completes last.  Both
    calls have returned, the map holds both records, and the snapshot file
    holds the first record only.  Run one after the other, the same two calls
    leave both records in the file. *)
Theorem concurrent_puts_leave_stale_snapshot :
  let a := Fixtures.notes_record in
  let b := Fixtures.memo_record in
  let start := Concurrent.idle JsMap.empty in
  let overlapped :=
    Concurrent.run [ Concurrent.Begin (Concurrent.Put a);
                     Concurrent.Begin (Concurrent.Put b);
                     Concurrent.Land 1; Concurrent.Land 0 ] start in
  let serial :=
    Concurrent.run [ Concurrent.Begin (Concurrent.Put a); Concurrent.Land 0;
                     Concurrent.Begin (Concurrent.Put b); Concurrent.Land 0 ]
                   start in
  overlapped = Some {| Concurrent.memory := [(id a, a); (id b, b)];
                       Concurrent.in_flight := [];
                       Concurrent.file := Records [a];
                       Concurrent.returned := 2 |}
  /\ serial = Some {| Concurrent.memory := [(id a, a); (id b, b)];
                      Concurrent.in_flight := [];
                      Concurrent.file := Records [a; b];
                      Concurrent.returned := 2 |}.
Proof. split; reflexivity. Qed.

(** * Further properties of the code *)

(** ** File ids *)

Lemma includes_char_of_chars c l :
  Js.includes_char c (Js.of_chars l) = existsb (Js.is_char c) l.
Proof. induction l as [|a l IH]; simpl; [done|]. by rewrite IH. Qed.

Lemma includes_char_chars c s :
  Js.includes_char c s = existsb (Js.is_char c) (Js.chars s).
Proof. induction s as [|a s IH]; simpl; [done|]. by rewrite IH. Qed.

Lemma existsb_reverse {A} (p : A -> bool) l : existsb p (rev l) = existsb p l.
Proof.
  induction l as [|a l IH]; simpl; [done|].
  rewrite existsb_app, IH. simpl. rewrite orb_false_r. apply orb_comm.
Qed.

Lemma existsb_take_while {A} (p q : A -> bool) l :
  existsb q (Js.take_while p l) = true -> existsb q l = true.
Proof.
  induction l as [|a l IH]; simpl; [done|].
  destruct (p a); simpl; [|done].
  destruct (q a); simpl; auto.
Qed.

Lemma existsb_drop_while {A} (p q : A -> bool) l :
  existsb q (Js.drop_while p l) = true -> existsb q l = true.
Proof.
  induction l as [|a l IH]; simpl; [done|].
  destruct (p a); simpl; [|done].
  intros H. rewrite (IH H). apply orb_true_r.
Qed.

Lemma take_while_holds {A} (p : A -> bool) l :
  existsb (fun x => negb (p x)) (Js.take_while p l) = false.
Proof.
  induction l as [|a l IH]; simpl; [done|].
  destruct (p a) eqn:E; simpl; [|done]. by rewrite E, IH.
Qed.

(** The last path component has no slash, and no character the path did not
    have. *)
Lemma basename_no_slash p : Js.includes_char Js.slash (Path.basename p) = false.
Proof.
  unfold Path.basename. rewrite includes_char_of_chars, existsb_reverse.
  rewrite <- (take_while_holds (fun c => negb (Js.is_char Js.slash c))
                (Js.drop_while (Js.is_char Js.slash) (rev (Js.chars p)))) at 1.
  induction (Js.take_while _ _) as [|a l IH]; simpl; [done|].
  by rewrite negb_involutive, IH.
Qed.

Lemma basename_chars c p :
  Js.includes_char c (Path.basename p) = true -> Js.includes_char c p = true.
Proof.
  unfold Path.basename. rewrite includes_char_of_chars, existsb_reverse.
  intros H%existsb_take_while%existsb_drop_while.
  by rewrite existsb_reverse, <- includes_char_chars in H.
Qed.

Lemma replace_dotdot_step a b r :
  Js.replace_dotdot (String a (String b r)) =
    if Js.is_char Js.dot a && Js.is_char Js.dot b
    then Js.replace_dotdot r
    else String a (Js.replace_dotdot (String b r)).
Proof. reflexivity. Qed.

Lemma replace_dotdot_bounded n : forall s,
  (String.length s <= n)%nat ->
  Js.includes_dotdot (Js.replace_dotdot s) = false
  /\ (forall a r, s = String a r -> Js.is_char Js.dot a = false ->
        exists r', Js.replace_dotdot s = String a r')
  /\ (forall c, Js.includes_char c (Js.replace_dotdot s) = true ->
        Js.includes_char c s = true).
Proof.
  induction n as [n IH] using lt_wf_ind. intros s Hlen.
  destruct s as [|a [|b r]].
  - repeat split; [by intros ? ? [=] | done].
  - repeat split; [|done]. intros a' r' [= <- <-] _. by eexists.
  - simpl in Hlen.
    destruct (Js.is_char Js.dot a && Js.is_char Js.dot b) eqn:Hdots.
    + destruct (IH (n - 2)%nat ltac:(lia) r ltac:(lia)) as (H1 & _ & H3).
      rewrite replace_dotdot_step, Hdots. split; [exact H1|]. split.
      * intros a' r' [= <- <-] Ha. by rewrite Ha in Hdots.
      * intros c Hc%H3. simpl. rewrite Hc. by rewrite !orb_true_r.
    + destruct (IH (n - 1)%nat ltac:(lia) (String b r) ltac:(simpl; lia))
        as (H1 & H2 & H3).
      rewrite replace_dotdot_step, Hdots.
      split; [|split].
      * destruct (Js.replace_dotdot (String b r)) as [|c x] eqn:Ex; [done|].
        change (Js.includes_dotdot (String a (String c x)))
          with ((Js.is_char Js.dot a && Js.is_char Js.dot c)
                || Js.includes_dotdot (String c x)).
        rewrite H1, orb_false_r.
        destruct (Js.is_char Js.dot a) eqn:Ha; [|done].
        cbn [andb] in Hdots.
        destruct (H2 b r eq_refl Hdots) as [r' [= -> _]]. by rewrite Hdots.
      * intros a' r' [= <- <-] _. by eexists.
      * intros c. cbn [Js.includes_char].
        intros [Hc|Hc]%orb_true_iff; [by rewrite Hc|].
        apply H3 in Hc. cbn [Js.includes_char] in Hc. rewrite Hc.
        apply orb_true_r.
Qed.

Lemma replace_separators_id s :
  Js.includes_char Js.slash s = false ->
  Js.includes_char Js.backslash s = false ->
  Js.replace_separators s = s.
Proof.
  induction s as [|a s IH]; [done|].
  cbn [Js.includes_char Js.replace_separators].
  intros [Ha Hs]%orb_false_iff [Hb Hs']%orb_false_iff.
  unfold Js.is_separator. rewrite Ha, Hb. cbn [orb]. by rewrite IH.
Qed.

(** Every id [validateFileId] lets through is non-empty and has neither a
    slash nor a backslash in it. *)
Theorem validateFileId_no_separator fileId sanitized :
  validateFileId fileId = inr sanitized ->
  sanitized <> EmptyString
  /\ Js.includes_char Js.slash sanitized = false
  /\ Js.includes_char Js.backslash sanitized = false.
Proof.
  unfold validateFileId. destruct fileId as [|a r]; [done|].
  destruct (sanitizeFilename (String a r)) as [x|e] eqn:E; [|done].
  intros [= <-]. by apply sanitizeFilename_no_separator in E.
Qed.

Lemma validateFileId_no_separator_witness :
  Js.includes_char Js.slash "passwd" = false
  /\ Js.includes_char Js.backslash "passwd" = false.
Proof.
  exact (proj2 (validateFileId_no_separator "../../etc/passwd" "passwd" eq_refl)).
Defined.

(** On a name without backslash, [sanitizeFilename] keeps its promise: what
    it returns has no two adjacent dots. *)
Theorem sanitizeFilename_no_dotdot filename sanitized :
  Js.includes_char Js.backslash filename = false ->
  sanitizeFilename filename = Ok sanitized ->
  Js.includes_dotdot sanitized = false.
Proof.
  intros Hback. unfold sanitizeFilename.
  set (b := Path.basename filename).
  destruct (replace_dotdot_bounded (String.length b) b (le_n _)) as (H1 & _ & H3).
  rewrite replace_separators_id.
  - destruct (Js.replace_dotdot b); [done|]. by intros [= <-].
  - destruct (Js.includes_char Js.slash (Js.replace_dotdot b)) eqn:E; [|done].
    apply H3 in E. unfold b in E. by rewrite basename_no_slash in E.
  - destruct (Js.includes_char Js.backslash (Js.replace_dotdot b)) eqn:E; [|done].
    apply H3, basename_chars in E. congruence.
Qed.

Lemma sanitizeFilename_no_dotdot_witness :
  Js.includes_dotdot "file.txt" = false.
Proof.
  exact (sanitizeFilename_no_dotdot "a/..file...txt" "file.txt" eq_refl eq_refl).
Defined.

(** ** The metadata store: lookups, the invariant, restarts *)

Lemma JsMap_get_delete_ne {V} k k' (m : JsMap.t V) :
  k <> k' -> JsMap.get k' (JsMap.delete k m) = JsMap.get k' m.
Proof.
  intros Hne. induction m as [|[k0 v0] m IH]; simpl; [done|].
  destruct (String.eqb_spec k k0) as [->|]; simpl.
  - destruct (String.eqb_spec k' k0); [congruence|done].
  - by rewrite IH.
Qed.

Lemma JsMap_get_None {V} k (m : JsMap.t V) :
  JsMap.get k m = None <-> k ∉ map fst m.
Proof.
  induction m as [|[k0 v0] m IH]; simpl.
  - split; [intros _ H; by apply elem_of_nil in H | done].
  - destruct (String.eqb_spec k k0) as [->|Hne].
    + split; [done|]. intros H. destruct H. apply list_elem_of_here.
    + rewrite IH. split.
      * intros H [->|Hin]%elem_of_cons; done.
      * intros H Hin. apply H. by apply list_elem_of_further.
Qed.

Lemma JsMap_get_Some {V} k (v : V) m :
  NoDup (map fst m) -> (JsMap.get k m = Some v <-> (k, v) ∈ m).
Proof.
  induction m as [|[k0 v0] m IH]; simpl; intros Hnd.
  - split; [done | by intros ?%elem_of_nil].
  - apply NoDup_cons in Hnd as [Hk0 Hnd].
    destruct (String.eqb_spec k k0) as [->|Hne].
    + split.
      * intros [= ->]. apply list_elem_of_here.
      * intros [[= ->]|Hin]%elem_of_cons; [done|].
        destruct Hk0. apply list_elem_of_fmap. by exists (k0, v).
    + rewrite (IH Hnd). split.
      * apply list_elem_of_further.
      * intros [[= -> ->]|Hin]%elem_of_cons; done.
Qed.

Lemma JsMap_set_fresh {V} k (v : V) m :
  JsMap.get k m = None -> JsMap.set k v m = (m ++ [(k, v)])%list.
Proof.
  induction m as [|[k0 v0] m IH]; simpl; [done|].
  destruct (String.eqb k k0); [done|]. intros H. by rewrite IH.
Qed.

Lemma JsMap_keys_set {V} k (v : V) m :
  map fst (JsMap.set k v m) =
    match JsMap.get k m with
    | Some _ => map fst m
    | None => (map fst m ++ [k])%list
    end.
Proof.
  induction m as [|[k0 v0] m IH]; simpl; [done|].
  destruct (String.eqb_spec k k0) as [->|]; simpl; [done|].
  rewrite IH. by destruct (JsMap.get k m).
Qed.

Lemma JsMap_elem_set {V} k (v : V) m k' v' :
  (k', v') ∈ JsMap.set k v m -> (k', v') = (k, v) \/ (k', v') ∈ m.
Proof.
  induction m as [|[k0 v0] m IH]; simpl.
  - intros ->%list_elem_of_singleton. by left.
  - destruct (String.eqb k k0).
    + intros [->|Hin]%elem_of_cons; [by left|]. right.
      by apply list_elem_of_further.
    + intros [->|Hin]%elem_of_cons; [right; apply list_elem_of_here|].
      destruct (IH Hin); [by left|right]. by apply list_elem_of_further.
Qed.

Lemma JsMap_elem_delete {V} k (m : JsMap.t V) k' v' :
  (k', v') ∈ JsMap.delete k m -> (k', v') ∈ m.
Proof.
  induction m as [|[k0 v0] m IH]; simpl; [done|].
  destruct (String.eqb k k0).
  - intros H. by apply list_elem_of_further, IH.
  - intros [->|Hin]%elem_of_cons; [apply list_elem_of_here|].
    by apply list_elem_of_further, IH.
Qed.

Lemma JsMap_keys_delete {V} k (m : JsMap.t V) :
  NoDup (map fst m) -> NoDup (map fst (JsMap.delete k m)).
Proof.
  induction m as [|[k0 v0] m IH]; simpl; [done|].
  intros [Hk0 Hnd]%NoDup_cons. destruct (String.eqb k k0); [by apply IH|].
  simpl. apply NoDup_cons. split; [|by apply IH].
  intros (kv & Hfst & Hin)%list_elem_of_fmap. destruct kv as [k1 v1].
  simpl in Hfst. subst k1. apply JsMap_elem_delete in Hin.
  apply Hk0, list_elem_of_fmap. by exists (k0, v1).
Qed.

Lemma well_keyed_empty : well_keyed JsMap.empty.
Proof. split; [constructor | by intros k r ?%elem_of_nil]. Qed.

Lemma well_keyed_set m r : well_keyed m -> well_keyed (JsMap.set (id r) r m).
Proof.
  intros [Hnd Hid]. split.
  - rewrite JsMap_keys_set. destruct (JsMap.get (id r) m) eqn:E; [done|].
    apply NoDup_app. split; [done|]. split; [|apply NoDup_singleton].
    intros k Hk ->%list_elem_of_singleton. by apply JsMap_get_None in E.
  - intros k r' [[= -> ->]|Hin]%JsMap_elem_set; [done|]. by apply Hid.
Qed.

Lemma well_keyed_delete m k : well_keyed m -> well_keyed (JsMap.delete k m).
Proof.
  intros [Hnd Hid]. split; [by apply JsMap_keys_delete|].
  intros k' r' Hin%JsMap_elem_delete. by apply Hid.
Qed.

Lemma getFile_ok k s :
  initialized (store s) = true ->
  metadataStore.getFile k s = (Ok (JsMap.get k (metadata (store s))), s).
Proof.
  intros H. unfold metadataStore.getFile.
  by rewrite (bind_ok _ _ _ _ _ (ensure_initialized_done s H)).
Qed.

(** The state [addFile] leaves behind, whether the snapshot could be written
    or not. *)
Lemma addFile_state cfg fileData s :
  initialized (store s) = true ->
  let out := metadataStore.addFile cfg fileData s in
  initialized (store out.2) = true
  /\ metadata (store out.2) =
     JsMap.set (f_filename fileData)
       (record_of cfg fileData (clock (world s))) (metadata (store s))
  /\ disk (world out.2) = disk (world s)
  /\ fault (world out.2) = fault (world s)
  /\ clock (world out.2) = clock (world s).
Proof.
  intros Hinit. cbv zeta.
  destruct (fault (world s) OpWriteFile METADATA_FILE) as [c|] eqn:Hf.
  - unfold metadataStore.addFile, metadataStore.ensure_initialized,
      metadataStore.map_set, metadataStore.persist, fs.writeSnapshot,
      check_fault. unfold_m. simpl_st. rewrite Hinit. simpl_st. rewrite Hf.
    by destruct (fails_on_open c).
  - rewrite (addFile_ok _ _ _ Hinit Hf). by repeat split.
Qed.

(** Insert, then look up: after [addFile], [getFile] finds the new record
    under the stored file name and every other id as before, also when the
    snapshot could not be written. *)
Theorem addFile_then_getFile cfg fileData s k :
  initialized (store s) = true ->
  let out := metadataStore.addFile cfg fileData s in
  (metadataStore.getFile k out.2).1 =
    Ok (if String.eqb (f_filename fileData) k
        then Some (record_of cfg fileData (clock (world s)))
        else JsMap.get k (metadata (store s))).
Proof.
  intros Hinit. cbv zeta.
  destruct (addFile_state cfg fileData s Hinit) as (Hi & Hm & _).
  rewrite (getFile_ok _ _ Hi), Hm. cbn [fst]. f_equal.
  destruct (String.eqb_spec (f_filename fileData) k) as [<-|Hne].
  - apply JsMap_get_set_eq.
  - by apply JsMap_get_set_ne.
Qed.

Lemma addFile_then_getFile_witness :
  (metadataStore.getFile Fixtures.notes_name
     (metadataStore.addFile default_config Fixtures.notes_file Fixtures.fresh).2).1
  = Ok (Some Fixtures.notes_record).
Proof.
  exact (addFile_then_getFile default_config Fixtures.notes_file Fixtures.fresh
           Fixtures.notes_name eq_refl).
Defined.

(** [deleteFile] on an id the store does not hold returns [null] and does
    nothing else: the map, the snapshot file and the trace are as before. *)
Theorem deleteFile_missing k s :
  initialized (store s) = true ->
  JsMap.get k (metadata (store s)) = None ->
  metadataStore.deleteFile k s = (Ok None, s).
Proof.
  intros Hinit Hget. unfold metadataStore.deleteFile.
  rewrite (bind_ok _ _ _ _ _ (ensure_initialized_done s Hinit)).
  unfold bind, get_st. by rewrite Hget.
Qed.

Lemma deleteFile_missing_witness :
  metadataStore.deleteFile "nothing" Fixtures.fresh = (Ok None, Fixtures.fresh).
Proof. exact (deleteFile_missing "nothing" Fixtures.fresh eq_refl eq_refl). Defined.

(** [deleteFile] on an id the store holds returns its record; afterwards the
    id is not found, every other id is found as before, and, the write
    having succeeded, the snapshot file lists exactly the records left. *)
Theorem deleteFile_present k r s :
  initialized (store s) = true ->
  fault (world s) OpWriteFile METADATA_FILE = None ->
  JsMap.get k (metadata (store s)) = Some r ->
  let out := metadataStore.deleteFile k s in
  out.1 = Ok (Some r)
  /\ (forall k', (metadataStore.getFile k' out.2).1 =
                 Ok (if String.eqb k k' then None
                     else JsMap.get k' (metadata (store s))))
  /\ snapshot (world out.2) = Records (JsMap.values (metadata (store out.2)))
  /\ disk (world out.2) = disk (world s).
Proof.
  intros Hinit Hf Hget. cbv zeta.
  unfold metadataStore.deleteFile, metadataStore.ensure_initialized,
    metadataStore.map_delete, metadataStore.persist, fs.writeSnapshot,
    check_fault. unfold_m. simpl_st. rewrite Hinit. simpl_st.
  rewrite Hget. simpl_st. rewrite Hf. simpl_st.
  split; [done|]. split; [|done].
  intros k'. rewrite getFile_ok by done. simpl_st. f_equal.
  destruct (String.eqb_spec k k') as [<-|Hne].
  - apply JsMap_get_delete_eq.
  - by apply JsMap_get_delete_ne.
Qed.

Lemma deleteFile_present_witness :
  let s := Fixtures.state [(Fixtures.notes_name, Fixtures.notes_record)] ∅
             Fixtures.noon Fixtures.no_fault in
  (metadataStore.deleteFile Fixtures.notes_name s).1 = Ok (Some Fixtures.notes_record)
  /\ snapshot (world (metadataStore.deleteFile Fixtures.notes_name s).2) = Records [].
Proof.
  destruct (deleteFile_present Fixtures.notes_name Fixtures.notes_record
              (Fixtures.state [(Fixtures.notes_name, Fixtures.notes_record)] ∅
                 Fixtures.noon Fixtures.no_fault) eq_refl eq_refl eq_refl)
    as (H1 & _ & H3 & _).
  split; [exact H1 | exact H3].
Defined.

(** [addFile] and [deleteFile] keep the invariant of the map: keys are the
    ids of their records, and no key occurs twice. *)
Theorem store_keeps_well_keyed cfg fileData k s :
  initialized (store s) = true ->
  well_keyed (metadata (store s)) ->
  well_keyed (metadata (store (metadataStore.addFile cfg fileData s).2))
  /\ well_keyed (metadata (store (metadataStore.deleteFile k s).2)).
Proof.
  intros Hinit Hwk. split.
  - destruct (addFile_state cfg fileData s Hinit) as (_ & -> & _).
    exact (well_keyed_set _ (record_of cfg fileData (clock (world s))) Hwk).
  - destruct (deleteFile_spec k s Hinit) as (r & s' & E & _ & _ & Hm & _).
    rewrite E. cbn [snd]. rewrite Hm. by apply well_keyed_delete.
Qed.

Lemma store_keeps_well_keyed_witness :
  well_keyed (metadata (store
    (metadataStore.addFile default_config Fixtures.notes_file Fixtures.fresh).2)).
Proof.
  exact (proj1 (store_keeps_well_keyed default_config Fixtures.notes_file
                  "nothing" Fixtures.fresh eq_refl well_keyed_empty)).
Defined.

Lemma for_of_map_set records : forall s,
  exists s',
    for_of records metadataStore.map_set s = (Ok tt, s')
    /\ metadata (store s') =
       fold_left (fun m r => JsMap.set (id r) r m) records (metadata (store s))
    /\ initialized (store s') = initialized (store s)
    /\ world s' = world s.
Proof.
  induction records as [|r records IH]; intros s.
  - by exists s.
  - destruct (IH (st_metadata (JsMap.set (id r) r (metadata (store s)))
                    (st_log (EvMapSet (id r)) s))) as (s' & E & Hm & Hi & Hw).
    exists s'. split; [|by repeat split].
    cbn [for_of]. erewrite bind_ok; [exact E|]. reflexivity.
Qed.

Lemma reload_values (m2 : JsMap.t FileRecord) : forall m1 : JsMap.t FileRecord,
  well_keyed (m1 ++ m2)%list ->
  fold_left (fun m r => JsMap.set (id r) r m) (JsMap.values m2) m1
  = (m1 ++ m2)%list.
Proof.
  induction m2 as [|[k r] m2 IH]; intros m1 Hwk.
  - by rewrite app_nil_r.
  - destruct Hwk as [Hnd Hid]. cbn [JsMap.values map snd fold_left].
    assert (k = id r) as ->.
    { apply Hid, elem_of_app. right. apply list_elem_of_here. }
    rewrite JsMap_set_fresh.
    + change (JsMap.values m2) with (map snd m2) in IH.
      rewrite IH; rewrite <- app_assoc; [done|]. by split.
    + apply JsMap_get_None. rewrite map_app in Hnd.
      apply NoDup_app in Hnd as (_ & Hdisj & _). intros Hin.
      apply (Hdisj _ Hin). apply list_elem_of_here.
Qed.

Lemma initialize_loads w m :
  well_keyed m ->
  snapshot w = Records (JsMap.values m) ->
  fault w OpMkdir METADATA_DIR = None ->
  fault w OpReadFile METADATA_FILE = None ->
  let out := metadataStore.initialize (restarted w) in
  out.1 = Ok tt
  /\ metadata (store out.2) = m
  /\ initialized (store out.2) = true
  /\ world out.2 = w.
Proof.
  intros Hwk Hsnap Hmk Hrd. cbv zeta.
  unfold metadataStore.initialize.
  rewrite (bind_ok _ _ _ (restarted w) (restarted w)) by reflexivity.
  change (initialized (store (restarted w))) with false. cbv iota.
  assert (Hread : fs.readSnapshot (restarted w) = (Ok (JsMap.values m), restarted w)).
  { unfold fs.readSnapshot.
    rewrite (bind_ok _ _ _ _ _ (check_fault_none _ _ (restarted w) Hrd)).
    unfold bind, get_st. cbn [restarted world]. by rewrite Hsnap. }
  destruct (for_of_map_set (JsMap.values m) (restarted w)) as (s' & E & Hm & Hi & Hw).
  erewrite try_catch_ok.
  2:{ rewrite (bind_ok _ _ _ tt (restarted w)).
      2:{ unfold fs.mkdir. by apply check_fault_none. }
      rewrite (bind_ok _ _ _ tt s').
      2:{ unfold try_catch. by rewrite (bind_ok _ _ _ _ _ Hread), E. }
      reflexivity. }
  cbn [fst snd]. simpl_st.
  split; [done|]. split; [|by split].
  rewrite Hm. cbn [restarted store metadata].
  apply (reload_values m []). exact Hwk.
Qed.

(** Persist, then restart: after a successful [addFile] the snapshot file
    lists the records of the map, and a process that starts anew on that file
    system loads exactly the map the old process had, in the same order. *)
Theorem restart_recovers_store cfg fileData s :
  initialized (store s) = true ->
  well_keyed (metadata (store s)) ->
  fault (world s) OpWriteFile METADATA_FILE = None ->
  fault (world s) OpMkdir METADATA_DIR = None ->
  fault (world s) OpReadFile METADATA_FILE = None ->
  let s1 := (metadataStore.addFile cfg fileData s).2 in
  let out := metadataStore.initialize (restarted (world s1)) in
  snapshot (world s1) = Records (JsMap.values (metadata (store s1)))
  /\ out.1 = Ok tt
  /\ metadata (store out.2) = metadata (store s1)
  /\ initialized (store out.2) = true.
Proof.
  intros Hinit Hwk Hw Hmk Hrd. cbv zeta.
  rewrite (addFile_ok _ _ _ Hinit Hw). cbn [snd].
  set (record := record_of cfg fileData (clock (world s))).
  split; [reflexivity|].
  destruct (initialize_loads (world (added record s))
              (metadata (store (added record s)))) as (H1 & H2 & H3 & _);
    try done.
  unfold added. simpl_st. by apply well_keyed_set.
Qed.

Lemma restart_recovers_store_witness :
  let s1 := (metadataStore.addFile default_config Fixtures.notes_file
               Fixtures.fresh).2 in
  metadata (store (metadataStore.initialize (restarted (world s1))).2)
  = metadata (store s1).
Proof.
  destruct (restart_recovers_store default_config Fixtures.notes_file
              Fixtures.fresh eq_refl well_keyed_empty eq_refl eq_refl eq_refl)
    as (_ & _ & H & _).
  exact H.
Defined.

(** A process that finds no snapshot file starts with an empty store; one
    that finds a file it cannot parse fails to initialize and stays
    uninitialized, so the next call of the store tries again. *)
Theorem initialize_without_snapshot w :
  fault w OpMkdir METADATA_DIR = None ->
  fault w OpReadFile METADATA_FILE = None ->
  (snapshot w = Absent ->
     metadataStore.initialize (restarted w)
     = (Ok tt, st_initialized true (restarted w)))
  /\ (snapshot w = Corrupt ->
     metadataStore.initialize (restarted w)
     = (Throw (InitFailed SyntaxError), restarted w)).
Proof.
  intros Hmk Hrd.
  split; intros Hsnap;
    unfold metadataStore.initialize, fs.mkdir, fs.readSnapshot, check_fault;
    unfold_m; cbn [restarted store initialized world];
    rewrite Hmk; cbn [restarted store initialized world];
    rewrite Hrd; cbn [restarted store initialized world];
    by rewrite Hsnap.
Qed.

Lemma initialize_without_snapshot_witness :
  metadataStore.initialize
    (restarted {| disk := ∅; snapshot := Absent; clock := 0;
                  fault := Fixtures.no_fault |})
  = (Ok tt, st_initialized true
              (restarted {| disk := ∅; snapshot := Absent; clock := 0;
                            fault := Fixtures.no_fault |})).
Proof.
  exact (proj1 (initialize_without_snapshot
                  {| disk := ∅; snapshot := Absent; clock := 0;
                     fault := Fixtures.no_fault |} eq_refl eq_refl) eq_refl).
Defined.

(** ** The metadata store: bytes accounted for, expiry *)

Lemma total_size_from l : forall a,
  fold_left (fun total record => total + size record) l a
  = a + metadataStore.total_size l.
Proof.
  unfold metadataStore.total_size.
  induction l as [|r l IH]; intros a; simpl; [lia|].
  rewrite (IH (a + size r)), (IH (0 + size r)). lia.
Qed.

Lemma total_size_cons r l :
  metadataStore.total_size (r :: l) = size r + metadataStore.total_size l.
Proof.
  unfold metadataStore.total_size at 1. simpl. rewrite total_size_from. lia.
Qed.

Lemma total_size_set k r (m : JsMap.t FileRecord) :
  metadataStore.total_size (JsMap.values (JsMap.set k r m))
  = metadataStore.total_size (JsMap.values m)
    - match JsMap.get k m with Some old => size old | None => 0 end
    + size r.
Proof.
  unfold JsMap.values. induction m as [|[k0 r0] m IH].
  - unfold metadataStore.total_size. simpl. lia.
  - simpl. destruct (String.eqb k k0); cbn [map snd].
    + rewrite !total_size_cons. lia.
    + rewrite !total_size_cons, IH. lia.
Qed.

Lemma total_size_delete k r (m : JsMap.t FileRecord) :
  NoDup (map fst m) ->
  JsMap.get k m = Some r ->
  metadataStore.total_size (JsMap.values (JsMap.delete k m))
  = metadataStore.total_size (JsMap.values m) - size r.
Proof.
  unfold JsMap.values. induction m as [|[k0 r0] m IH]; [done|].
  intros [Hk0 Hnd]%NoDup_cons. simpl.
  destruct (String.eqb_spec k k0) as [->|Hne].
  - intros [= ->]. rewrite JsMap_delete_absent by (by apply JsMap_get_None).
    rewrite total_size_cons. lia.
  - intros Hget. cbn [map snd].
    rewrite !total_size_cons, IH by done. lia.
Qed.

(** After [addFile] the bytes accounted for are those of before, less the
    size of the record that had the same file name, if any, plus the size of
    the new file. *)
Theorem addFile_accounting cfg fileData s :
  initialized (store s) = true ->
  let out := metadataStore.addFile cfg fileData s in
  (metadataStore.getTotalStorageUsed out.2).1 =
    Ok (currentUsage s
        - match JsMap.get (f_filename fileData) (metadata (store s)) with
          | Some old => size old
          | None => 0
          end
        + f_size fileData).
Proof.
  intros Hinit. cbv zeta.
  destruct (addFile_state cfg fileData s Hinit) as (Hi & Hm & _).
  rewrite (getTotalStorageUsed_ok _ Hi), Hm. cbn [fst]. f_equal.
  by rewrite total_size_set.
Qed.

Lemma addFile_accounting_witness :
  (metadataStore.getTotalStorageUsed
     (metadataStore.addFile default_config Fixtures.notes_file Fixtures.fresh).2).1
  = Ok 5.
Proof.
  exact (addFile_accounting default_config Fixtures.notes_file Fixtures.fresh
           eq_refl).
Defined.

(** After [deleteFile] of a record the store holds, the bytes accounted for
    are those of before less the size of that record. *)
Theorem deleteFile_accounting k r s :
  initialized (store s) = true ->
  well_keyed (metadata (store s)) ->
  JsMap.get k (metadata (store s)) = Some r ->
  (metadataStore.getTotalStorageUsed (metadataStore.deleteFile k s).2).1
  = Ok (currentUsage s - size r).
Proof.
  intros Hinit [Hnd _] Hget.
  destruct (deleteFile_spec k s Hinit) as (res & s' & E & Hi & _ & Hm & _).
  rewrite E. cbn [snd]. rewrite (getTotalStorageUsed_ok _ Hi), Hm. cbn [fst].
  f_equal. by apply total_size_delete.
Qed.

Lemma deleteFile_accounting_witness :
  (metadataStore.getTotalStorageUsed
     (metadataStore.deleteFile Fixtures.notes_name
        (Fixtures.diverged Fixtures.no_fault)).2).1
  = Ok (5 - 5).
Proof.
  refine (deleteFile_accounting Fixtures.notes_name Fixtures.notes_record
            (Fixtures.diverged Fixtures.no_fault) eq_refl _ eq_refl).
  split.
  - apply NoDup_singleton.
  - intros k r Hin. apply list_elem_of_singleton in Hin. by injection Hin as -> ->.
Defined.

Lemma JsMap_elem_set_here {V} k (v : V) m : (k, v) ∈ JsMap.set k v m.
Proof.
  induction m as [|[k0 v0] m IH]; simpl; [apply list_elem_of_here|].
  destruct (String.eqb k k0); [apply list_elem_of_here|].
  by apply list_elem_of_further.
Qed.

Lemma getExpiredFiles_ok s :
  initialized (store s) = true ->
  metadataStore.getExpiredFiles s =
    (Ok (filter (fun record => expiresAt record <= clock (world s))
                (JsMap.values (metadata (store s)))), s).
Proof.
  intros H. unfold metadataStore.getExpiredFiles.
  by rewrite (bind_ok _ _ _ _ _ (ensure_initialized_done s H)).
Qed.

(** The life of a record: [getExpiredFiles] reports the record [addFile]
    made exactly from the time that is [fileRetentionMs] after the upload. *)
Theorem record_expires_after_retention cfg fileData s t :
  initialized (store s) = true ->
  let out := metadataStore.addFile cfg fileData s in
  let record := record_of cfg fileData (clock (world s)) in
  exists expired,
    (metadataStore.getExpiredFiles (at_time t out.2)).1 = Ok expired
    /\ (record ∈ expired <-> clock (world s) + fileRetentionMs cfg <= t).
Proof.
  intros Hinit. cbv zeta.
  destruct (addFile_state cfg fileData s Hinit) as (Hi & Hm & _).
  rewrite getExpiredFiles_ok by done. eexists. split; [reflexivity|].
  cbn [at_time world clock store]. rewrite list_elem_of_filter. cbn [expiresAt record_of].
  split; [by intros [? _]|]. intros Hle. split; [done|].
  rewrite Hm. apply list_elem_of_fmap.
  exists (f_filename fileData, record_of cfg fileData (clock (world s))).
  split; [done|]. apply JsMap_elem_set_here.
Qed.

Lemma record_expires_after_retention_witness :
  exists expired,
    (metadataStore.getExpiredFiles
       (at_time (Fixtures.noon + 86400000)
          (metadataStore.addFile default_config Fixtures.notes_file
             Fixtures.fresh).2)).1 = Ok expired
    /\ Fixtures.notes_record ∈ expired.
Proof.
  destruct (record_expires_after_retention default_config Fixtures.notes_file
              Fixtures.fresh (Fixtures.noon + 86400000) eq_refl)
    as (expired & H1 & H2).
  exists expired. split; [exact H1|]. apply H2. vm_compute. discriminate.
Defined.

(** ** Reconciling the metadata with the disk *)

Lemma access_result p s :
  fs.access p s =
    (if accessible s p then Ok tt
     else Throw (FsError match fault (world s) OpAccess p with
                         | Some c => c
                         | None => ENOENT
                         end OpAccess p), s).
Proof.
  unfold fs.access, check_fault, accessible. unfold_m.
  destruct (fault (world s) OpAccess p); [done|].
  by destruct (disk (world s) !! p).
Qed.

Lemma collect_orphaned_spec records : forall s,
  metadataStore.collect_orphaned records s =
    (Ok (map id (filter (fun r => accessible s (path r) = false) records)), s).
Proof.
  induction records as [|r records IH]; intros s; [done|].
  cbn [metadataStore.collect_orphaned].
  rewrite (bind_ok _ _ s (negb (accessible s (path r))) s).
  2:{ unfold try_catch, bind. rewrite access_result.
      by destruct (accessible s (path r)). }
  rewrite (bind_ok _ _ _ _ _ (IH s)). unfold ret. f_equal. f_equal.
  rewrite filter_cons. destruct (accessible s (path r)); by case_decide.
Qed.

Lemma for_of_map_delete ids : forall s,
  exists s',
    for_of ids metadataStore.map_delete s = (Ok tt, s')
    /\ metadata (store s') =
       fold_left (fun m k => JsMap.delete k m) ids (metadata (store s))
    /\ initialized (store s') = initialized (store s)
    /\ world s' = world s
    /\ (ids = [] -> s' = s).
Proof.
  induction ids as [|k ids IH]; intros s.
  - by exists s.
  - destruct (IH (st_metadata (JsMap.delete k (metadata (store s)))
                    (st_log (EvMapDelete k) s))) as (s' & E & Hm & Hi & Hw & _).
    exists s'. split; [|by repeat split].
    cbn [for_of]. erewrite bind_ok; [exact E|]. reflexivity.
Qed.

Lemma get_fold_delete k ids : forall m : JsMap.t FileRecord,
  JsMap.get k (fold_left (fun m k => JsMap.delete k m) ids m)
  = if bool_decide (k ∈ ids) then None else JsMap.get k m.
Proof.
  induction ids as [|k0 ids IH]; intros m; simpl.
  - done.
  - rewrite IH. destruct (decide (k = k0)) as [->|Hne].
    + rewrite (bool_decide_eq_true_2 (k0 ∈ k0 :: ids)) by apply list_elem_of_here.
      rewrite JsMap_get_delete_eq. by case_bool_decide.
    + rewrite JsMap_get_delete_ne by done.
      rewrite (bool_decide_ext (k ∈ k0 :: ids) (k ∈ ids)); [done|].
      rewrite elem_of_cons. split; [by intros [?|?] | by right].
Qed.

Lemma cleanOrphanedMetadata_run s :
  initialized (store s) = true ->
  well_keyed (metadata (store s)) ->
  fault (world s) OpWriteFile METADATA_FILE = None ->
  let orphans :=
    filter (fun r => accessible s (path r) = false)
           (JsMap.values (metadata (store s))) in
  let out := metadataStore.cleanOrphanedMetadata s in
  out.1 = Ok (Z.of_nat (length orphans))
  /\ (forall k,
        JsMap.get k (metadata (store out.2)) =
          match JsMap.get k (metadata (store s)) with
          | Some r => if accessible s (path r) then Some r else None
          | None => None
          end)
  /\ (orphans = [] -> out.2 = s)
  /\ (orphans <> [] ->
        snapshot (world out.2) = Records (JsMap.values (metadata (store out.2))))
  /\ disk (world out.2) = disk (world s)
  /\ fault (world out.2) = fault (world s)
  /\ initialized (store out.2) = true.
Proof.
  intros Hinit [Hnd Hid] Hw. cbv zeta.
  set (orphans := filter (fun r => accessible s (path r) = false)
                         (JsMap.values (metadata (store s)))).
  unfold metadataStore.cleanOrphanedMetadata.
  rewrite (bind_ok _ _ _ _ _ (ensure_initialized_done s Hinit)).
  rewrite (bind_ok _ _ _ s s) by reflexivity.
  rewrite (bind_ok _ _ _ _ _ (collect_orphaned_spec _ s)). fold orphans.
  destruct (for_of_map_delete (map id orphans) s)
    as (s' & E & Hm & Hi & Hworld & Hnil).
  rewrite (bind_ok _ _ _ _ _ E). rewrite length_map.
  assert (Hget : forall k,
    JsMap.get k (metadata (store s')) =
      match JsMap.get k (metadata (store s)) with
      | Some r => if accessible s (path r) then Some r else None
      | None => None
      end).
  { intros k. rewrite Hm, get_fold_delete.
    destruct (JsMap.get k (metadata (store s))) as [r|] eqn:Hk.
    - assert (k = id r) as -> by (by apply Hid, JsMap_get_Some).
      destruct (accessible s (path r)) eqn:Hacc.
      + rewrite bool_decide_eq_false_2; [done|].
        intros (r' & Hidr & Hin)%list_elem_of_fmap.
        apply list_elem_of_filter in Hin as [Hbad Hin].
        apply list_elem_of_fmap in Hin as ([k' r''] & -> & Hin). simpl in *.
        assert (k' = id r'') as -> by (by apply Hid).
        rewrite Hidr in Hk. apply JsMap_get_Some in Hin; [|done]. congruence.
      + rewrite bool_decide_eq_true_2; [done|].
        apply list_elem_of_fmap. exists r. split; [done|].
        apply list_elem_of_filter. split; [done|].
        apply list_elem_of_fmap. exists (id r, r). split; [done|].
        by apply JsMap_get_Some.
    - by case_bool_decide. }
  destruct orphans as [|o orphans'] eqn:Eo.
  - rewrite (Hnil eq_refl). cbn [length Z.of_nat]. unfold bind, ret.
    cbn [fst snd]. rewrite (Hnil eq_refl) in Hget. by repeat split.
  - assert (Hpersist : metadataStore.persist s' =
      (Ok tt, st_snapshot (Records (JsMap.values (metadata (store s'))))
                (st_log (EvWriteSnapshot (JsMap.values (metadata (store s')))) s'))).
    { unfold metadataStore.persist, fs.writeSnapshot, check_fault. unfold_m.
      simpl_st. rewrite Hworld, Hw. reflexivity. }
    change (0 <? Z.of_nat (length (o :: orphans'))) with true. cbv iota.
    rewrite (bind_ok _ _ _ _ _ Hpersist). unfold ret. cbn [fst snd]. simpl_st.
    split; [done|]. split; [exact Hget|]. split; [done|]. split; [done|].
    rewrite Hworld, Hi. by repeat split.
Qed.

(** [cleanOrphanedMetadata] drops exactly the records whose file cannot be
    accessed (for whatever reason) and keeps the others as they are; it
    returns how many it dropped, rewrites the snapshot only if it dropped
    any, and touches no file. *)
Theorem cleanOrphanedMetadata_spec s :
  initialized (store s) = true ->
  well_keyed (metadata (store s)) ->
  fault (world s) OpWriteFile METADATA_FILE = None ->
  let orphans :=
    filter (fun r => accessible s (path r) = false)
           (JsMap.values (metadata (store s))) in
  let out := metadataStore.cleanOrphanedMetadata s in
  out.1 = Ok (Z.of_nat (length orphans))
  /\ (forall k,
        JsMap.get k (metadata (store out.2)) =
          match JsMap.get k (metadata (store s)) with
          | Some r => if accessible s (path r) then Some r else None
          | None => None
          end)
  /\ (orphans = [] -> out.2 = s)
  /\ (orphans <> [] ->
        snapshot (world out.2) = Records (JsMap.values (metadata (store out.2))))
  /\ disk (world out.2) = disk (world s).
Proof.
  intros Hinit Hwk Hw.
  destruct (cleanOrphanedMetadata_run s Hinit Hwk Hw) as (H1 & H2 & H3 & H4 & H5 & _).
  by repeat split.
Qed.

Lemma cleanOrphanedMetadata_spec_witness :
  let s := Fixtures.diverged Fixtures.no_fault in
  (metadataStore.cleanOrphanedMetadata s).1 = Ok 1
  /\ JsMap.get Fixtures.notes_name
       (metadata (store (metadataStore.cleanOrphanedMetadata s).2)) = None.
Proof.
  assert (Hwk : well_keyed (metadata (store (Fixtures.diverged Fixtures.no_fault)))).
  { split; [apply NoDup_singleton|].
    intros k r Hin. apply list_elem_of_singleton in Hin. by injection Hin as -> ->. }
  destruct (cleanOrphanedMetadata_spec (Fixtures.diverged Fixtures.no_fault)
              eq_refl Hwk eq_refl) as (H1 & H2 & _).
  split; [exact H1 | exact (H2 Fixtures.notes_name)].
Defined.

(** ** What the sweeps leave alone *)

Lemma deleteFile_disk k s :
  initialized (store s) = true ->
  disk (world (metadataStore.deleteFile k s).2) = disk (world s).
Proof.
  intros Hinit.
  unfold metadataStore.deleteFile, metadataStore.ensure_initialized,
    metadataStore.map_delete, metadataStore.persist, fs.writeSnapshot,
    check_fault. unfold_m. simpl_st. rewrite Hinit. simpl_st.
  destruct (JsMap.get k (metadata (store s))); [|done]. simpl_st.
  destruct (fault (world s) OpWriteFile METADATA_FILE) as [c|];
    [by destruct (fails_on_open c) | done].
Qed.

Lemma unlink_disk p s q :
  q <> p -> disk (world (fs.unlink p s).2) !! q = disk (world s) !! q.
Proof.
  intros Hne.
  destruct (fault (world s) OpUnlink p) as [c|] eqn:Hf.
  - by rewrite (unlink_fault _ _ _ Hf).
  - destruct (disk (world s) !! p) as [b|] eqn:Hd.
    + rewrite (unlink_ok _ _ _ Hf Hd). simpl_st. by apply lookup_delete_ne.
    + by rewrite (unlink_enoent _ _ Hf Hd).
Qed.

Lemma expire_loop_frame expiredFiles : forall deletedCount s,
  initialized (store s) = true ->
  let out := lifecycleService.expire_loop expiredFiles deletedCount s in
  metadata (store out.2)
  = fold_left (fun m k => JsMap.delete k m) (map id expiredFiles) (metadata (store s))
  /\ (forall q, (forall r, r ∈ expiredFiles -> path r <> q) ->
        disk (world out.2) !! q = disk (world s) !! q).
Proof.
  induction expiredFiles as [|file rest IH]; intros deletedCount s Hinit; [done|].
  cbv zeta.
  destruct (expire_turn file s Hinit) as (deleted & s1 & E1 & Hi1 & _ & Hm1 & _).
  assert (Hdisk : forall q, q <> path file ->
                    disk (world s1) !! q = disk (world s) !! q).
  { intros q Hq.
    destruct (unlink_attempt (path file) s) as (r1 & s0 & E0 & Hst0 & _).
    assert (E0' : try_catch (fs.unlink (path file)) (fun _ => ret tt) s = (Ok tt, s0)).
    { unfold try_catch. rewrite E0. by destruct r1 as [[]|e]. }
    pose proof (unlink_disk (path file) s q Hq) as Hu. rewrite E0 in Hu.
    cbn [snd] in Hu. rewrite <- Hu.
    pose proof (deleteFile_disk (id file) s0) as Hd.
    rewrite Hst0 in Hd. specialize (Hd Hinit).
    unfold try_catch at 1 in E1. rewrite (bind_ok _ _ _ _ _ E0') in E1.
    unfold bind in E1.
    destruct (metadataStore.deleteFile (id file) s0) as [[o|e] s2];
      cbn [snd] in Hd; unfold ret in E1; injection E1 as _ <-; by rewrite Hd. }
  cbn [lifecycleService.expire_loop]. rewrite (bind_ok _ _ _ _ _ E1).
  destruct (IH (if deleted then deletedCount + 1 else deletedCount) s1 Hi1)
    as [Hm Hd].
  split.
  - rewrite Hm, Hm1. reflexivity.
  - intros q Hq. rewrite Hd.
    + apply Hdisk. intros ->. by apply (Hq file (list_elem_of_here _ _)).
    + intros r Hr. by apply Hq, list_elem_of_further.
Qed.

(** The expiry sweep leaves alone what has not expired: a record whose
    expiry lies in the future is still in the map, unchanged, and a file that
    is not the file of an expired record is as it was. *)
Theorem cleanupExpiredFiles_spares_unexpired s :
  initialized (store s) = true ->
  well_keyed (metadata (store s)) ->
  let out := lifecycleService.cleanupExpiredFiles s in
  (forall k r,
     JsMap.get k (metadata (store s)) = Some r ->
     clock (world s) < expiresAt r ->
     JsMap.get k (metadata (store out.2)) = Some r)
  /\ (forall q,
        (forall r, r ∈ JsMap.values (metadata (store s)) ->
                   expiresAt r <= clock (world s) -> path r <> q) ->
        disk (world out.2) !! q = disk (world s) !! q).
Proof.
  intros Hinit [Hnd Hid]. cbv zeta. unfold lifecycleService.cleanupExpiredFiles.
  rewrite (bind_ok _ _ _ _ _ (getExpiredFiles_ok s Hinit)).
  destruct (expire_loop_frame
              (filter (fun record => expiresAt record <= clock (world s))
                      (JsMap.values (metadata (store s)))) 0 s Hinit) as [Hm Hd].
  split.
  - intros k r Hget Hfuture. rewrite Hm, get_fold_delete.
    rewrite bool_decide_eq_false_2; [done|].
    intros (r' & Hidr & Hin)%list_elem_of_fmap.
    apply list_elem_of_filter in Hin as [Hexp Hin].
    apply list_elem_of_fmap in Hin as ([k' r''] & -> & Hin). simpl in *.
    assert (k' = id r'') as -> by (by apply Hid).
    apply JsMap_get_Some in Hin; [|done]. rewrite <- Hidr in Hin.
    assert (r'' = r) as -> by congruence. lia.
  - intros q Hq. apply Hd. intros r [Hexp Hin]%list_elem_of_filter. by apply Hq.
Qed.

Lemma cleanupExpiredFiles_spares_unexpired_witness :
  JsMap.get Fixtures.notes_name
    (metadata (store (lifecycleService.cleanupExpiredFiles
                        (Fixtures.diverged Fixtures.no_fault)).2))
  = Some Fixtures.notes_record.
Proof.
  refine (proj1 (cleanupExpiredFiles_spares_unexpired
                   (Fixtures.diverged Fixtures.no_fault) eq_refl _)
            Fixtures.notes_name Fixtures.notes_record eq_refl _).
  - split; [apply NoDup_singleton|].
    intros k r Hin. apply list_elem_of_singleton in Hin. by injection Hin as -> ->.
  - vm_compute. reflexivity.
Defined.

Lemma join_inj dir a b : Path.join dir a = Path.join dir b -> a = b.
Proof.
  unfold Path.join. induction dir as [|c dir IH]; simpl.
  - intros [= H]. exact H.
  - intros [= H]. by apply IH.
Qed.

Lemma orphan_loop_frame cfg known files : forall deletedCount s q,
  (forall name, name ∈ files -> Js.startsWith_dot name = false ->
                name ∉ known -> Path.join (uploadDir cfg) name <> q) ->
  disk (world (lifecycleService.orphan_loop cfg files known deletedCount s).2) !! q
  = disk (world s) !! q.
Proof.
  induction files as [|name rest IH]; intros deletedCount s q Hq; [done|].
  cbn [lifecycleService.orphan_loop].
  assert (Hrest : forall name', name' ∈ rest -> Js.startsWith_dot name' = false ->
            name' ∉ known -> Path.join (uploadDir cfg) name' <> q).
  { intros name' Hin. by apply Hq, list_elem_of_further. }
  destruct (String.eqb name ".gitkeep" || Js.startsWith_dot name) eqn:Hhidden;
    [by apply IH|].
  apply orb_false_iff in Hhidden as [_ Hdot].
  destruct (bool_decide (name ∈ known)) eqn:Hknown; cbn [negb]; [by apply IH|].
  apply bool_decide_eq_false in Hknown.
  set (p := Path.join (uploadDir cfg) name).
  assert (Hp : q <> p).
  { intros ->. by apply (Hq name (list_elem_of_here _ _) Hdot Hknown). }
  pose proof (unlink_disk p s q Hp) as Hu.
  destruct (fs.unlink p s) as [[[]|e] s1] eqn:E; cbn [snd] in Hu.
  - rewrite (bind_ok _ _ s true s1).
    2:{ unfold try_catch. by rewrite (bind_ok _ _ _ _ _ E). }
    by rewrite IH.
  - rewrite (bind_ok _ _ s false s1).
    2:{ unfold try_catch. by rewrite (bind_throw _ _ _ _ _ E). }
    by rewrite IH.
Qed.

Lemma readdir_fail dir s c :
  fault (world s) OpReaddir dir = Some c ->
  fs.readdir dir s = (Throw (FsError c OpReaddir dir), s).
Proof.
  intros Hf. unfold fs.readdir.
  by rewrite (bind_throw _ _ _ _ _ (check_fault_some _ _ _ _ Hf)).
Qed.

(** The sweep of orphaned files deletes nothing it should keep: the file
    named by a record of the store, and any file whose name starts with a
    dot, is in the upload directory afterwards exactly as before. *)
Theorem cleanupOrphanedFiles_keeps_known cfg s name :
  initialized (store s) = true ->
  (exists r, r ∈ JsMap.values (metadata (store s)) /\ filename r = name)
  \/ Js.startsWith_dot name = true ->
  let out := lifecycleService.cleanupOrphanedFiles cfg s in
  disk (world out.2) !! Path.join (uploadDir cfg) name
  = disk (world s) !! Path.join (uploadDir cfg) name.
Proof.
  intros Hinit Hkeep. cbv zeta. unfold lifecycleService.cleanupOrphanedFiles.
  destruct (fault (world s) OpReaddir (uploadDir cfg)) as [c|] eqn:Hlist.
  { unfold try_catch.
    by rewrite (bind_throw _ _ _ _ _ (readdir_fail _ _ _ Hlist)). }
  unfold try_catch.
  rewrite (bind_ok _ _ _ _ _ (readdir_ok _ _ Hlist)).
  rewrite (bind_ok _ _ _ _ _ (getAllFiles_ok _ Hinit)).
  pose proof (orphan_loop_frame cfg
                (list_to_set (map filename (JsMap.values (metadata (store s)))))
                (listing (uploadDir cfg) s) 0 s
                (Path.join (uploadDir cfg) name)) as Hframe.
  destruct (lifecycleService.orphan_loop _ _ _ _ _) as [[n|e] s'];
    cbn [snd] in *; apply Hframe.
  all: intros name' _ Hdot Hunknown Heq%join_inj; subst name';
    destruct Hkeep as [(r & Hr & Hname)|Hhidden]; [|congruence];
    apply Hunknown, elem_of_list_to_set, list_elem_of_fmap; by exists r.
Qed.

Lemma cleanupOrphanedFiles_keeps_known_witness :
  disk (world (lifecycleService.cleanupOrphanedFiles default_config
                 Fixtures.kept).2) !! Fixtures.gitkeep_path
  = Some [].
Proof.
  exact (cleanupOrphanedFiles_keeps_known default_config Fixtures.kept ".gitkeep"
           eq_refl (or_intror eq_refl)).
Defined.

(** When the upload directory cannot be listed, the sweep of orphaned files
    gives up quietly: it reports zero and changes nothing. *)
Theorem cleanupOrphanedFiles_unlistable cfg s c :
  fault (world s) OpReaddir (uploadDir cfg) = Some c ->
  lifecycleService.cleanupOrphanedFiles cfg s = (Ok 0, s).
Proof.
  intros Hlist. unfold lifecycleService.cleanupOrphanedFiles, try_catch.
  by rewrite (bind_throw _ _ _ _ _ (readdir_fail _ _ _ Hlist)).
Qed.

Lemma cleanupOrphanedFiles_unlistable_witness :
  lifecycleService.cleanupOrphanedFiles default_config
    (Fixtures.state JsMap.empty ∅ 0
       (fun op _ => match op with OpReaddir => Some EACCES | _ => None end))
  = (Ok 0,
     Fixtures.state JsMap.empty ∅ 0
       (fun op _ => match op with OpReaddir => Some EACCES | _ => None end)).
Proof.
  exact (cleanupOrphanedFiles_unlistable default_config
           (Fixtures.state JsMap.empty ∅ 0
              (fun op _ => match op with OpReaddir => Some EACCES | _ => None end))
           EACCES eq_refl).
Defined.

(** ** The upload route: what an answer tells about the state *)

Lemma load_snapshot_outcome s :
  exists r s1,
    try_catch (records <- fs.readSnapshot ;; for_of records metadataStore.map_set)
      (fun error => match error with
                    | FsError ENOENT _ _ => ret tt
                    | _ => throw error
                    end) s = (r, s1)
    /\ world s1 = world s.
Proof.
  unfold try_catch, fs.readSnapshot.
  destruct (fault (world s) OpReadFile METADATA_FILE) as [c|] eqn:Hrd.
  { rewrite (bind_throw _ _ _ (FsError c OpReadFile METADATA_FILE) s).
    2:{ by rewrite (bind_throw _ _ _ _ _ (check_fault_some _ _ _ _ Hrd)). }
    destruct c; by eexists _, _. }
  destruct (snapshot (world s)) as [|l|] eqn:Hsnap.
  - rewrite (bind_throw _ _ _ (FsError ENOENT OpReadFile METADATA_FILE) s).
    2:{ rewrite (bind_ok _ _ _ _ _ (check_fault_none _ _ _ Hrd)).
        unfold bind, get_st. by rewrite Hsnap. }
    by eexists _, _.
  - destruct (for_of_map_set l s) as (s1 & E & _ & _ & Hw).
    rewrite (bind_ok _ _ _ l s).
    2:{ rewrite (bind_ok _ _ _ _ _ (check_fault_none _ _ _ Hrd)).
        unfold bind, get_st. by rewrite Hsnap. }
    rewrite E. by eexists _, _.
  - rewrite (bind_throw _ _ _ SyntaxError s).
    2:{ rewrite (bind_ok _ _ _ _ _ (check_fault_none _ _ _ Hrd)).
        unfold bind, get_st. by rewrite Hsnap. }
    by eexists _, _.
Qed.

Lemma initialize_outcome s r s' :
  metadataStore.initialize s = (r, s') ->
  world s' = world s /\ (r = Ok tt -> initialized (store s') = true).
Proof.
  unfold metadataStore.initialize.
  rewrite (bind_ok _ _ _ s s) by reflexivity.
  destruct (initialized (store s)) eqn:Hinit; [by intros [= <- <-]|].
  unfold try_catch at 1, fs.mkdir.
  destruct (fault (world s) OpMkdir METADATA_DIR) as [c|] eqn:Hmk.
  { rewrite (bind_throw _ _ _ _ _ (check_fault_some _ _ _ _ Hmk)).
    by intros [= <- <-]. }
  rewrite (bind_ok _ _ _ _ _ (check_fault_none _ _ _ Hmk)).
  destruct (load_snapshot_outcome s) as (rl & s1 & E & Hw).
  destruct rl as [[]|e].
  - rewrite (bind_ok _ _ _ _ _ E). unfold set_initialized. by intros [= <- <-].
  - rewrite (bind_throw _ _ _ _ _ E). unfold throw. by intros [= <- <-].
Qed.

Lemma ensure_initialized_outcome s r s' :
  metadataStore.ensure_initialized s = (r, s') ->
  world s' = world s /\ (r = Ok tt -> initialized (store s') = true).
Proof.
  unfold metadataStore.ensure_initialized.
  rewrite (bind_ok _ _ _ s s) by reflexivity.
  destruct (initialized (store s)) eqn:Hinit.
  - by intros [= <- <-].
  - apply initialize_outcome.
Qed.

Lemma getTotalStorageUsed_outcome s t s' :
  metadataStore.getTotalStorageUsed s = (Ok t, s') ->
  world s' = world s /\ initialized (store s') = true /\ t = currentUsage s'.
Proof.
  unfold metadataStore.getTotalStorageUsed. intros H.
  bind_inv H u s1 E. apply ensure_initialized_outcome in E as [Hw Hi].
  destruct u. injection H as <- <-. auto.
Qed.

Lemma checkStorageLimit_next cfg file s s' :
  checkStorageLimit cfg file s = (Ok Next, s') ->
  world s' = world s /\ initialized (store s') = true.
Proof.
  unfold checkStorageLimit, try_catch.
  destruct (bind metadataStore.getTotalStorageUsed _ s) as [[fl|e] s1] eqn:E;
    [|discriminate].
  intros [= -> ->]. bind_inv E t s2 E2.
  apply getTotalStorageUsed_outcome in E2 as (Hw & Hi & _).
  destruct (_ >? _).
  - bind_inv E u s3 E3. discriminate.
  - by injection E as <-.
Qed.

Lemma readFile_state p s r s' : fs.readFile p s = (r, s') -> s' = s.
Proof.
  unfold fs.readFile, check_fault. unfold_m.
  destruct (fault (world s) OpReadFile p); [by intros [= _ <-]|].
  destruct (disk (world s) !! p); by intros [= _ <-].
Qed.

Lemma validateFileMimeType_next cfg fromBuffer file s s' :
  validateFileMimeType cfg fromBuffer file s = (Ok Next, s') -> s' = s.
Proof.
  unfold validateFileMimeType. destruct file as [f|]; [|by intros [= <-]].
  unfold try_catch.
  destruct (bind (fs.readFile (f_path f)) _ s) as [[fl|e] s1] eqn:E.
  - intros [= -> ->]. bind_inv E buf s2 E2. apply readFile_state in E2 as ->.
    destruct (fromBuffer buf) as [mime|]; [|by injection E as <-].
    destruct (negb (String.eqb mime (f_mimetype f))).
    + bind_inv E u s3 E3. discriminate.
    + destruct (negb (includes mime _)); [|by injection E as <-].
      bind_inv E u s3 E3. discriminate.
  - unfold bind, ret. cbn beta.
    destruct (fs.unlink (f_path f) s1) as [[[]|?] ?]; discriminate.
Qed.

Lemma single_state cfg part s file s' :
  Multer.single cfg (Some part) s = (Ok file, s') -> s' = stored cfg part s.
Proof.
  unfold Multer.single.
  destruct (Multer.fileFilter cfg part) as [[]|e]; [|discriminate].
  intros H. bind_inv H u s1 E1.
  apply ensureUploadDir_state in E1 as ->.
  unfold bind at 1, get_st at 1 in H.
  destruct (_ >=? _); [discriminate|].
  bind_inv H u' s2 E2. injection H as _ <-.
  unfold fs.writeFile, check_fault, bind, ret, throw, get_st, log, set_disk in E2.
  simpl_st in E2.
  destruct (fault (world s) OpWriteFile _); [discriminate|].
  by injection E2 as <-.
Qed.

Lemma addFile_ok_inv cfg fileData s record s' :
  initialized (store s) = true ->
  metadataStore.addFile cfg fileData s = (Ok record, s') ->
  record = record_of cfg fileData (clock (world s)) /\ s' = added record s.
Proof.
  intros Hinit H.
  destruct (fault (world s) OpWriteFile METADATA_FILE) as [c|] eqn:Hf.
  - unfold metadataStore.addFile, metadataStore.ensure_initialized,
      metadataStore.map_set, metadataStore.persist, fs.writeSnapshot,
      check_fault, bind, try_catch, ret, throw, get_st, log, set_metadata,
      set_snapshot in H.
    simpl_st in H. rewrite Hinit in H. simpl_st in H. rewrite Hf in H.
    by destruct (fails_on_open c).
  - rewrite (addFile_ok _ _ _ Hinit Hf) in H. by injection H as <- <-.
Qed.

Lemma upload_created_state cfg fromBuffer part s record s' :
  upload cfg fromBuffer (Some part) s = (Ok (Created record), s') ->
  record = record_of cfg (stored_file cfg part (clock (world s))) (clock (world s))
  /\ initialized (store s') = true
  /\ fault (world s') = fault (world s)
  /\ disk (world s') = <[path record := content part]> (disk (world s))
  /\ JsMap.get (id record) (metadata (store s')) = Some record
  /\ snapshot (world s') = Records (JsMap.values (metadata (store s'))).
Proof.
  unfold upload, try_catch.
  destruct (bind (Multer.single cfg (Some part)) _ s) as [[r|e] s1] eqn:E.
  2:{ intros [= H _]. by apply errorHandler_not_created in H. }
  intros [= -> ->].
  bind_inv E file s2 Es. pose proof (single_state _ _ _ _ _ Es) as ->.
  apply single_inv in Es as [_ ->].
  bind_inv E flow s3 Ec. destruct flow as [|r].
  2:{ injection E as -> _. by eapply checkStorageLimit_not_created in Ec. }
  apply checkStorageLimit_next in Ec as [Hw3 Hi3].
  bind_inv E flow s4 Ev. destruct flow as [|r].
  2:{ injection E as -> _. by eapply validateFileMimeType_not_created in Ev. }
  apply validateFileMimeType_next in Ev as ->.
  unfold upload_handler in E. bind_inv E rec s5 Ea.
  injection E as -> <-.
  apply (addFile_ok_inv _ _ _ _ _ Hi3) in Ea as [-> ->].
  unfold added. simpl_st. rewrite Hw3. unfold stored. simpl_st.
  split; [done|]. split; [done|]. split; [done|]. split; [done|].
  split; [apply JsMap_get_set_eq | done].
Qed.

(** A [201] is never a half-truth: when the route answers [Created], the
    bytes of the part are on the disk under the path of the record, the size
    in the record is their length, the record is in the map under its id,
    and the snapshot file lists the map. *)
Theorem upload_created_is_committed cfg fromBuffer part s record s' :
  upload cfg fromBuffer (Some part) s = (Ok (Created record), s') ->
  disk (world s') !! path record = Some (content part)
  /\ size record = byteLength (content part)
  /\ JsMap.get (id record) (metadata (store s')) = Some record
  /\ snapshot (world s') = Records (JsMap.values (metadata (store s')))
  /\ id record = filename record.
Proof.
  intros H. apply upload_created_state in H as (Hr & _ & _ & Hd & Hg & Hs).
  split; [rewrite Hd; apply lookup_insert_eq|].
  split; [by rewrite Hr|]. split; [done|]. split; [done|]. by rewrite Hr.
Qed.

Lemma upload_created_is_committed_witness :
  let out := upload default_config Fixtures.signature (Some Fixtures.notes)
               Fixtures.fresh in
  disk (world out.2) !! path Fixtures.notes_record = Some (content Fixtures.notes).
Proof.
  exact (proj1 (upload_created_is_committed default_config Fixtures.signature
                  Fixtures.notes Fixtures.fresh Fixtures.notes_record _ eq_refl)).
Defined.

Lemma includes_string_app needle a s :
  Js.includes_string needle s = true ->
  Js.includes_string needle (a ++ s) = true.
Proof.
  intros H. induction a as [|c a IH]; [exact H|].
  change (Js.startsWith needle (String c (a ++ s))
          || Js.includes_string needle (a ++ s) = true).
  rewrite IH. apply orb_true_r.
Qed.

(** The two errors of [fileFilter] are worded with ['not allowed']. *)
Lemma errorHandler_fileFilter cfg part error :
  Multer.fileFilter cfg part = Throw error ->
  errorHandler error = NotAllowed error.
Proof.
  unfold Multer.fileFilter.
  destruct (includes (Multer.toLowerCase _) _).
  - intros [= <-]. unfold errorHandler, message.
    by rewrite includes_string_app by (by apply includes_string_app).
  - destruct (negb (includes (mimetype part) _)); [|discriminate].
    intros [= <-]. unfold errorHandler, message.
    by rewrite includes_string_app by (by apply includes_string_app).
Qed.

(** A part that [fileFilter] refuses (blocked extension, or declared type
    not on the allow-list) is answered with [400], and nothing has happened:
    no file, no record, no trace. *)
Theorem upload_refused_by_filter cfg fromBuffer part s error :
  Multer.fileFilter cfg part = Throw error ->
  upload cfg fromBuffer (Some part) s = (Ok (NotAllowed error), s)
  /\ status (NotAllowed error) = 400.
Proof.
  intros Hfilter. split; [|done].
  unfold upload, try_catch, Multer.single. rewrite Hfilter.
  unfold bind, throw, ret. by rewrite (errorHandler_fileFilter _ _ _ Hfilter).
Qed.

Lemma upload_refused_by_filter_witness :
  upload default_config Fixtures.signature
    (Some {| originalname := "Setup.EXE"; mimetype := "text/plain";
             content := []; randomString := "00" |}) Fixtures.fresh
  = (Ok (NotAllowed (ExtensionNotAllowed ".exe")), Fixtures.fresh).
Proof.
  exact (proj1 (upload_refused_by_filter default_config Fixtures.signature
                  {| originalname := "Setup.EXE"; mimetype := "text/plain";
                     content := []; randomString := "00" |} Fixtures.fresh
                  (ExtensionNotAllowed ".exe") eq_refl)).
Defined.

(** A request without a file part still passes the quota gate first: it is
    answered [507] when the store already holds more than the quota, and
    [400 No file uploaded] otherwise; nothing changes either way. *)
Theorem upload_without_file cfg fromBuffer s :
  initialized (store s) = true ->
  upload cfg fromBuffer None s =
    (Ok (if currentUsage s >? maxStorageBytes cfg
         then StorageLimitExceeded (currentUsage s) 0
         else NoFileUploaded), s).
Proof.
  intros Hinit.
  destruct (Z.gtb_spec (currentUsage s) (maxStorageBytes cfg)) as [Hgt|Hle].
  - assert (Hc : checkStorageLimit cfg None s =
                 (Ok (Sent (StorageLimitExceeded (currentUsage s) 0)), s)).
    { unfold checkStorageLimit, try_catch.
      rewrite (bind_ok _ _ _ _ _ (getTotalStorageUsed_ok s Hinit)).
      fold (currentUsage s).
      destruct (Z.gtb_spec (currentUsage s + 0) (maxStorageBytes cfg));
        [reflexivity | lia]. }
    unfold upload, try_catch.
    rewrite (bind_ok _ _ _ None s) by reflexivity.
    by rewrite (bind_ok _ _ _ _ _ Hc).
  - unfold upload, try_catch.
    rewrite (bind_ok _ _ _ None s) by reflexivity.
    rewrite (bind_ok _ _ _ Next s) by (apply checkStorageLimit_within; [done|lia]).
    reflexivity.
Qed.

Lemma upload_without_file_witness :
  upload default_config Fixtures.signature None Fixtures.fresh
  = (Ok NoFileUploaded, Fixtures.fresh).
Proof.
  exact (upload_without_file default_config Fixtures.signature Fixtures.fresh
           eq_refl).
Defined.

(** The anti-spoofing guarantee, end to end: a part that passes the filter
    and the quota but whose bytes carry the signature of another type than
    the declared one is answered with the mismatch, its file is gone from
    the upload directory and the store is as it was. *)
Theorem upload_spoofed_is_rejected cfg fromBuffer part s mime :
  initialized (store s) = true ->
  no_faults s ->
  Multer.fileFilter cfg part = Ok tt ->
  byteLength (content part) < maxFileSizeBytes cfg ->
  currentUsage s + byteLength (content part) <= maxStorageBytes cfg ->
  fromBuffer (content part) = Some mime ->
  mime <> mimetype part ->
  let out := upload cfg fromBuffer (Some part) s in
  out.1 = Ok (MimeMismatch (mimetype part) mime)
  /\ disk (world out.2) !! f_path (stored_file cfg part (clock (world s))) = None
  /\ store out.2 = store s
  /\ snapshot (world out.2) = snapshot (world s).
Proof.
  intros Hinit Hnf Hfilter Hsize Hquota Hsniff Hne. cbv zeta.
  unfold upload, try_catch.
  rewrite (bind_ok _ _ _ _ _ (single_stored _ _ _ Hnf Hfilter Hsize)).
  rewrite (bind_ok _ _ _ Next (stored cfg part s)).
  2:{ apply checkStorageLimit_within; [exact Hinit | exact Hquota]. }
  assert (Hd : disk (world (stored cfg part s))
               !! f_path (stored_file cfg part (clock (world s)))
               = Some (content part)).
  { unfold stored. simpl_st. apply lookup_insert_eq. }
  set (f := stored_file cfg part (clock (world s))) in *.
  assert (Hv : validateFileMimeType cfg fromBuffer (Some f) (stored cfg part s) =
    (Ok (Sent (MimeMismatch (mimetype part) mime)),
     st_disk (delete (f_path f) (disk (world (stored cfg part s))))
       (st_log (EvUnlink (f_path f)) (stored cfg part s)))).
  { unfold validateFileMimeType, try_catch.
    rewrite (bind_ok _ _ _ _ _ (readFile_ok _ (stored cfg part s) _ (Hnf _ _) Hd)),
      Hsniff.
    destruct (String.eqb_spec mime (f_mimetype f)) as [Heq|_]; [done|]. cbn [negb].
    by rewrite (bind_ok _ _ _ _ _ (unlink_ok _ (stored cfg part s) _ (Hnf _ _) Hd)). }
  rewrite (bind_ok _ _ _ _ _ Hv).
  unfold ret. cbn [fst snd]. simpl_st.
  split; [done|]. split; [apply lookup_delete_eq | done].
Qed.

Lemma upload_spoofed_is_rejected_witness :
  let out := upload default_config Fixtures.signature (Some Fixtures.disguised)
               Fixtures.fresh in
  out.1 = Ok (MimeMismatch "text/plain" "application/x-msdownload")
  /\ store out.2 = store Fixtures.fresh.
Proof.
  destruct (upload_spoofed_is_rejected default_config Fixtures.signature
              Fixtures.disguised Fixtures.fresh "application/x-msdownload"
              eq_refl (fun _ _ => eq_refl) eq_refl)
    as (H1 & _ & H3 & _); try done.
Defined.

(** ** The routes that read and delete *)

Lemma access_ok p s : accessible s p = true -> fs.access p s = (Ok tt, s).
Proof. intros H. by rewrite access_result, H. Qed.

Lemma access_fails p s :
  accessible s p = false -> exists e, fs.access p s = (Throw e, s).
Proof. intros H. rewrite access_result, H. by eexists. Qed.

Lemma deleteFile_ok k r s :
  initialized (store s) = true ->
  fault (world s) OpWriteFile METADATA_FILE = None ->
  JsMap.get k (metadata (store s)) = Some r ->
  metadataStore.deleteFile k s =
    (Ok (Some r),
     let m := JsMap.delete k (metadata (store s)) in
     st_snapshot (Records (JsMap.values m))
       (st_log (EvWriteSnapshot (JsMap.values m))
          (st_metadata m (st_log (EvMapDelete k) s)))).
Proof.
  intros Hinit Hf Hget.
  unfold metadataStore.deleteFile, metadataStore.ensure_initialized,
    metadataStore.map_delete, metadataStore.persist, fs.writeSnapshot,
    check_fault. unfold_m. simpl_st. rewrite Hinit. simpl_st.
  rewrite Hget. simpl_st. by rewrite Hf.
Qed.

(** The three routes that take a file id answer [404 File not found] for an
    id the store does not hold, and do nothing. *)
Theorem unknown_id_is_not_found fileId k s :
  initialized (store s) = true ->
  validateFileId fileId = inr k ->
  JsMap.get k (metadata (store s)) = None ->
  routes.get_file fileId s = (Ok (Answer FileNotFound), s)
  /\ routes.download fileId s = (Ok (Answer FileNotFound), s)
  /\ routes.delete_file fileId s = (Ok (Answer FileNotFound), s).
Proof.
  intros Hinit Hid Hget.
  unfold routes.get_file, routes.download, routes.delete_file. rewrite Hid.
  unfold try_catch.
  rewrite !(bind_ok _ _ _ _ _ (getFile_ok k s Hinit)), Hget. by repeat split.
Qed.

Lemma unknown_id_is_not_found_witness :
  routes.delete_file "nothing.txt" Fixtures.fresh
  = (Ok (Answer FileNotFound), Fixtures.fresh).
Proof.
  exact (proj2 (proj2 (unknown_id_is_not_found "nothing.txt" "nothing.txt"
                         Fixtures.fresh eq_refl eq_refl eq_refl))).
Defined.

(** [DELETE /api/files/:fileId] on a record the store holds, when [unlink]
    is not made to fail: the answer names the record, and afterwards neither
    the record nor its file exists, whether the file was still there or had
    gone already; the snapshot file lists the records left. *)
Theorem delete_file_removes_both fileId k r s :
  initialized (store s) = true ->
  validateFileId fileId = inr k ->
  JsMap.get k (metadata (store s)) = Some r ->
  fault (world s) OpUnlink (path r) = None ->
  fault (world s) OpWriteFile METADATA_FILE = None ->
  let out := routes.delete_file fileId s in
  out.1 = Ok (FileDeleted (id r) (originalName r))
  /\ JsMap.get k (metadata (store out.2)) = None
  /\ disk (world out.2) !! path r = None
  /\ snapshot (world out.2) = Records (JsMap.values (metadata (store out.2))).
Proof.
  intros Hinit Hid Hget Hu Hw. cbv zeta.
  destruct (routes.delete_file fileId s) as [res s'] eqn:E. cbn [fst snd].
  unfold routes.delete_file in E. rewrite Hid in E. unfold try_catch at 1 in E.
  rewrite (bind_ok _ _ _ _ _ (getFile_ok k s Hinit)), Hget in E.
  destruct (disk (world s) !! path r) as [b|] eqn:Hd.
  - rewrite (bind_ok _ _ s tt
      (st_disk (delete (path r) (disk (world s))) (st_log (EvUnlink (path r)) s)))
      in E.
    2:{ unfold try_catch. by rewrite (unlink_ok _ _ _ Hu Hd). }
    rewrite (bind_ok _ _ _ _ _
               (deleteFile_ok k r
                  (st_disk (delete (path r) (disk (world s)))
                     (st_log (EvUnlink (path r)) s)) Hinit Hw Hget)) in E.
    unfold ret in E. injection E as <- <-. simpl_st.
    split; [done|]. split; [apply JsMap_get_delete_eq|].
    split; [apply lookup_delete_eq | done].
  - rewrite (bind_ok _ _ s tt (st_log (EvUnlink (path r)) s)) in E.
    2:{ unfold try_catch. by rewrite (unlink_enoent _ _ Hu Hd). }
    rewrite (bind_ok _ _ _ _ _
               (deleteFile_ok k r (st_log (EvUnlink (path r)) s) Hinit Hw Hget))
      in E.
    unfold ret in E. injection E as <- <-. simpl_st.
    split; [done|]. split; [apply JsMap_get_delete_eq | done].
Qed.

Lemma delete_file_removes_both_witness :
  let out := routes.delete_file Fixtures.notes_name
               (Fixtures.diverged Fixtures.no_fault) in
  out.1 = Ok (FileDeleted Fixtures.notes_name "notes.txt")
  /\ JsMap.get Fixtures.notes_name (metadata (store out.2)) = None.
Proof.
  destruct (delete_file_removes_both Fixtures.notes_name Fixtures.notes_name
              Fixtures.notes_record (Fixtures.diverged Fixtures.no_fault)
              eq_refl eq_refl eq_refl eq_refl eq_refl) as (H1 & H2 & _).
  split; [exact H1 | exact H2].
Defined.

Lemma is_char_sym a b : Js.is_char a b = Js.is_char b a.
Proof. apply Ascii.eqb_sym. Qed.

Lemma startsWith_app_sep q b : forall needle a,
  Js.includes_char q needle = false ->
  Js.startsWith needle (a ++ String q b) = Js.startsWith needle a.
Proof.
  intros needle a. revert needle.
  induction a as [|x a IH]; intros [|c needle] Hq; try reflexivity.
  - cbn [Js.includes_char] in Hq. apply orb_false_elim in Hq as [Hc _].
    change (Js.is_char c q && Js.startsWith needle b = false).
    by rewrite is_char_sym, Hc.
  - cbn [Js.includes_char] in Hq. apply orb_false_elim in Hq as [_ Hq].
    change (Js.is_char c x && Js.startsWith needle (a ++ String q b)
            = Js.is_char c x && Js.startsWith needle a).
    by rewrite IH.
Qed.

(** A needle cannot lie across a character it does not contain. *)
Lemma includes_string_sep needle q a b :
  Js.includes_char q needle = false ->
  needle <> EmptyString ->
  Js.includes_string needle (a ++ String q b)
  = Js.includes_string needle a || Js.includes_string needle b.
Proof.
  intros Hq Hne. induction a as [|x a IH].
  - change (Js.startsWith needle (EmptyString ++ String q b)
            || Js.includes_string needle b
            = Js.includes_string needle EmptyString
              || Js.includes_string needle b).
    rewrite (startsWith_app_sep q b needle EmptyString Hq).
    by destruct needle.
  - change (Js.startsWith needle (String x a ++ String q b)
            || Js.includes_string needle (a ++ String q b)
            = (Js.startsWith needle (String x a) || Js.includes_string needle a)
              || Js.includes_string needle b).
    rewrite (startsWith_app_sep q b needle (String x a) Hq), IH.
    apply orb_assoc.
Qed.

(** The message of a system error that quotes its path includes
    ['not allowed'] exactly when the path does. *)
Lemma message_quotes_path c op p :
  (syscall op c).2 = true ->
  Js.includes_string "not allowed" (message (FsError c op p))
  = Js.includes_string "not allowed" p.
Proof.
  intros Hpath.
  assert (Hm : message (FsError c op p)
               = (code_name c ++ ": " ++ describe c ++ ", " ++ (syscall op c).1
                  ++ " ")
                 ++ String "'" (p ++ String "'" EmptyString)).
  { unfold message. rewrite Hpath. by destruct c, op. }
  rewrite Hm, !includes_string_sep by done.
  replace (Js.includes_string "not allowed"
             (code_name c ++ ": " ++ describe c ++ ", " ++ (syscall op c).1 ++ " "))
    with false by (by destruct c, op).
  cbn [orb]. apply orb_false_r.
Qed.

Lemma errorHandler_fs c op p :
  (syscall op c).2 = true ->
  errorHandler (FsError c op p)
  = if Js.includes_string "not allowed" p then NotAllowed (FsError c op p)
    else match c with
         | ENOENT => FileNotFound
         | EACCES | EPERM => PermissionDenied
         | EIO => InternalError (FsError c op p)
         end.
Proof.
  intros Hpath. unfold errorHandler.
  rewrite (message_quotes_path c op p Hpath).
  destruct (Js.includes_string "not allowed" p); [done|]. by destruct c.
Qed.

(** When the [unlink] of the file fails for another reason than the file
    being gone, the route hands the error to [errorHandler] and the record
    stays in the store: the map, the disk and the snapshot file are as
    before.  The answer has status 500, unless the path of the file, which
    the message of the error quotes, includes ['not allowed']: then it is
    the 400 meant for the errors of [fileFilter]. *)
Theorem delete_file_keeps_record_on_error fileId k r s c :
  initialized (store s) = true ->
  validateFileId fileId = inr k ->
  JsMap.get k (metadata (store s)) = Some r ->
  fault (world s) OpUnlink (path r) = Some c ->
  c <> ENOENT ->
  let out := routes.delete_file fileId s in
  let error := FsError c OpUnlink (path r) in
  out.1 = Ok (Answer (errorHandler error))
  /\ errorHandler error
     = (if Js.includes_string "not allowed" (path r) then NotAllowed error
        else match c with
             | EIO => InternalError error
             | _ => PermissionDenied
             end)
  /\ status (errorHandler error)
     = (if Js.includes_string "not allowed" (path r) then 400 else 500)
  /\ store out.2 = store s
  /\ world out.2 = world s.
Proof.
  intros Hinit Hid Hget Hu Hc. cbv zeta.
  destruct (routes.delete_file fileId s) as [res s'] eqn:E. cbn [fst snd].
  unfold routes.delete_file in E. rewrite Hid in E. unfold try_catch at 1 in E.
  rewrite (bind_ok _ _ _ _ _ (getFile_ok k s Hinit)), Hget in E.
  rewrite (bind_throw _ _ s (FsError c OpUnlink (path r)) (st_log (EvUnlink (path r)) s)) in E.
  2:{ unfold try_catch. rewrite (unlink_fault _ _ _ Hu). by destruct c. }
  unfold ret in E. injection E as <- <-.
  split; [reflexivity|].
  rewrite (errorHandler_fs c OpUnlink (path r) eq_refl).
  destruct (Js.includes_string "not allowed" (path r)); by destruct c.
Qed.

Lemma delete_file_keeps_record_on_error_witness :
  let r := Fixtures.oddly_named in
  let s := Fixtures.state [(id r, r)] {[ path r := [] ]} 0
             (fun op _ => match op with OpUnlink => Some EPERM | _ => None end) in
  (routes.delete_file (id r) s).1
    = Ok (Answer (NotAllowed (FsError EPERM OpUnlink (path r))))
  /\ status (NotAllowed (FsError EPERM OpUnlink (path r))) = 400
  /\ store (routes.delete_file (id r) s).2 = store s.
Proof.
  destruct (delete_file_keeps_record_on_error
              (id Fixtures.oddly_named) (id Fixtures.oddly_named)
              Fixtures.oddly_named
              (Fixtures.state [(id Fixtures.oddly_named, Fixtures.oddly_named)]
                 {[ path Fixtures.oddly_named := [] ]} 0
                 (fun op _ => match op with OpUnlink => Some EPERM | _ => None end))
              EPERM eq_refl eq_refl eq_refl eq_refl)
    as (H1 & _ & H3 & H4 & _); [discriminate|].
  split; [exact H1|]. split; [exact H3 | exact H4].
Defined.

(** [GET /api/files/:fileId] repairs the store on the way: a record whose
    file can be accessed is shown and nothing changes; a record whose file
    cannot be accessed is taken out of the store and the answer is [404]. *)
Theorem get_file_heals_store fileId k r s :
  initialized (store s) = true ->
  validateFileId fileId = inr k ->
  JsMap.get k (metadata (store s)) = Some r ->
  fault (world s) OpWriteFile METADATA_FILE = None ->
  let out := routes.get_file fileId s in
  (accessible s (path r) = true -> out = (Ok (FileInfo (view r)), s))
  /\ (accessible s (path r) = false ->
      out.1 = Ok (FileNotOnDisk true)
      /\ JsMap.get k (metadata (store out.2)) = None
      /\ snapshot (world out.2) = Records (JsMap.values (metadata (store out.2)))).
Proof.
  intros Hinit Hid Hget Hw. cbv zeta.
  destruct (routes.get_file fileId s) as [res s'] eqn:E.
  unfold routes.get_file in E. rewrite Hid in E. unfold try_catch at 1 in E.
  rewrite (bind_ok _ _ _ _ _ (getFile_ok k s Hinit)), Hget in E.
  split; intros Hacc.
  - rewrite (bind_ok _ _ s true s) in E; [done|].
    unfold try_catch. by rewrite (bind_ok _ _ _ _ _ (access_ok _ _ Hacc)).
  - destruct (access_fails _ _ Hacc) as [e He].
    rewrite (bind_ok _ _ s false s) in E.
    2:{ unfold try_catch. by rewrite (bind_throw _ _ _ _ _ He). }
    cbv iota in E.
    rewrite (bind_ok _ _ _ _ _ (deleteFile_ok k r s Hinit Hw Hget)) in E.
    unfold ret in E. injection E as <- <-. cbn [fst snd]. simpl_st.
    split; [done|]. split; [apply JsMap_get_delete_eq | done].
Qed.

Lemma get_file_heals_store_witness :
  let out := routes.get_file Fixtures.notes_name
               (Fixtures.diverged Fixtures.no_fault) in
  out.1 = Ok (FileNotOnDisk true)
  /\ JsMap.get Fixtures.notes_name (metadata (store out.2)) = None.
Proof.
  destruct (proj2 (get_file_heals_store Fixtures.notes_name Fixtures.notes_name
                     Fixtures.notes_record (Fixtures.diverged Fixtures.no_fault)
                     eq_refl eq_refl eq_refl eq_refl) eq_refl) as (H1 & H2 & _).
  split; [exact H1 | exact H2].
Defined.



(** ** The listing *)

Lemma insert_newest_first_perm x l : insert_newest_first x l ≡ₚ x :: l.
Proof.
  induction l as [|y l IH]; simpl; [done|].
  destruct (uploadedAt y <=? uploadedAt x); [done|].
  rewrite IH. apply perm_swap.
Qed.

Lemma sort_newest_first_perm l : sort_newest_first l ≡ₚ l.
Proof.
  induction l as [|x l IH]; simpl; [done|].
  by rewrite insert_newest_first_perm, IH.
Qed.

Lemma insert_newest_first_sorted x l :
  StronglySorted (fun a b => uploadedAt b <= uploadedAt a) l ->
  StronglySorted (fun a b => uploadedAt b <= uploadedAt a) (insert_newest_first x l).
Proof.
  induction 1 as [|y l Hs IH Hall]; simpl.
  - repeat constructor.
  - destruct (Z.leb_spec (uploadedAt y) (uploadedAt x)) as [Hle|Hgt].
    + constructor; [by constructor|]. constructor; [done|].
      eapply Forall_impl; [exact Hall|]. simpl. intros z Hz. lia.
    + constructor; [exact IH|].
      rewrite insert_newest_first_perm. constructor; [lia | done].
Qed.

Lemma sort_newest_first_sorted l :
  StronglySorted (fun a b => uploadedAt b <= uploadedAt a) (sort_newest_first l).
Proof.
  induction l as [|x l IH]; simpl; [constructor|].
  by apply insert_newest_first_sorted.
Qed.

(** [GET /api/files] lists every record of the store exactly once, newest
    upload first, together with their number and the bytes accounted for;
    it changes nothing. *)
Theorem list_files_newest_first s :
  initialized (store s) = true ->
  exists files,
    routes.list_files s =
      (Ok (FileList (map view files)
                    (Z.of_nat (length (JsMap.values (metadata (store s)))))
                    (currentUsage s)), s)
    /\ files ≡ₚ JsMap.values (metadata (store s))
    /\ StronglySorted (fun a b => uploadedAt b <= uploadedAt a) files.
Proof.
  intros Hinit.
  exists (sort_newest_first (JsMap.values (metadata (store s)))).
  split; [|split; [apply sort_newest_first_perm | apply sort_newest_first_sorted]].
  unfold routes.list_files, try_catch.
  rewrite (bind_ok _ _ _ _ _ (getAllFiles_ok s Hinit)).
  rewrite (bind_ok _ _ _ _ _ (getTotalStorageUsed_ok s Hinit)).
  unfold ret. by rewrite (Permutation_length (sort_newest_first_perm _)).
Qed.

Lemma list_files_newest_first_witness :
  exists files,
    routes.list_files (Fixtures.diverged Fixtures.no_fault) =
      (Ok (FileList (map view files) 1 5), Fixtures.diverged Fixtures.no_fault)
    /\ files ≡ₚ [Fixtures.notes_record].
Proof.
  destruct (list_files_newest_first (Fixtures.diverged Fixtures.no_fault) eq_refl)
    as (files & H1 & H2 & _).
  exists files. split; [exact H1 | exact H2].
Defined.

(** ** Generated file names *)

Lemma all_chars_app p a b : all_chars p (a ++ b) = all_chars p a && all_chars p b.
Proof. unfold all_chars. by rewrite chars_append, forallb_app. Qed.

Lemma all_chars_cons p c s : all_chars p (String c s) = p c && all_chars p s.
Proof. reflexivity. Qed.

Lemma all_chars_impl (p q : ascii -> bool) s :
  (forall c, p c = true -> q c = true) -> all_chars p s = true -> all_chars q s = true.
Proof.
  intros Hpq. unfold all_chars. induction (Js.chars s) as [|c l IH]; simpl; [done|].
  intros [Hc Hl]%andb_true_iff. by rewrite (Hpq c Hc), IH.
Qed.

Lemma all_chars_excludes p c s :
  p c = false -> all_chars p s = true -> Js.includes_char c s = false.
Proof.
  intros Hc. induction s as [|a s IH]; [done|].
  rewrite all_chars_cons. cbn [Js.includes_char].
  intros [Ha Hs]%andb_true_iff. rewrite (IH Hs), orb_false_r.
  unfold Js.is_char. destruct (Ascii.eqb_spec c a) as [->|]; congruence.
Qed.

Lemma is_safe_plain c : Multer.is_safe c = true -> is_plain c = true.
Proof. destruct c as [[] [] [] [] [] [] [] []]; vm_compute; congruence. Qed.

Lemma is_hex_plain c : is_hex c = true -> is_plain c = true.
Proof. destruct c as [[] [] [] [] [] [] [] []]; vm_compute; congruence. Qed.

Lemma is_digit_or_dash_plain c : is_digit_or_dash c = true -> is_plain c = true.
Proof. destruct c as [[] [] [] [] [] [] [] []]; vm_compute; congruence. Qed.

Lemma pretty_N_char_digit x : is_digit_or_dash (pretty_N_char x) = true.
Proof. unfold pretty_N_char. by repeat case_match. Qed.

Lemma pretty_N_go_digits x : forall s,
  all_chars is_digit_or_dash s = true ->
  all_chars is_digit_or_dash (pretty_N_go x s) = true.
Proof.
  induction (N.lt_wf_0 x) as [x _ IH]. intros s Hs.
  assert (x = 0 \/ 0 < x)%N as [->|Hpos] by lia.
  - by rewrite pretty_N_go_0.
  - rewrite pretty_N_go_step by done. apply IH; [by apply N.div_lt|].
    by rewrite all_chars_cons, pretty_N_char_digit.
Qed.

Lemma pretty_Z_digits (z : Z) : all_chars is_digit_or_dash (pretty z) = true.
Proof.
  assert (HN : forall n : N, all_chars is_digit_or_dash (pretty n) = true).
  { intros n. unfold pretty, pretty_N. case_decide; [done|].
    by apply pretty_N_go_digits. }
  destruct z as [|p|p]; [done|apply HN|].
  unfold pretty, pretty_Z. rewrite all_chars_app.
  apply andb_true_iff. split; [done | apply (HN (Npos p))].
Qed.

Lemma existsb_pointwise {A} (p q : A -> bool) l :
  (forall x, p x = q x) -> existsb p l = existsb q l.
Proof. intros H. induction l as [|a l IH]; simpl; [done|]. by rewrite H, IH. Qed.

Lemma drop_while_none {A} (p : A -> bool) l :
  existsb p l = false -> Js.drop_while p l = l.
Proof. destruct l as [|a l]; simpl; [done|]. by intros [-> _]%orb_false_iff. Qed.

Lemma take_while_all {A} (p : A -> bool) l :
  existsb (fun x => negb (p x)) l = false -> Js.take_while p l = l.
Proof.
  induction l as [|a l IH]; simpl; [done|].
  intros [Ha Hl]%orb_false_iff. apply negb_false_iff in Ha. by rewrite Ha, IH.
Qed.

Lemma basename_id s : Js.includes_char Js.slash s = false -> Path.basename s = s.
Proof.
  intros Hs. rewrite includes_char_chars, <- existsb_reverse in Hs.
  unfold Path.basename. rewrite (drop_while_none _ _ Hs), take_while_all.
  - rewrite rev_involutive. apply string_of_list_ascii_of_string.
  - rewrite <- Hs. apply existsb_pointwise. intros c. apply negb_involutive.
Qed.

Lemma nodot_no_dotdot s :
  Js.includes_char Js.dot s = false -> Js.includes_dotdot s = false.
Proof.
  induction s as [|a s IH]; [done|].
  cbn [Js.includes_char]. intros [Ha Hs]%orb_false_iff.
  destruct s as [|b s]; [done|].
  change (Js.includes_dotdot (String a (String b s)))
    with ((Js.is_char Js.dot a && Js.is_char Js.dot b)
          || Js.includes_dotdot (String b s)).
  by rewrite Ha, (IH Hs).
Qed.

Lemma replace_dotdot_id s :
  Js.includes_dotdot s = false -> Js.replace_dotdot s = s.
Proof.
  induction s as [|a s IH]; [done|].
  destruct s as [|b s]; [done|].
  change (Js.includes_dotdot (String a (String b s)))
    with ((Js.is_char Js.dot a && Js.is_char Js.dot b)
          || Js.includes_dotdot (String b s)).
  intros [Hab Hs]%orb_false_iff. rewrite replace_dotdot_step, Hab.
  by rewrite (IH Hs).
Qed.

Lemma includes_char_app c a b :
  Js.includes_char c (a ++ b) = Js.includes_char c a || Js.includes_char c b.
Proof.
  induction a as [|x a IH]; [done|].
  change (String x a ++ b) with (String x (a ++ b)).
  cbn [Js.includes_char]. by rewrite IH, orb_assoc.
Qed.

Lemma includes_dotdot_app_nodot a b :
  Js.includes_char Js.dot a = false ->
  Js.includes_dotdot (a ++ b) = Js.includes_dotdot b.
Proof.
  induction a as [|x a IH]; [done|].
  cbn [Js.includes_char]. intros [Hx Ha]%orb_false_iff.
  change (String x a ++ b) with (String x (a ++ b)).
  destruct (a ++ b) as [|y r] eqn:E.
  - by rewrite <- (IH Ha).
  - change (Js.includes_dotdot (String x (String y r)))
      with ((Js.is_char Js.dot x && Js.is_char Js.dot y)
            || Js.includes_dotdot (String y r)).
    rewrite Hx. cbn [andb orb]. by apply IH.
Qed.

Lemma string_app_assoc (a b c : string) : (a ++ b) ++ c = a ++ b ++ c.
Proof.
  induction a as [|x a IH]; [done|].
  change (String x ((a ++ b) ++ c) = String x (a ++ b ++ c)). by rewrite IH.
Qed.

(** An extension, as [path.extname] returns it, has no slash and no two
    adjacent dots. *)
Lemma extname_shape p :
  Js.includes_char Js.slash (Path.extname p) = false
  /\ Js.includes_dotdot (Path.extname p) = false.
Proof.
  unfold Path.extname.
  set (rb := rev (Js.chars (Path.basename p))).
  set (nodot := fun c => negb (Js.is_char Js.dot c)).
  destruct (Js.drop_while nodot rb) as [|d [|d' l]]; [done..|].
  destruct (String.eqb (Path.basename p) ".."); [done|].
  assert (Htail : existsb (Js.is_char Js.dot) (rev (Js.take_while nodot rb)) = false).
  { rewrite existsb_reverse.
    rewrite <- (take_while_holds nodot rb). apply existsb_pointwise.
    intros c. unfold nodot. by rewrite negb_involutive. }
  assert (Hslash : existsb (Js.is_char Js.slash) (rev (Js.take_while nodot rb)) = false).
  { rewrite existsb_reverse.
    destruct (existsb _ (Js.take_while nodot rb)) eqn:E; [|done].
    apply existsb_take_while in E. unfold rb in E.
    rewrite existsb_reverse, <- includes_char_chars, basename_no_slash in E.
    done. }
  split.
  - rewrite includes_char_of_chars. cbn [existsb]. by rewrite Hslash.
  - unfold Js.of_chars. cbn [string_of_list_ascii].
    set (tail := string_of_list_ascii (rev (Js.take_while nodot rb))).
    assert (Hnodot : Js.includes_char Js.dot tail = false).
    { unfold tail. by rewrite (includes_char_of_chars Js.dot). }
    destruct tail as [|b t] eqn:Et; [done|].
    change (Js.includes_dotdot (String Js.dot (String b t)))
      with ((Js.is_char Js.dot Js.dot && Js.is_char Js.dot b)
            || Js.includes_dotdot (String b t)).
    rewrite (nodot_no_dotdot _ Hnodot), orb_false_r.
    cbn [Js.includes_char] in Hnodot.
    apply orb_false_iff in Hnodot as [-> _]. apply andb_false_r.
Qed.

(** The stem of a generated name: at most fifty characters, all of them
    letters, digits, underscores or hyphens. *)
Lemma sanitized_stem_safe (l : list ascii) :
  forallb Multer.is_safe
    (take 50 (map (fun c => if Multer.is_safe c then c else "_"%char) l)) = true.
Proof.
  generalize 50%nat. induction l as [|c l IH]; intros n; [by destruct n|].
  destruct n; [done|]. cbn [map take forallb]. rewrite IH, andb_true_r.
  by destruct (Multer.is_safe c) eqn:E.
Qed.

(** What [generateUniqueFilename] hands out, for a hexadecimal random part:
    a name without slash that does not start with a dot, so the stored file
    lies directly in the upload directory and is not hidden; and, when the
    extension of the original name has no backslash, a name that
    [validateFileId] lets through unchanged, so the id the client is given
    is the id the other routes look up. *)
Theorem generateUniqueFilename_shape originalname timestamp randomString :
  all_chars is_hex randomString = true ->
  let name := Multer.generateUniqueFilename originalname timestamp randomString in
  Js.includes_char Js.slash name = false
  /\ Js.startsWith_dot name = false
  /\ (Js.includes_char Js.backslash (Path.extname originalname) = false ->
      validateFileId name = inr name).
Proof.
  intros Hhex. cbv zeta. unfold Multer.generateUniqueFilename.
  set (ext := Path.extname originalname).
  set (stem := Js.of_chars _).
  assert (Hstem : all_chars is_plain stem = true).
  { apply (all_chars_impl Multer.is_safe); [apply is_safe_plain|].
    unfold all_chars, stem, Js.chars, Js.of_chars.
    rewrite list_ascii_of_string_of_list_ascii. apply sanitized_stem_safe. }
  set (x := stem ++ "_" ++ pretty timestamp ++ "_" ++ randomString).
  assert (Hname : stem ++ "_" ++ pretty timestamp ++ "_" ++ randomString ++ ext
                  = x ++ ext).
  { unfold x. by rewrite !string_app_assoc. }
  rewrite Hname.
  assert (Hx : all_chars is_plain x = true).
  { unfold x. rewrite !all_chars_app, Hstem.
    rewrite (all_chars_impl _ _ _ is_digit_or_dash_plain (pretty_Z_digits timestamp)).
    by rewrite (all_chars_impl _ _ _ is_hex_plain Hhex). }
  assert (Hx0 : exists c r, x = String c r /\ is_plain c = true).
  { unfold x. destruct stem as [|c r].
    - by exists "_"%char, (pretty timestamp ++ "_" ++ randomString).
    - exists c, (r ++ "_" ++ pretty timestamp ++ "_" ++ randomString).
      split; [done|]. rewrite all_chars_cons in Hstem.
      by apply andb_true_iff in Hstem as [-> _]. }
  destruct (extname_shape originalname) as [Hes Hed]. fold ext in Hes, Hed.
  assert (Hslash : Js.includes_char Js.slash (x ++ ext) = false).
  { rewrite includes_char_app, Hes, orb_false_r.
    by apply (all_chars_excludes is_plain). }
  assert (Hdd : Js.includes_dotdot (x ++ ext) = false).
  { rewrite includes_dotdot_app_nodot; [done|].
    by apply (all_chars_excludes is_plain). }
  split; [done|]. split.
  - destruct Hx0 as (c & r & -> & Hc).
    change (Js.startsWith_dot (String c r ++ ext)) with (Js.is_char Js.dot c).
    unfold is_plain in Hc. apply andb_true_iff in Hc as [_ Hc].
    by apply negb_true_iff in Hc.
  - intros Hback.
    assert (Hb : Js.includes_char Js.backslash (x ++ ext) = false).
    { rewrite includes_char_app, Hback, orb_false_r.
      by apply (all_chars_excludes is_plain). }
    destruct Hx0 as (c & r & Ex & _).
    unfold validateFileId, sanitizeFilename.
    rewrite (basename_id _ Hslash), (replace_dotdot_id _ Hdd),
      (replace_separators_id _ Hslash Hb).
    rewrite Ex. reflexivity.
Qed.

Lemma generateUniqueFilename_shape_witness :
  validateFileId Fixtures.notes_name = inr Fixtures.notes_name.
Proof.
  exact (proj2 (proj2 (generateUniqueFilename_shape "notes.txt" Fixtures.noon
                         "00ff00ff00ff00ff" eq_refl)) eq_refl).
Defined.

(** ** A whole sweep *)

Lemma initialize_done s :
  initialized (store s) = true -> metadataStore.initialize s = (Ok tt, s).
Proof.
  intros H. unfold metadataStore.initialize.
  rewrite (bind_ok _ _ _ s s) by reflexivity. by rewrite H.
Qed.

Lemma expire_loop_fault expiredFiles : forall deletedCount s,
  initialized (store s) = true ->
  fault (world (lifecycleService.expire_loop expiredFiles deletedCount s).2)
  = fault (world s).
Proof.
  induction expiredFiles as [|file rest IH]; intros deletedCount s Hinit; [done|].
  destruct (expire_turn file s Hinit) as (deleted & s1 & E1 & Hi1 & Hf1 & _).
  cbn [lifecycleService.expire_loop]. rewrite (bind_ok _ _ _ _ _ E1).
  by rewrite IH.
Qed.

Lemma well_keyed_fold_delete ids : forall m,
  well_keyed m -> well_keyed (fold_left (fun m k => JsMap.delete k m) ids m).
Proof.
  induction ids as [|k ids IH]; intros m Hwk; [done|].
  simpl. by apply IH, well_keyed_delete.
Qed.

Lemma JsMap_get_elem {V} k (v : V) m : JsMap.get k m = Some v -> (k, v) ∈ m.
Proof.
  induction m as [|[k0 v0] m IH]; simpl; [done|].
  destruct (String.eqb_spec k k0) as [->|Hne].
  - intros [= ->]. apply list_elem_of_here.
  - intros H. by apply list_elem_of_further, IH.
Qed.

Lemma JsMap_get_value k (r : FileRecord) m :
  JsMap.get k m = Some r -> r ∈ JsMap.values m.
Proof.
  intros H. apply list_elem_of_fmap. exists (k, r). split; [done|].
  by apply JsMap_get_elem.
Qed.

(** After a sweep on a file system that does not fail, the store and the
    upload directory agree: the run reports its three counts; every record
    left was there before, has not expired and has its file on the disk; and
    every file directly in the upload directory whose name does not start
    with a dot is the file of a record left.  (The records are those of
    uploads: each one's path is its file name inside the upload directory.) *)
Theorem runCleanup_reconciles cfg s :
  initialized (store s) = true ->
  no_faults s ->
  well_keyed (metadata (store s)) ->
  (forall r, r ∈ JsMap.values (metadata (store s)) ->
             path r = Path.join (uploadDir cfg) (filename r)) ->
  let out := lifecycleService.runCleanup cfg s in
  (exists expired orphaned stray,
     out.1 = Ok (CleanupSuccess expired orphaned stray))
  /\ (forall k r,
        JsMap.get k (metadata (store out.2)) = Some r ->
        JsMap.get k (metadata (store s)) = Some r
        /\ clock (world s) < expiresAt r
        /\ is_Some (disk (world out.2) !! path r))
  /\ (forall name b,
        disk (world out.2) !! Path.join (uploadDir cfg) name = Some b ->
        Js.includes_char Js.slash name = false ->
        Js.startsWith_dot name = false ->
        exists r, r ∈ JsMap.values (metadata (store out.2)) /\ filename r = name).
Proof.
  intros Hinit Hnf Hwk Hpath. cbv zeta.
  (* the expiry sweep *)
  set (expired := filter (fun record => expiresAt record <= clock (world s))
                         (JsMap.values (metadata (store s)))).
  destruct (expire_loop_spec expired 0 s Hinit)
    as (n1 & s1 & E1 & Hi1 & _).
  pose proof (expire_loop_frame expired 0 s Hinit) as [Hm1 _].
  pose proof (expire_loop_fault expired 0 s Hinit) as Hf1.
  rewrite E1 in Hm1, Hf1. cbn [snd] in Hm1, Hf1.
  assert (Hexp : lifecycleService.cleanupExpiredFiles s = (Ok n1, s1)).
  { unfold lifecycleService.cleanupExpiredFiles.
    by rewrite (bind_ok _ _ _ _ _ (getExpiredFiles_ok s Hinit)). }
  assert (Hwk1 : well_keyed (metadata (store s1))).
  { rewrite Hm1. by apply well_keyed_fold_delete. }
  assert (Hnf1 : forall op p, fault (world s1) op p = None).
  { intros op p. rewrite Hf1. apply Hnf. }
  assert (Hget1 : forall k r, JsMap.get k (metadata (store s1)) = Some r ->
            JsMap.get k (metadata (store s)) = Some r
            /\ clock (world s) < expiresAt r).
  { intros k r. rewrite Hm1, get_fold_delete. case_bool_decide as Hin; [done|].
    intros Hk. split; [done|].
    destruct (Z.lt_ge_cases (clock (world s)) (expiresAt r)) as [|Hle]; [done|].
    destruct Hin. apply list_elem_of_fmap. exists r.
    destruct Hwk as [_ Hid].
    rewrite (Hid k r (JsMap_get_elem _ _ _ Hk)).
    split; [done|]. apply list_elem_of_filter. split; [done|].
    by eapply JsMap_get_value. }
  (* the reconciliation of the metadata *)
  destruct (cleanOrphanedMetadata_run s1 Hi1 Hwk1 (Hnf1 _ _))
    as (E2 & Hget2 & _ & _ & Hd2 & Hf2 & Hi2).
  destruct (metadataStore.cleanOrphanedMetadata s1) as [r2 s2] eqn:Eq2.
  cbn [fst snd] in E2, Hget2, Hd2, Hf2, Hi2. subst r2.
  assert (Hnf2 : forall op p, fault (world s2) op p = None).
  { intros op p. rewrite Hf2. apply Hnf1. }
  (* the sweep of orphaned files *)
  set (known := list_to_set (map filename (JsMap.values (metadata (store s2))))
                : gset string).
  destruct (orphan_loop_spec cfg known (listing (uploadDir cfg) s2) 0 s2)
    as (n3 & s3 & E3 & Hst3 & _ & Hmono & Hgone & _).
  pose proof (orphan_loop_frame cfg known (listing (uploadDir cfg) s2) 0 s2)
    as Hframe.
  rewrite E3 in Hframe. cbn [snd] in Hframe.
  assert (Hfiles : lifecycleService.cleanupOrphanedFiles cfg s2 = (Ok n3, s3)).
  { unfold lifecycleService.cleanupOrphanedFiles, try_catch.
    rewrite (bind_ok _ _ _ _ _ (readdir_ok _ s2 (Hnf2 _ _))).
    rewrite (bind_ok _ _ _ _ _ (getAllFiles_ok _ Hi2)). fold known.
    by rewrite E3. }
  assert (Hrun : exists n2, lifecycleService.runCleanup cfg s
                 = (Ok (CleanupSuccess n1 n2 n3), s3)).
  { eexists. unfold lifecycleService.runCleanup, try_catch.
    rewrite (bind_ok _ _ _ _ _ (initialize_done s Hinit)).
    rewrite (bind_ok _ _ _ _ _ Hexp).
    unfold lifecycleService.cleanupOrphanedMetadata.
    rewrite (bind_ok _ _ _ _ _ Eq2).
    by rewrite (bind_ok _ _ _ _ _ Hfiles). }
  destruct Hrun as [n2 Hrun].
  rewrite Hrun. cbn [fst snd]. split; [by eexists _, _, _|]. split.
  - intros k r Hk. rewrite Hst3 in Hk.
    pose proof Hk as Hk2. rewrite Hget2 in Hk.
    destruct (JsMap.get k (metadata (store s1))) as [r1|] eqn:Hk1; [|done].
    destruct (accessible s1 (path r1)) eqn:Hacc; [|done].
    injection Hk as ->. destruct (Hget1 k r Hk1) as [Hk0 Hfuture].
    split; [done|]. split; [done|].
    pose proof (Hpath r (JsMap_get_value _ _ _ Hk0)) as Hp.
    rewrite Hp, Hframe.
    + rewrite <- Hp, Hd2. unfold accessible in Hacc.
      destruct (fault (world s1) OpAccess (path r)); [done|].
      by destruct (disk (world s1) !! path r).
    + intros name _ _ Hunknown Heq%join_inj. subst name.
      apply Hunknown, elem_of_list_to_set, list_elem_of_fmap. exists r.
      split; [done|]. by eapply JsMap_get_value.
  - intros name b Hd Hslash Hdot.
    destruct (decide (name ∈ known)) as [Hin|Hout].
    + apply elem_of_list_to_set, list_elem_of_fmap in Hin as (r & -> & Hr).
      exists r. by rewrite Hst3.
    + rewrite Hgone in Hd; [done| |].
      * eapply listing_elem; [by eapply Hmono|done].
      * split; [done|]. split; [done|]. apply Hnf2.
Qed.

Lemma runCleanup_reconciles_witness :
  let s := Fixtures.diverged Fixtures.no_fault in
  let out := lifecycleService.runCleanup default_config s in
  (exists expired orphaned stray,
     out.1 = Ok (CleanupSuccess expired orphaned stray))
  /\ (forall name b,
        disk (world out.2) !! Path.join "uploads" name = Some b ->
        Js.includes_char Js.slash name = false ->
        Js.startsWith_dot name = false ->
        exists r, r ∈ JsMap.values (metadata (store out.2)) /\ filename r = name).
Proof.
  assert (Hwk : well_keyed (metadata (store (Fixtures.diverged Fixtures.no_fault)))).
  { split; [apply NoDup_singleton|].
    intros k r Hin. apply list_elem_of_singleton in Hin. by injection Hin as -> ->. }
  assert (Hpath : forall r,
            r ∈ JsMap.values (metadata (store (Fixtures.diverged Fixtures.no_fault))) ->
            path r = Path.join (uploadDir default_config) (filename r)).
  { intros r Hr. apply list_elem_of_singleton in Hr. by subst. }
  destruct (runCleanup_reconciles default_config
              (Fixtures.diverged Fixtures.no_fault)
              eq_refl (fun _ _ => eq_refl) Hwk Hpath) as (H1 & _ & H3).
  split; [exact H1 | exact H3].
Defined.

(** ** An upload that meets a store that cannot start *)

Lemma initialize_corrupt s :
  initialized (store s) = false ->
  fault (world s) OpMkdir METADATA_DIR = None ->
  fault (world s) OpReadFile METADATA_FILE = None ->
  snapshot (world s) = Corrupt ->
  metadataStore.initialize s = (Throw (InitFailed SyntaxError), s).
Proof.
  intros Hinit Hmk Hrd Hsnap.
  unfold metadataStore.initialize, fs.mkdir, fs.readSnapshot, check_fault.
  unfold_m. rewrite Hinit, Hmk, Hrd. by rewrite Hsnap.
Qed.

(** When the snapshot file cannot be parsed, the store cannot start, and
    the quota check of an upload fails: the upload is answered with status
    500 by [checkStorageLimit] itself, the file multer has written stays in
    the upload directory, and the store is left uninitialized and empty. *)
Theorem upload_store_unavailable cfg fromBuffer part w :
  (forall op p, fault w op p = None) ->
  snapshot w = Corrupt ->
  Multer.fileFilter cfg part = Ok tt ->
  byteLength (content part) < maxFileSizeBytes cfg ->
  let out := upload cfg fromBuffer (Some part) (restarted w) in
  out.1 = Ok (StorageCheckFailed (InitFailed SyntaxError))
  /\ status (StorageCheckFailed (InitFailed SyntaxError)) = 500
  /\ disk (world out.2) !! f_path (stored_file cfg part (clock w))
     = Some (content part)
  /\ store out.2 = store (restarted w).
Proof.
  intros Hnf Hsnap Hfilter Hsize. cbv zeta.
  unfold upload, try_catch.
  rewrite (bind_ok _ _ _ _ _ (single_stored cfg part (restarted w) Hnf Hfilter Hsize)).
  assert (Hc : checkStorageLimit cfg
                 (Some (stored_file cfg part (clock (world (restarted w)))))
                 (stored cfg part (restarted w))
               = (Ok (Sent (StorageCheckFailed (InitFailed SyntaxError))),
                  stored cfg part (restarted w))).
  { unfold checkStorageLimit, try_catch.
    rewrite (bind_throw _ _ _ (InitFailed SyntaxError) (stored cfg part (restarted w)));
      [done|].
    unfold metadataStore.getTotalStorageUsed.
    rewrite (bind_throw _ _ _ (InitFailed SyntaxError) (stored cfg part (restarted w)));
      [done|].
    unfold metadataStore.ensure_initialized.
    rewrite (bind_ok _ _ _ (stored cfg part (restarted w))
               (stored cfg part (restarted w))) by reflexivity.
    change (initialized (store (stored cfg part (restarted w)))) with false.
    cbn iota. apply initialize_corrupt; try done; apply Hnf. }
  rewrite (bind_ok _ _ _ _ _ Hc). unfold ret. cbn [fst snd].
  split; [done|]. split; [done|]. split; [|done].
  unfold stored. simpl_st. apply lookup_insert_eq.
Qed.

Lemma upload_store_unavailable_witness :
  let w := {| disk := ∅; snapshot := Corrupt; clock := Fixtures.noon;
              fault := Fixtures.no_fault |} in
  let out := upload default_config Fixtures.signature (Some Fixtures.notes)
               (restarted w) in
  out.1 = Ok (StorageCheckFailed (InitFailed SyntaxError))
  /\ disk (world out.2) !! Path.join "uploads" Fixtures.notes_name
     = Some (content Fixtures.notes).
Proof.
  destruct (upload_store_unavailable default_config Fixtures.signature
              Fixtures.notes
              {| disk := ∅; snapshot := Corrupt; clock := Fixtures.noon;
                 fault := Fixtures.no_fault |}
              (fun _ _ => eq_refl) eq_refl eq_refl)
    as (H1 & _ & H3 & _); [done|].
  split; [exact H1 | exact H3].
Defined.

(** ** The content check when the file system fails *)

(** When the stored file cannot be read, [validateFileMimeType] answers
    with status 500 and the error of the read, after one attempt to remove
    the file: the file is gone afterwards unless that [unlink] is made to
    fail too, in which case the disk is as before; the store is untouched
    either way. *)
Theorem validateFileMimeType_unreadable cfg fromBuffer f s c :
  fault (world s) OpReadFile (f_path f) = Some c ->
  let out := validateFileMimeType cfg fromBuffer (Some f) s in
  out.1 = Ok (Sent (ValidateFailed (FsError c OpReadFile (f_path f))))
  /\ status (ValidateFailed (FsError c OpReadFile (f_path f))) = 500
  /\ store out.2 = store s
  /\ trace out.2 = (trace s ++ [EvUnlink (f_path f)])%list
  /\ (fault (world s) OpUnlink (f_path f) = None ->
      disk (world out.2) !! f_path f = None)
  /\ (fault (world s) OpUnlink (f_path f) <> None ->
      disk (world out.2) = disk (world s)).
Proof.
  intros Hrd. cbv zeta.
  assert (Hcatch : forall s',
            try_catch (fs.unlink (f_path f)) (fun _ => ret tt) s = (Ok tt, s') ->
            validateFileMimeType cfg fromBuffer (Some f) s
            = (Ok (Sent (ValidateFailed (FsError c OpReadFile (f_path f)))), s')).
  { intros s' E. unfold validateFileMimeType, try_catch at 1.
    rewrite (bind_throw _ _ _ (FsError c OpReadFile (f_path f)) s).
    2:{ unfold fs.readFile.
        by rewrite (bind_throw _ _ _ _ _ (check_fault_some _ _ _ _ Hrd)). }
    by rewrite (bind_ok _ _ _ _ _ E). }
  destruct (fault (world s) OpUnlink (f_path f)) as [c'|] eqn:Hul.
  - rewrite (Hcatch (st_log (EvUnlink (f_path f)) s)).
    2:{ unfold try_catch. by rewrite (unlink_fault _ _ _ Hul). }
    cbn [fst snd]. simpl_st. by repeat split.
  - destruct (disk (world s) !! f_path f) as [b|] eqn:Hd.
    + rewrite (Hcatch (st_disk (delete (f_path f) (disk (world s)))
                         (st_log (EvUnlink (f_path f)) s))).
      2:{ unfold try_catch. by rewrite (unlink_ok _ _ _ Hul Hd). }
      cbn [fst snd]. simpl_st.
      repeat split; try done. intros _. apply lookup_delete_eq.
    + rewrite (Hcatch (st_log (EvUnlink (f_path f)) s)).
      2:{ unfold try_catch. by rewrite (unlink_enoent _ _ Hul Hd). }
      cbn [fst snd]. simpl_st. by repeat split.
Qed.

Lemma validateFileMimeType_unreadable_witness :
  let s := Fixtures.state JsMap.empty
             {[ f_path Fixtures.notes_file := content Fixtures.notes ]}
             Fixtures.noon
             (fun op p => match op with OpReadFile => Some EACCES | _ => None end) in
  let out := validateFileMimeType default_config Fixtures.signature
               (Some Fixtures.notes_file) s in
  out.1 = Ok (Sent (ValidateFailed (FsError EACCES OpReadFile (f_path Fixtures.notes_file))))
  /\ disk (world out.2) !! f_path Fixtures.notes_file = None.
Proof.
  destruct (validateFileMimeType_unreadable default_config Fixtures.signature
              Fixtures.notes_file
              (Fixtures.state JsMap.empty
                 {[ f_path Fixtures.notes_file := content Fixtures.notes ]}
                 Fixtures.noon
                 (fun op p => match op with OpReadFile => Some EACCES | _ => None end))
              EACCES eq_refl)
    as (H1 & _ & _ & _ & H5 & _).
  split; [exact H1 | exact (H5 eq_refl)].
Defined.

(** A spoofed file that cannot be removed: when the bytes carry the
    signature of another type than the declared one and the [unlink] of the
    file fails, the mismatch is not reported; the answer is the status 500
    of the failed validation, after a second attempt to remove the file, and
    the file is still on the disk. *)
Theorem validateFileMimeType_spoof_not_removed cfg fromBuffer f s b mime c :
  fault (world s) OpReadFile (f_path f) = None ->
  disk (world s) !! f_path f = Some b ->
  fromBuffer b = Some mime ->
  mime <> f_mimetype f ->
  fault (world s) OpUnlink (f_path f) = Some c ->
  let out := validateFileMimeType cfg fromBuffer (Some f) s in
  out.1 = Ok (Sent (ValidateFailed (FsError c OpUnlink (f_path f))))
  /\ disk (world out.2) !! f_path f = Some b
  /\ store out.2 = store s
  /\ trace out.2 = (trace s ++ [EvUnlink (f_path f); EvUnlink (f_path f)])%list.
Proof.
  intros Hrd Hd Hsniff Hne Hul. cbv zeta.
  assert (E : validateFileMimeType cfg fromBuffer (Some f) s
              = (Ok (Sent (ValidateFailed (FsError c OpUnlink (f_path f)))),
                 st_log (EvUnlink (f_path f)) (st_log (EvUnlink (f_path f)) s))).
  { unfold validateFileMimeType, try_catch at 1.
    rewrite (bind_ok _ _ _ _ _ (readFile_ok _ s _ Hrd Hd)), Hsniff.
    destruct (String.eqb_spec mime (f_mimetype f)) as [Heq|_]; [done|]. cbn [negb].
    rewrite (bind_throw _ _ _ _ _ (unlink_fault _ _ _ Hul)).
    rewrite (bind_ok _ _ _ tt
               (st_log (EvUnlink (f_path f)) (st_log (EvUnlink (f_path f)) s)));
      [done|].
    unfold try_catch. by rewrite (unlink_fault _ (st_log _ s) c). }
  rewrite E. cbn [fst snd]. simpl_st.
  repeat split; try done. by rewrite <- app_assoc.
Qed.

Lemma validateFileMimeType_spoof_not_removed_witness :
  let f := stored_file default_config Fixtures.disguised Fixtures.noon in
  let s := Fixtures.state JsMap.empty
             {[ f_path f := content Fixtures.disguised ]}
             Fixtures.noon
             (fun op p => match op with OpUnlink => Some EPERM | _ => None end) in
  let out := validateFileMimeType default_config Fixtures.signature (Some f) s in
  out.1 = Ok (Sent (ValidateFailed (FsError EPERM OpUnlink (f_path f))))
  /\ disk (world out.2) !! f_path f = Some (content Fixtures.disguised).
Proof.
  destruct (validateFileMimeType_spoof_not_removed default_config
              Fixtures.signature
              (stored_file default_config Fixtures.disguised Fixtures.noon)
              (Fixtures.state JsMap.empty
                 {[ f_path (stored_file default_config Fixtures.disguised
                              Fixtures.noon) := content Fixtures.disguised ]}
                 Fixtures.noon
                 (fun op p => match op with OpUnlink => Some EPERM | _ => None end))
              (content Fixtures.disguised) "application/x-msdownload" EPERM)
    as (H1 & H2 & _); try reflexivity; [done|].
  split; [exact H1 | exact H2].
Defined.
